(** * Pinion: the pinout-diagram generator ([pinion/generate.py])

    A shallow embedding of the generator and the properties of its
    geometry, assembly, image and group-taxonomy stages.

    Modelling conventions.
    - The annotation document is untyped data (it is loaded from YAML/JSON),
      so it is embedded as a tree of Python values ([value]); dictionaries
      are insertion-ordered association lists, as iteration order decides
      the order of the output.
    - Python exceptions are values of [exn]; code that may raise lives in
      the [result] monad, code that also touches the file system or starts
      the renderer lives in [IO], a state-and-error monad over the log of
      the effects performed so far.
    - Numbers are Python's: an [int] is an integer of any size, a
      [float] a binary64 number ([B64]), whose operations round and
      overflow as IEEE 754 has it.  The coordinates of the board model are
      C [int]s of 32 bits.
    - The viewBox of the vector image is Unicode text, a list of code
      points ([Text]); the other strings are strings of characters below
      256.
    - The board model (pcbnew), the renderer (pcbdraw), the rasteriser
      (wand) and the parser of numerals ([float]) are collaborators: they
      appear as records of accessors or as section variables.  The board
      model accepts any number as a clearance.
    - The calls on the file system ([mkdir], [open], [write]) succeed, and
      so do [make_blob] and [json.dumps]: the values of the model are all
      serialisable.  A fault can come from the renderer, from the readers
      of its output, and from the Python code of the generator. *)

From Stdlib Require Import ZArith QArith Qabs Qround Qpower List String Ascii Bool.
From Stdlib Require Import Lia Lqa Floats.SpecFloat.
From Stdlib Require Import Sorting.Sorted Sorting.Permutation.
Import ListNotations.

Local Open Scope string_scope.
Local Open Scope Z_scope.

(* ===================================================================== *)
(** ** Binary64 floating-point numbers *)
(* ===================================================================== *)

(** A Python [float] is a binary64 number of IEEE 754.  Its values are
    those of [spec_float]: the two zeros, the two infinities, NaN, and
    [S754_finite s m e] for (-1)^s * m * 2^e.  An operation returns the
    binary64 number nearest to the exact result, the one with an even
    mantissa when two are as near, and an infinity when that number is
    beyond the range. *)
Module B64.

Definition t : Set := spec_float.

Definition is_finite (x : t) : bool :=
  match x with
  | S754_zero _ | S754_finite _ _ _ => true
  | _ => false
  end.

(** The exact value of a finite number. *)
Definition to_Q (x : t) : Q :=
  match x with
  | S754_finite s m e =>
      (inject_Z (if s then Zneg m else Zpos m) * 2 ^ e)%Q
  | _ => 0%Q
  end.

(** The integer nearest to [N / D], the even one of two. *)
Definition nearest_even (N D : Z) : Z :=
  let f := N / D in
  match 2 * (N mod D) ?= D with
  | Lt => f
  | Gt => f + 1
  | Eq => if Z.even f then f else f + 1
  end.

(** All binary64 numbers are multiples of 2^-1074.  For [A / d] counted
    in that unit, the exponent [E] of the last place: the one that
    leaves 53 bits before it, and 0 for the subnormal numbers. *)
Definition exponent (A d : Z) : Z :=
  let c := Z.log2 A - Z.log2 d - 52 in
  if c <=? 0 then 0
  else if A <? 2 ^ 52 * d * 2 ^ c then c - 1 else c.

(** The rounding of [n / d] with the sign [s]. *)
Definition round_pos (s : bool) (n d : positive) : t :=
  let A := Zpos n * 2 ^ 1074 in
  let E := exponent A (Zpos d) in
  let m := nearest_even A (Zpos d * 2 ^ E) in
  let E' := if m =? 2 ^ 53 then E + 1 else E in
  let m' := if m =? 2 ^ 53 then 2 ^ 52 else m in
  match m' with
  | Zpos p => if E' <=? 2045 then S754_finite s p (E' - 1074)
              else S754_infinity s
  | _ => S754_zero s
  end.

Definition round (q : Q) : t :=
  match Qnum q with
  | Z0 => S754_zero false
  | Zpos n => round_pos false n (Qden q)
  | Zneg n => round_pos true n (Qden q)
  end.

Definition of_Z (n : Z) : t := round (inject_Z n).

(** [x * y] *)
Definition mul (x y : t) : t :=
  match x, y with
  | S754_nan, _ | _, S754_nan => S754_nan
  | S754_infinity _, S754_zero _ | S754_zero _, S754_infinity _ => S754_nan
  | S754_infinity sx, S754_infinity sy
  | S754_infinity sx, S754_finite sy _ _
  | S754_finite sx _ _, S754_infinity sy => S754_infinity (xorb sx sy)
  | S754_zero sx, S754_zero sy
  | S754_zero sx, S754_finite sy _ _
  | S754_finite sx _ _, S754_zero sy => S754_zero (xorb sx sy)
  | S754_finite _ _ _, S754_finite _ _ _ => round (to_Q x * to_Q y)
  end.

(** [x / y]; Python raises [ZeroDivisionError] on a zero divisor, which
    no divisor of the generator is. *)
Definition div (x y : t) : t :=
  match x, y with
  | S754_nan, _ | _, S754_nan => S754_nan
  | S754_infinity _, S754_infinity _ | S754_zero _, S754_zero _ => S754_nan
  | S754_infinity sx, S754_zero sy
  | S754_infinity sx, S754_finite sy _ _
  | S754_finite sx _ _, S754_zero sy => S754_infinity (xorb sx sy)
  | S754_zero sx, S754_infinity sy
  | S754_zero sx, S754_finite sy _ _
  | S754_finite sx _ _, S754_infinity sy => S754_zero (xorb sx sy)
  | S754_finite _ _ _, S754_finite _ _ _ => round (to_Q x / to_Q y)
  end.

(** [x + y] *)
Definition add (x y : t) : t :=
  match x, y with
  | S754_nan, _ | _, S754_nan => S754_nan
  | S754_infinity sx, S754_infinity sy =>
      if Bool.eqb sx sy then x else S754_nan
  | S754_infinity _, _ => x
  | _, S754_infinity _ => y
  | S754_zero sx, S754_zero sy => S754_zero (sx && sy)
  | S754_zero _, _ => y
  | _, S754_zero _ => x
  | S754_finite _ _ _, S754_finite _ _ _ => round (to_Q x + to_Q y)
  end.

(** Numbers are compared by their exact values; NaN compares to
    nothing. *)
Inductive extended : Type :=
| Fin (q : Q)
| PosInf
| NegInf
| NaN.

Definition classify (x : t) : extended :=
  match x with
  | S754_nan => NaN
  | S754_infinity s => if s then NegInf else PosInf
  | _ => Fin (to_Q x)
  end.

Definition ext_eqb (a b : extended) : bool :=
  match a, b with
  | Fin p, Fin q => Qeq_bool p q
  | PosInf, PosInf | NegInf, NegInf => true
  | _, _ => false
  end.

Definition ext_leb (a b : extended) : bool :=
  match a, b with
  | NaN, _ | _, NaN => false
  | NegInf, _ | _, PosInf => true
  | PosInf, _ | _, NegInf => false
  | Fin p, Fin q => Qle_bool p q
  end.

(** [x <= y] *)
Definition leb (x y : t) : bool := ext_leb (classify x) (classify y).

End B64.

(* ===================================================================== *)
(** ** Python values and exceptions *)
(* ===================================================================== *)

Module Py.

(** The values an annotation document is made of.  A [float] of the
    document is given by the exact value [q] of its numeral, and is the
    binary64 number nearest to it. *)
#[warnings="-register-all"]
Inductive value : Type :=
| VNone
| VBool (b : bool)
| VInt (n : Z)
| VFloat (q : Q)
| VStr (s : string)
| VList (elems : list value)
| VDict (items : list (value * value)).

(** Induction on values, with the hypothesis for every element of a list
    and every key and value of a dictionary. *)
Section Induction.

Variable P : value -> Prop.
Hypothesis HNone : P VNone.
Hypothesis HBool : forall b, P (VBool b).
Hypothesis HInt : forall n, P (VInt n).
Hypothesis HFloat : forall q, P (VFloat q).
Hypothesis HStr : forall s, P (VStr s).
Hypothesis HList : forall elems, Forall P elems -> P (VList elems).
Hypothesis HDict :
  forall items, Forall (fun kv => P (fst kv) /\ P (snd kv)) items ->
                P (VDict items).

Fixpoint value_nested_ind (v : value) : P v :=
  match v with
  | VNone => HNone
  | VBool b => HBool b
  | VInt n => HInt n
  | VFloat q => HFloat q
  | VStr s => HStr s
  | VList elems =>
      HList elems
        ((fix all (l : list value) : Forall P l :=
            match l with
            | [] => Forall_nil P
            | w :: rest => Forall_cons w (value_nested_ind w) (all rest)
            end) elems)
  | VDict items =>
      HDict items
        ((fix all (l : list (value * value))
            : Forall (fun kv => P (fst kv) /\ P (snd kv)) l :=
            match l with
            | [] => Forall_nil _
            | kv :: rest =>
                Forall_cons kv
                  (conj (value_nested_ind (fst kv)) (value_nested_ind (snd kv)))
                  (all rest)
            end) items)
  end.

End Induction.

(** An f-string before rendering: literal text and interpolated values. *)
Inductive fragment : Type :=
| Lit (text : string)
| Interp (v : value).

Inductive exn : Type :=
| KeyError (key : value)
| TypeError (what : string)
| AttributeError (what : string)
| ValueError (what : string)
| OverflowError (what : string)
| RuntimeError (msg : list fragment)
| CalledProcessError (returncode : Z)
| ReadError (path : string).

Inductive result (A : Type) : Type :=
| Ok (a : A)
| Raise (e : exn).
Arguments Ok {A} a.
Arguments Raise {A} e.

Definition bind {A B} (m : result A) (k : A -> result B) : result B :=
  match m with
  | Ok a => k a
  | Raise e => Raise e
  end.

Definition is_ok {A} (m : result A) : bool :=
  match m with Ok _ => true | Raise _ => false end.

(** [for x in xs: acc = body(acc, x)], stopping at the first exception. *)
Fixpoint foldM {A S} (body : S -> A -> result S) (xs : list A) (acc : S)
  : result S :=
  match xs with
  | [] => Ok acc
  | x :: rest => bind (body acc x) (foldM body rest)
  end.

(** [[f(x) for x in xs]], stopping at the first exception. *)
Fixpoint mapM {A B} (f : A -> result B) (xs : list A) : result (list B) :=
  match xs with
  | [] => Ok []
  | x :: rest =>
      bind (f x) (fun y => bind (mapM f rest) (fun ys => Ok (y :: ys)))
  end.

(** *** Hashing and equality of keys *)

(** Lists and dictionaries are unhashable: they can be neither dictionary
    keys nor set members. *)
Definition hashable (v : value) : bool :=
  match v with
  | VList _ | VDict _ => false
  | _ => true
  end.

(** A number at run time: an [int] of any size, or a [float]. *)
Inductive num : Type :=
| PInt (n : Z)
| PFloat (x : B64.t).

(** [bool], [int] and [float] are one numeric tower: [True == 1 == 1.0]. *)
Definition number (v : value) : option num :=
  match v with
  | VBool b => Some (PInt (if b then 1 else 0))
  | VInt n => Some (PInt n)
  | VFloat q => Some (PFloat (B64.round q))
  | _ => None
  end.

(** The exact value of a number, by which numbers are compared. *)
Definition exact_value (n : num) : B64.extended :=
  match n with
  | PInt z => B64.Fin (inject_Z z)
  | PFloat x => B64.classify x
  end.

(** [float(n)] on an [int]. *)
Definition float_of_int (n : Z) : result B64.t :=
  if B64.is_finite (B64.of_Z n) then Ok (B64.of_Z n)
  else Raise (OverflowError "int too large to convert to float").

(** [a == b] on hashable values. *)
Definition key_eqb (a b : value) : bool :=
  match a, b with
  | VNone, VNone => true
  | VStr s, VStr t => String.eqb s t
  | _, _ =>
      match number a, number b with
      | Some p, Some q => B64.ext_eqb (exact_value p) (exact_value q)
      | _, _ => false
      end
  end.

(** *** Dictionaries *)

Definition dict := list (value * value).

Fixpoint lookup (k : value) (d : dict) : option value :=
  match d with
  | [] => None
  | (k', v) :: rest => if key_eqb k' k then Some v else lookup k rest
  end.

(** [d[k] = v]: an existing key keeps its place (and its first spelling),
    a new key goes to the end. *)
Fixpoint store (k v : value) (d : dict) : dict :=
  match d with
  | [] => [(k, v)]
  | (k', v') :: rest =>
      if key_eqb k' k then (k', v) :: rest else (k', v') :: store k v rest
  end.

Definition keys (d : dict) : list value := map fst d.
Definition values (d : dict) : list value := map snd d.

Definition type_name (v : value) : string :=
  match v with
  | VNone => "NoneType"
  | VBool _ => "bool"
  | VInt _ => "int"
  | VFloat _ => "float"
  | VStr _ => "str"
  | VList _ => "list"
  | VDict _ => "dict"
  end.

(** [obj[k]] *)
Definition getitem (obj k : value) : result value :=
  match obj with
  | VDict d =>
      if hashable k then
        match lookup k d with
        | Some v => Ok v
        | None => Raise (KeyError k)
        end
      else Raise (TypeError "unhashable type")
  | _ => Raise (TypeError (type_name obj ++ " is not subscriptable by a key"))
  end.

(** [obj.get(k, default)] *)
Definition get (obj k default : value) : result value :=
  match obj with
  | VDict d =>
      if hashable k then
        match lookup k d with
        | Some v => Ok v
        | None => Ok default
        end
      else Raise (TypeError "unhashable type")
  | _ => Raise (AttributeError (type_name obj ++ " has no attribute get"))
  end.

(** [obj.items()], [obj.values()], [obj.keys()] *)
Definition items_of (obj : value) : result dict :=
  match obj with
  | VDict d => Ok d
  | _ => Raise (AttributeError (type_name obj ++ " has no attribute items"))
  end.

Definition values_of (obj : value) : result (list value) :=
  match obj with
  | VDict d => Ok (values d)
  | _ => Raise (AttributeError (type_name obj ++ " has no attribute values"))
  end.

Definition keys_of (obj : value) : result (list value) :=
  match obj with
  | VDict d => Ok (keys d)
  | _ => Raise (AttributeError (type_name obj ++ " has no attribute keys"))
  end.

(** *** Iteration *)

(** The characters of a string, each a string of length one. *)
Fixpoint chars (s : string) : list value :=
  match s with
  | EmptyString => []
  | String c rest => VStr (String c EmptyString) :: chars rest
  end.

(** [iter(obj)]: what a [for] loop, a star-unpacking or [set.update]
    walks through. *)
Definition iter (obj : value) : result (list value) :=
  match obj with
  | VStr s => Ok (chars s)
  | VList l => Ok l
  | VDict d => Ok (keys d)
  | _ => Raise (TypeError (type_name obj ++ " object is not iterable"))
  end.

(** *** Sets *)

(** A set is the list of its members, without repetition (up to [==]), in
    the order the members came in; Python leaves the order unspecified and
    the generator sorts before it looks at it. *)
Definition pyset := list value.

Definition member (v : value) (s : pyset) : bool :=
  existsb (fun w => key_eqb w v) s.

Definition add (s : pyset) (v : value) : result pyset :=
  if hashable v then Ok (if member v s then s else (s ++ [v])%list)
  else Raise (TypeError "unhashable type").

(** [s.update(it1, it2, ...)] *)
Definition update1 (s : pyset) (it : value) : result pyset :=
  bind (iter it) (fun xs => foldM add xs s).

Definition update (s : pyset) (its : list value) : result pyset :=
  foldM update1 its s.

(** *** Sorting *)

(** [a < b] is defined between two strings and between two numbers. *)
Definition all_str (l : list value) : bool :=
  forallb (fun v => match v with VStr _ => true | _ => false end) l.

Definition all_num (l : list value) : bool :=
  forallb (fun v => match number v with Some _ => true | None => false end) l.

Definition le (a b : value) : bool :=
  match a, b with
  | VStr s, VStr t => String.leb s t
  | _, _ =>
      match number a, number b with
      | Some p, Some q => B64.ext_leb (exact_value p) (exact_value q)
      | _, _ => true
      end
  end.

Fixpoint insert_sorted (v : value) (l : list value) : list value :=
  match l with
  | [] => [v]
  | w :: rest => if le v w then v :: l else w :: insert_sorted v rest
  end.

Fixpoint isort (l : list value) : list value :=
  match l with
  | [] => []
  | v :: rest => insert_sorted v (isort rest)
  end.

(** [l.sort()]: a list of fewer than two elements needs no comparison; a
    longer one must hold strings only or numbers only. *)
Definition sort (l : list value) : result (list value) :=
  match l with
  | [] | [_] => Ok l
  | _ =>
      if all_str l || all_num l then Ok (isort l)
      else Raise (TypeError "< not supported between the elements")
  end.

End Py.

Import Py.

Notation "x <- m ;; k" := (Py.bind m (fun x => k))
  (at level 61, m at next level, right associativity).

(* ===================================================================== *)
(** ** Unit conversion *)
(* ===================================================================== *)

Local Open Scope Q_scope.

(** [val * k] for an [int] constant [k]: exact on an [int], rounded on a
    [float]. *)
Definition times (val : num) (k : Z) : num :=
  match val with
  | PInt n => PInt (n * k)%Z
  | PFloat x => PFloat (B64.mul x (B64.of_Z k))
  end.

(** Convert KiCAD decimils to native units. *)
Definition dmil2ki (val : num) : num := times val 2540.

(** [val / 1000000.0]: an [int] is converted to a [float] first. *)
Definition ki2mm (val : num) : result B64.t :=
  match val with
  | PInt n => x <- float_of_int n ;; Ok (B64.div x (B64.of_Z 1000000))
  | PFloat x => Ok (B64.div x (B64.of_Z 1000000))
  end.

Definition mm2ki (val : num) : num := times val 1000000.

(* ===================================================================== *)
(** ** The board model (pcbnew) *)
(* ===================================================================== *)

(** The coordinates and sizes of pcbnew are C [int]s: whatever a field
    holds, its accessor returns the signed value of its 32 bits. *)
Definition c_int (z : Z) : Z := ((z + 2 ^ 31) mod 2 ^ 32 - 2 ^ 31)%Z.

Record wxPoint : Type := { pt_x : Z; pt_y : Z }.

(** A rectangle in native units: an origin and a size; nothing keeps the
    size from being negative. *)
Record EDA_RECT : Type :=
  { GetX : Z; GetY : Z; GetWidth : Z; GetHeight : Z }.

Inductive layer : Type := F_Cu | B_Cu | In_Cu (n : nat).

Definition layer_eqb (a b : layer) : bool :=
  match a, b with
  | F_Cu, F_Cu | B_Cu, B_Cu => true
  | In_Cu n, In_Cu m => Nat.eqb n m
  | _, _ => false
  end.

(** A pad: what the accessors used by the generator return.
    [ClearanceOutline c] is the first contour of the polygon that
    [TransformShapeWithClearanceToPolygon] builds for the clearance [c]. *)
Record pad : Type :=
  { GetName : string;
    GetPosition : wxPoint;
    GetBoundingBox : EDA_RECT;
    CuStack : list layer;
    ClearanceOutline : num -> list wxPoint }.

Record footprint : Type := { Pads : list pad }.

Record board : Type :=
  { GetFileName : string;
    FindModule : string -> option footprint }.

(* ===================================================================== *)
(** ** Geometry extraction *)
(* ===================================================================== *)

Definition point : Type := (B64.t * B64.t)%type.

Record BoundingBox : Type := { tl : point; br : point }.

(** [ki2mm] on an [int] that [float] can hold, as the C [int]s and their
    sums are: the conversion raises nothing ([ki2mm_int_ok]). *)
Definition ki2mm_int (n : Z) : B64.t :=
  B64.div (B64.of_Z n) (B64.of_Z 1000000).

(** Given a pad return list of points forming a polygon for the pad
    shape. *)
Definition padOutline (p : pad) (offsetBy : num) : list point :=
  map (fun pt => (ki2mm_int (c_int (pt_x pt)), ki2mm_int (c_int (pt_y pt))))
      (ClearanceOutline p offsetBy).

Definition serializeEdaRect (rect : EDA_RECT) : BoundingBox :=
  {| tl := (ki2mm_int (c_int (GetX rect)), ki2mm_int (c_int (GetY rect)));
     br := (ki2mm_int (c_int (GetX rect) + c_int (GetWidth rect))%Z,
            ki2mm_int (c_int (GetY rect) + c_int (GetHeight rect))%Z) |}.

(* ===================================================================== *)
(** ** Component and pin assembly *)
(* ===================================================================== *)

Record Pin : Type :=
  { pin_shape : list point;
    pin_bbox : BoundingBox;
    pin_pos : point;
    pin_front : bool;
    pin_back : bool;
    pin_name : value;
    pin_description : value;
    pin_alias : value;
    pin_groups : value }.

Record Component : Type :=
  { comp_ref : value;
    comp_description : value;
    comp_highlight : value;
    comp_groups : value;
    comp_pins : list Pin }.

(** The arithmetic of [mm2ki] on an untyped operand, handed to the board
    model as a length: anything but a number is a [TypeError]. *)
Definition as_length (v : value) : result num :=
  match number v with
  | Some q => Ok q
  | None => Raise (TypeError (type_name v ++ " is not a length"))
  end.

(** Given a pin specification and pad, construct description. *)
Definition pinDefinition (spec : value) (p : pad) (fp : footprint)
  : result Pin :=
  let layers := CuStack p in
  let pos := GetPosition p in
  offset <- Py.get spec (VStr "offset") (VInt 0) ;;
  offset <- as_length offset ;;
  name <- getitem spec (VStr "name") ;;
  description <- Py.get spec (VStr "description") (VStr "") ;;
  alias <- Py.get spec (VStr "alias") (VBool false) ;;
  groups <- Py.get spec (VStr "groups") (VList []) ;;
  Ok {| pin_shape := padOutline p (mm2ki offset);
        pin_bbox := serializeEdaRect (GetBoundingBox p);
        pin_pos := (ki2mm_int (c_int (pt_x pos)), ki2mm_int (c_int (pt_y pos)));
        pin_front := existsb (layer_eqb F_Cu) layers;
        pin_back := existsb (layer_eqb B_Cu) layers;
        pin_name := name;
        pin_description := description;
        pin_alias := alias;
        pin_groups := groups |}.

(** The comprehension of [pinsDefinition]: for each pad in turn, the
    condition, then the element. *)
Fixpoint pinsOfPads (spec : value) (fp : footprint) (pads : list pad)
  : result (list Pin) :=
  match pads with
  | [] => Ok []
  | p :: rest =>
      ks <- keys_of spec ;;
      if member (VStr (GetName p)) ks then
        s <- getitem spec (VStr (GetName p)) ;;
        pin <- pinDefinition s p fp ;;
        pins <- pinsOfPads spec fp rest ;;
        Ok (pin :: pins)
      else pinsOfPads spec fp rest
  end.

(** Given a pins definition and a footprint, construct description.  The
    footprint is what [FindModule] returned: [None] has no [Pads]. *)
Definition pinsDefinition (spec : value) (fp : option footprint)
  : result (list Pin) :=
  match fp with
  | None => Raise (AttributeError "NoneType has no attribute Pads")
  | Some f => pinsOfPads spec f (Pads f)
  end.

(** The board lookup takes a reference designator, a string. *)
Definition findModule (b : board) (ref : value) : result (option footprint) :=
  match ref with
  | VStr r => Ok (FindModule b r)
  | _ => Raise (TypeError (type_name ref ++ " is not a reference"))
  end.

(** Given a specification, construct component description. *)
Definition componentsDefinition (spec : value) (b : board)
  : result (list Component) :=
  entries <- items_of spec ;;
  foldM (fun defs entry =>
           let '(ref, s) := entry in
           fp <- findModule b ref ;;
           description <- getitem s (VStr "description") ;;
           highlight <- Py.get s (VStr "highlight") (VBool false) ;;
           groups <- Py.get s (VStr "groups") (VList []) ;;
           pinspec <- getitem s (VStr "pins") ;;
           pins <- pinsDefinition pinspec fp ;;
           Ok (defs ++ [ {| comp_ref := ref;
                            comp_description := description;
                            comp_highlight := highlight;
                            comp_groups := groups;
                            comp_pins := pins |} ])%list)
        entries [].

(* ===================================================================== *)
(** ** Group taxonomy *)
(* ===================================================================== *)

(** [{ k: leaf for k in ks }]; an unhashable key is a [TypeError]. *)
Definition dict_of_keys (leaf : value) (ks : list value) : result dict :=
  foldM (fun d k =>
           if hashable k then Ok (store k leaf d)
           else Raise (TypeError "unhashable type"))
        ks [].

Definition collectGroups (components : value) : result value :=
  cs <- values_of components ;;
  groups <-
    foldM (fun groups c =>
             g <- Py.get c (VStr "groups") (VList []) ;;
             unpacked <- iter g ;;
             groups <- update groups unpacked ;;
             pins <- getitem c (VStr "pins") ;;
             ps <- values_of pins ;;
             foldM (fun groups p =>
                      g <- Py.get p (VStr "groups") (VList []) ;;
                      update groups [g])
                   ps groups)
          cs [] ;;
  groups <- sort groups ;;
  d <- dict_of_keys (VList []) groups ;;
  Ok (VDict d).

(** The loop of [validateGroupStructure] over the entries of a dictionary,
    [validate] being the function itself on the nested dictionaries. *)
Definition validateEntries (validate : value -> result value)
  : dict -> dict -> result value :=
  fix loop (entries newStruct : dict) : result value :=
    match entries with
    | [] => Ok (VDict newStruct)
    | (key, val) :: rest =>
        match key with
        | VStr _ =>
            match val with
            | VNone => loop rest (store key (VDict []) newStruct)
            | VDict _ =>
                sub <- validate val ;;
                loop rest (store key sub newStruct)
            | VList vs =>
                sub <- dict_of_keys (VDict []) vs ;;
                loop rest (store key (VDict sub) newStruct)
            | _ => loop rest newStruct
            end
        | _ => Raise (RuntimeError [Interp key; Lit " is not a string"])
        end
    end.

(** Validate structure and transform it into a canonical form. *)
Fixpoint validateGroupStructure (struct : value) : result value :=
  match struct with
  | VDict entries => validateEntries validateGroupStructure entries []
  | _ => Raise (RuntimeError [Interp struct; Lit " is not a dictionary"])
  end.

(** If a group structure is provided, validate it and return it. If not,
    build a flat structure from components. *)
Definition groupStructure (structure components : value) : result value :=
  match structure with
  | VNone => collectGroups components
  | _ => validateGroupStructure structure
  end.

(* ===================================================================== *)
(** ** Strings and paths ([str], [pathlib], [os.path]) *)
(* ===================================================================== *)

Module Path.

Local Open Scope Z_scope.

Definition slash : ascii := "/"%char.
Definition dot : ascii := "."%char.

(** [s.split(sep)] *)
Fixpoint split (sep : ascii) (s : string) (cur : string) : list string :=
  match s with
  | EmptyString => [cur]
  | String c rest =>
      if Ascii.eqb c sep then cur :: split sep rest ""
      else split sep rest (cur ++ String c "")
  end.

(** [sep.join(parts)] *)
Fixpoint join (sep : string) (parts : list string) : string :=
  match parts with
  | [] => ""
  | [p] => p
  | p :: rest => p ++ sep ++ join sep rest
  end.

(** A pure POSIX path: a root and the list of its components. *)
Record t : Type := { root : string; parts : list string }.

Definition component (c : string) : bool :=
  negb (String.eqb c "") && negb (String.eqb c ".").

(** The root is [/], or [//] for exactly two leading slashes. *)
Definition leading_slashes (s : string) : nat :=
  (fix count (s : string) : nat :=
     match s with
     | String c rest => if Ascii.eqb c slash then S (count rest) else O
     | EmptyString => O
     end) s.

Definition root_of (s : string) : string :=
  match leading_slashes s with
  | 0%nat => ""
  | 2%nat => "//"
  | _ => "/"
  end.

(** [Path(s)] *)
Definition of_string (s : string) : t :=
  {| root := root_of s; parts := filter component (split slash s "") |}.

(** [p / s]: an absolute right operand replaces the left one. *)
Definition truediv (p : t) (s : string) : t :=
  let q := of_string s in
  if String.eqb (root q) "" then
    {| root := root p; parts := (parts p ++ parts q)%list |}
  else q.

(** [str(p)], which is also [os.fspath(p)] *)
Definition fspath (p : t) : string :=
  let s := root p ++ join "/" (parts p) in
  if String.eqb s "" then "." else s.

(** [s.rfind(c)]: the last index of [c], or -1. *)
Fixpoint rfind (c : ascii) (s : string) : Z :=
  match s with
  | EmptyString => -1
  | String a rest =>
      let r := rfind c rest in
      if 0 <=? r then r + 1
      else if Ascii.eqb a c then 0 else -1
  end.

(** The loop of [os.path.splitext] that skips the leading dots of the
    last component: is there a character other than a dot among the [n]
    characters from [filenameIndex] on? *)
Fixpoint past_leading_dots (p : string) (filenameIndex : nat) (n : nat)
  : bool :=
  match n with
  | O => false
  | S n' =>
      match String.get filenameIndex p with
      | Some c =>
          if Ascii.eqb c dot then past_leading_dots p (S filenameIndex) n'
          else true
      | None => true
      end
  end.

(** [os.path.splitext(p)] *)
Definition splitext (p : string) : string * string :=
  let sepIndex := rfind slash p in
  let dotIndex := rfind dot p in
  if sepIndex <? dotIndex then
    if past_leading_dots p (Z.to_nat (sepIndex + 1))
                         (Z.to_nat (dotIndex - (sepIndex + 1)))
    then (substring 0 (Z.to_nat dotIndex) p,
          substring (Z.to_nat dotIndex)
                    (String.length p - Z.to_nat dotIndex) p)
    else (p, "")
  else (p, "").

(** [s.lower()], on the ASCII letters. *)
Definition lower_char (c : ascii) : ascii :=
  let n := nat_of_ascii c in
  if (65 <=? n)%nat && (n <=? 90)%nat then ascii_of_nat (n + 32) else c.

Fixpoint lower (s : string) : string :=
  match s with
  | EmptyString => EmptyString
  | String c rest => String (lower_char c) (lower rest)
  end.

End Path.

(* ===================================================================== *)
(** ** Unicode text *)
(* ===================================================================== *)

(** The text of an XML attribute is a Python [str] of any characters: a
    list of code points. *)
Module Text.

Definition t : Type := list N.

(** The white space of [str.split] and [str.isspace]. *)
Definition is_space (c : N) : bool :=
  (((9 <=? c) && (c <=? 13)) || ((28 <=? c) && (c <=? 32))
   || (c =? 133) || (c =? 160) || (c =? 5760)
   || ((8192 <=? c) && (c <=? 8202))
   || (c =? 8232) || (c =? 8233) || (c =? 8239) || (c =? 8287)
   || (c =? 12288))%N.

(** [s.split()]: the maximal runs of characters that are not white
    space. *)
Fixpoint words (s : t) (cur : option t) : list t :=
  match s with
  | [] => match cur with Some w => [w] | None => [] end
  | c :: rest =>
      if is_space c then
        match cur with
        | Some w => w :: words rest None
        | None => words rest None
        end
      else
        words rest (Some (match cur with
                          | Some w => (w ++ [c])%list
                          | None => [c]
                          end))
  end.

Definition split (s : t) : list t := words s None.

(** The text of a string of characters below 256. *)
Definition of_string (s : string) : t :=
  map N_of_ascii (list_ascii_of_string s).

End Text.

(* ===================================================================== *)
(** ** Effects: the file system, the renderer, the rasteriser *)
(* ===================================================================== *)

(** What the renderer left at its output path, as far as its two readers
    can tell: whether the rasteriser can read it, and, when it is
    well-formed XML, the [viewBox] attribute of its root, if any. *)
Record vector_file : Type :=
  { rasterisable : bool;
    root_viewBox : option (option Text.t) }.

Record RenderedSide : Type := { file : string; area : BoundingBox }.

Record OutputDocument : Type :=
  { doc_name : value;
    doc_description : value;
    doc_front : RenderedSide;
    doc_back : RenderedSide;
    doc_components : list Component;
    doc_groups : value }.

(** What is written to a file: the blob [image.make_blob(type)] of a
    vector file read at a resolution, or the JSON text of a document. *)
Inductive content : Type :=
| Blob (type : string) (source : vector_file) (resolution : Q)
| Json (doc : OutputDocument).

Inductive effect : Type :=
| Mkdir (path : string)
| MkTemp (path : string)
| RmTemp (path : string)
| Run (command : list string)
| OpenFile (path : string)
| WriteFile (path : string) (c : content).

(** The state of a run: the effects so far, oldest first, and the number
    of temporary directories made. *)
Record state : Type := { log : list effect; temps : nat }.

Definition IO (A : Type) : Type := state -> result A * state.

Definition ret {A} (a : A) : IO A := fun st => (Ok a, st).

Definition throw {A} (e : exn) : IO A := fun st => (Raise e, st).

Definition bindIO {A B} (m : IO A) (k : A -> IO B) : IO B :=
  fun st =>
    match m st with
    | (Ok a, st') => k a st'
    | (Raise e, st') => (Raise e, st')
    end.

Definition lift {A} (r : result A) : IO A := fun st => (r, st).

Definition perform (e : effect) : IO unit :=
  fun st => (Ok tt, {| log := (log st ++ [e])%list; temps := temps st |}).

Notation "x <<- m ;; k" := (bindIO m (fun x => k))
  (at level 61, m at next level, right associativity).
Notation "m ;;; k" := (bindIO m (fun _ => k))
  (at level 61, right associativity).

Record pcbdrawArgs : Type :=
  { arg_style : option string;
    arg_libs : option string;
    arg_remap : option string;
    arg_filter : option string }.

Section Generator.

(** The collaborators of a run. *)

(** [tempfile]: the name of the n-th temporary directory. *)
Variable mkdtemp : nat -> string.

(** [pcbdraw]: the exit status of a command and the file it leaves at its
    output path, if it leaves one. *)
Variable pcbdraw : list string -> Z * option vector_file.

(** [float(s)]; [None] is a [ValueError]. *)
Variable float : Text.t -> option B64.t.

(** [with tempfile.TemporaryDirectory() as d: body]: the directory is
    removed however the body ends. *)
Definition TemporaryDirectory {A} (body : string -> IO A) : IO A :=
  fun st =>
    let d := mkdtemp (temps st) in
    let '(r, st') :=
      body d {| log := (log st ++ [MkTemp d])%list; temps := S (temps st) |} in
    (r, {| log := (log st' ++ [RmTemp d])%list; temps := temps st' |}).

(** [subprocess.run(command, check=True)] on the renderer. *)
Definition run (command : list string) : IO (option vector_file) :=
  perform (Run command) ;;;
  let '(returncode, out) := pcbdraw command in
  if returncode =? 0 then ret out
  else throw (CalledProcessError returncode).

(** [image.read(filename=...)] and [etree.parse(...)] see the file the
    renderer left in the fresh temporary directory. *)
Definition image_read (path : string) (f : option vector_file)
  : result vector_file :=
  match f with
  | Some v => if rasterisable v then Ok v else Raise (ReadError path)
  | None => Raise (ReadError path)
  end.

Definition root_attrib_viewBox (path : string) (f : option vector_file)
  : result Text.t :=
  match f with
  | Some v =>
      match root_viewBox v with
      | Some (Some s) => Ok s
      | Some None => Raise (KeyError (VStr "viewBox"))
      | None => Raise (ReadError path)
      end
  | None => Raise (ReadError path)
  end.

Definition svgToBitmap (infilename : string) (infile : option vector_file)
    (outfilename : Path.t) (dpi : Q) : IO unit :=
  image <<- lift (image_read infilename infile) ;;
  let ext := snd (Path.splitext (Path.fspath outfilename)) in
  type <<-
    (if String.eqb (Path.lower ext) ".png" then ret "png32"
     else if String.eqb (Path.lower ext) ".jpg"
             || String.eqb (Path.lower ext) ".jpeg" then ret "jpeg"
     else throw (RuntimeError
                   [Lit "Unsupported output image type "; Interp (VStr ext)])) ;;
  let binaryBlob := Blob type image dpi in
  perform (OpenFile (Path.fspath outfilename)) ;;;
  perform (WriteFile (Path.fspath outfilename) binaryBlob).

(** [tlx, tly, w, h = map(float, tokens)]: the tokens are converted one
    by one as the unpacking asks for them, one more than [n] if there is
    one. *)
Definition to_float (s : Text.t) : result B64.t :=
  match float s with
  | Some x => Ok x
  | None => Raise (ValueError "could not convert string to float")
  end.

Fixpoint unpack_floats (n : nat) (tokens : list Text.t)
  : result (list B64.t) :=
  match n, tokens with
  | O, [] => Ok []
  | O, t :: _ =>
      _ <- to_float t ;; Raise (ValueError "too many values to unpack")
  | S _, [] => Raise (ValueError "not enough values to unpack")
  | S n', t :: rest =>
      v <- to_float t ;; vs <- unpack_floats n' rest ;; Ok (v :: vs)
  end.

Definition option_args (flag : string) (o : option string) : list string :=
  match o with
  | Some v => [flag; v]
  | None => []
  end.

(** The command line [generateImage] builds for the renderer. *)
Definition command (boardfilename : string) (svgfilename : Path.t)
    (args : pcbdrawArgs) (back : bool) : list string :=
  (["pcbdraw"; "--shrink"; "0"]
     ++ (if back then ["--back"] else [])
     ++ option_args "--style" (arg_style args)
     ++ option_args "--libs" (arg_libs args)
     ++ option_args "--remap" (arg_remap args)
     ++ option_args "--filter" (arg_filter args)
     ++ [boardfilename]
     ++ [Path.fspath svgfilename])%list.

(** Generate board image for the diagram. Returns bounding box (top left,
    bottom right) active areas of the images. *)
Definition generateImage (boardfilename : string) (outputfilename : Path.t)
    (dpi : Q) (args : pcbdrawArgs) (back : bool) : IO BoundingBox :=
  TemporaryDirectory (fun d =>
    let tmpdir := Path.of_string d in
    let svgfilename := Path.truediv tmpdir "img.svg" in
    svgfile <<- run (command boardfilename svgfilename args back) ;;
    svgToBitmap (Path.fspath svgfilename) svgfile outputfilename dpi ;;;
    viewBox <<- lift (root_attrib_viewBox (Path.fspath svgfilename) svgfile) ;;
    numbers <<- lift (unpack_floats 4 (Text.split viewBox)) ;;
    match numbers with
    | [tlx; tly; w; h] =>
        tl_x <<- lift (ki2mm (dmil2ki (PFloat tlx))) ;;
        tl_y <<- lift (ki2mm (dmil2ki (PFloat tly))) ;;
        br_x <<- lift (ki2mm (dmil2ki (PFloat (B64.add tlx w)))) ;;
        br_y <<- lift (ki2mm (dmil2ki (PFloat (B64.add tly h)))) ;;
        ret {| tl := (tl_x, tl_y); br := (br_x, br_y) |}
    | _ => throw (ValueError "not enough values to unpack")
    end).

(** The encoder [svgToBitmap] picks for a supported extension. *)
Definition encoder (ext : string) : string :=
  if String.eqb (Path.lower ext) ".png" then "png32" else "jpeg".

(** The last step of [generateImage] on its own: the viewBox of the
    vector file, parsed and converted to millimetres. *)
Definition activeArea (svgfilename : string) (svgfile : option vector_file)
  : result BoundingBox :=
  viewBox <- root_attrib_viewBox svgfilename svgfile ;;
  numbers <- unpack_floats 4 (Text.split viewBox) ;;
  match numbers with
  | [tlx; tly; w; h] =>
      tl_x <- ki2mm (dmil2ki (PFloat tlx)) ;;
      tl_y <- ki2mm (dmil2ki (PFloat tly)) ;;
      br_x <- ki2mm (dmil2ki (PFloat (B64.add tlx w))) ;;
      br_y <- ki2mm (dmil2ki (PFloat (B64.add tly h))) ;;
      Ok {| tl := (tl_x, tl_y); br := (br_x, br_y) |}
  | _ => Raise (ValueError "not enough values to unpack")
  end.

(** Generate board pinout diagram. *)
Definition generate (b : board) (specification : value) (outputdir : string)
    (dpi : Q) (args : pcbdrawArgs) : IO unit :=
  let outputdir := Path.of_string outputdir in
  perform (Mkdir (Path.fspath outputdir)) ;;;
  fSource <<- generateImage (GetFileName b) (Path.truediv outputdir "front.png")
                dpi args false ;;
  bSource <<- generateImage (GetFileName b) (Path.truediv outputdir "back.png")
                dpi args true ;;
  name <<- lift (getitem specification (VStr "name")) ;;
  description <<- lift (getitem specification (VStr "description")) ;;
  components <<- lift (c <- getitem specification (VStr "components") ;;
                       componentsDefinition c b) ;;
  groups <<- lift (g <- Py.get specification (VStr "groups") VNone ;;
                   c <- getitem specification (VStr "components") ;;
                   groupStructure g c) ;;
  let specification :=
    {| doc_name := name;
       doc_description := description;
       doc_front := {| file := "front.png"; area := fSource |};
       doc_back := {| file := "back.png"; area := bSource |};
       doc_components := components;
       doc_groups := groups |} in
  perform (OpenFile (Path.fspath (Path.truediv outputdir "spec.json"))) ;;;
  perform (WriteFile (Path.fspath (Path.truediv outputdir "spec.json"))
                 (Json specification)).

End Generator.

(* ===================================================================== *)
(** ** Predicates on inputs and on logs *)
(* ===================================================================== *)

(** The exact value of a finite number. *)
Definition real (v : num) : Q :=
  match v with
  | PInt n => inject_Z n
  | PFloat x => B64.to_Q x
  end.

(** The numbers that two conversions in a row keep finite and in the
    normal range: the [int]s up to 2^1000 in magnitude, the zeros, and
    the floats between 2^-1000 and 2^1000 in magnitude. *)
Definition moderate (v : num) : bool :=
  match v with
  | PInt n => (Z.abs n <=? 2 ^ 1000)%Z
  | PFloat (S754_zero _) => true
  | PFloat (S754_finite s m e) =>
      Qle_bool (1 # 2 ^ 1000) (Qabs (B64.to_Q (S754_finite s m e)))
      && Qle_bool (Qabs (B64.to_Q (S754_finite s m e))) (inject_Z (2 ^ 1000))
  | PFloat _ => false
  end.

(** [x] is a finite float within [tolerance] of [q], relatively. *)
Definition within (tolerance : Q) (x : B64.t) (q : Q) : Prop :=
  B64.is_finite x = true /\
  Qabs (B64.to_Q x - q) <= tolerance * Qabs q.

(** [q] is zero, or between 2^-999 and 2^999 in magnitude. *)
Definition sizeable (q : Q) : Prop :=
  q == 0 \/ (1 # 2 ^ 999 <= Qabs q /\ Qabs q <= inject_Z (2 ^ 999)).

(** A PinSpec the assembler can use: a dictionary with a [name] whose
    [offset], if it has one, is a number. *)
Definition wf_PinSpec (s : value) : bool :=
  match s with
  | VDict d =>
      match lookup (VStr "name") d with Some _ => true | None => false end
      && match lookup (VStr "offset") d with
         | Some v => match number v with Some _ => true | None => false end
         | None => true
         end
  | _ => false
  end.

(** The pads a pins mapping names, in the order of the footprint. *)
Definition named_pads (d : dict) (pads : list pad) : list pad :=
  List.filter (fun p => member (VStr (GetName p)) (keys d)) pads.

(** The component [componentsDefinition] appends for one entry of the
    components mapping. *)
Definition componentOf (b : board) (entry : value * value) : result Component :=
  fp <- findModule b (fst entry) ;;
  description <- getitem (snd entry) (VStr "description") ;;
  highlight <- Py.get (snd entry) (VStr "highlight") (VBool false) ;;
  groups <- Py.get (snd entry) (VStr "groups") (VList []) ;;
  pinspec <- getitem (snd entry) (VStr "pins") ;;
  pins <- pinsDefinition pinspec fp ;;
  Ok {| comp_ref := fst entry;
        comp_description := description;
        comp_highlight := highlight;
        comp_groups := groups;
        comp_pins := pins |}.

(** A ComponentSpec the assembler can use on board [b]: its reference is
    a string that names a footprint; it is a dictionary with a
    [description] and a [pins] dictionary whose entries for the pads of
    the footprint are usable PinSpecs. *)
Definition wf_ComponentSpec (b : board) (entry : value * value) : bool :=
  match entry with
  | (VStr ref, VDict c) =>
      match FindModule b ref, lookup (VStr "description") c,
            lookup (VStr "pins") c with
      | Some fp, Some _, Some (VDict d) =>
          forallb (fun p => match lookup (VStr (GetName p)) d with
                            | Some s => wf_PinSpec s
                            | None => true
                            end)
                  (Pads fp)
      | _, _, _ => false
      end
  | _ => false
  end.

(** The pins of [comp] are, one for one and in order, the pads of [fp]
    that the pins mapping [d] names, each built from its PinSpec. *)
Definition pins_match (d : dict) (fp : footprint) (pins : list Pin) : Prop :=
  Forall2 (fun pin p =>
             exists s, lookup (VStr (GetName p)) d = Some s /\
                       pinDefinition s p fp = Ok pin)
          pins (named_pads d (Pads fp)).

(** The strings among a list of values. *)
Fixpoint strings (l : list value) : list string :=
  match l with
  | [] => []
  | VStr s :: rest => s :: strings rest
  | _ :: rest => strings rest
  end.

(** The characters of a string, as strings. *)
Fixpoint characters (s : string) : list string :=
  match s with
  | EmptyString => []
  | String c rest => String c EmptyString :: characters rest
  end.

(** The [groups] of a component or of a pin of the annotation document,
    and the pins of a component. *)
Definition groups_of (obj : value) : list value :=
  match obj with
  | VDict d =>
      match lookup (VStr "groups") d with
      | Some (VList gs) => gs
      | _ => []
      end
  | _ => []
  end.

Definition pins_of (c : value) : list value :=
  match c with
  | VDict d =>
      match lookup (VStr "pins") d with
      | Some (VDict pd) => values pd
      | _ => []
      end
  | _ => []
  end.

(** A dictionary whose [groups], if it has any, is a list of strings. *)
Definition wf_groups (obj : value) : bool :=
  match obj with
  | VDict d =>
      match lookup (VStr "groups") d with
      | None => true
      | Some (VList gs) => all_str gs
      | Some _ => false
      end
  | _ => false
  end.

(** A component as [collectGroups] expects it: such a dictionary, with a
    [pins] dictionary of such dictionaries. *)
Definition wf_grouped (c : value) : bool :=
  wf_groups c
  && match c with
     | VDict d =>
         match lookup (VStr "pins") d with
         | Some (VDict pd) => forallb wf_groups (values pd)
         | _ => false
         end
     | _ => false
     end.

(** What [collectGroups] adds to its set for one component: the
    characters of the component's own groups, then the groups of its
    pins. *)
Definition gathered (c : value) : list string :=
  (flat_map characters (strings (groups_of c))
   ++ flat_map (fun p => strings (groups_of p)) (pins_of c))%list.

(** A set of strings as [collectGroups] builds it, and its sort. *)
Definition ins (l : list string) (x : string) : list string :=
  if existsb (fun y => String.eqb y x) l then l else (l ++ [x])%list.

Fixpoint insert_str (x : string) (l : list string) : list string :=
  match l with
  | [] => [x]
  | y :: rest => if String.leb x y then x :: l else y :: insert_str x rest
  end.

Fixpoint sort_str (l : list string) : list string :=
  match l with
  | [] => []
  | x :: rest => insert_str x (sort_str rest)
  end.

(** Lexicographic order on names. *)
Definition ascending (a b : string) : Prop := String.leb a b = true.

(** The single-level taxonomy over the names [ks]. *)
Definition flat_taxonomy (ks : list string) : value :=
  VDict (map (fun k => (VStr k, VList [])) ks).

Definition is_str (v : value) : bool :=
  match v with VStr _ => true | _ => false end.

(** The canonical form of a group structure: a dictionary from strings to
    canonical structures.  The keys of a Python dictionary are pairwise
    distinct; an association list has to say so. *)
Definition canonicalEntries (canon : value -> bool) : dict -> bool :=
  fix all (d : dict) : bool :=
    match d with
    | [] => true
    | (k, w) :: rest =>
        is_str k && negb (member k (keys rest)) && canon w && all rest
    end.

Fixpoint canonical (v : value) : bool :=
  match v with
  | VDict d => canonicalEntries canonical d
  | _ => false
  end.

(** The effect opens or writes the file at [path]. *)
Definition touches (path : string) (e : effect) : bool :=
  match e with
  | OpenFile p | WriteFile p _ => String.eqb p path
  | _ => false
  end.

(** The effect starts the renderer. *)
Definition is_Run (e : effect) : bool :=
  match e with Run _ => true | _ => false end.

(** The effect opens or writes some file. *)
Definition is_output (e : effect) : bool :=
  match e with OpenFile _ | WriteFile _ _ => true | _ => false end.

(** The effect writes no bitmap other than a 32-bit PNG. *)
Definition png_only (e : effect) : bool :=
  match e with
  | WriteFile _ (Blob type _ _) => String.eqb type "png32"
  | _ => true
  end.

(** The fault [svgToBitmap] raises on an extension it does not know. *)
Definition unsupported (ext : string) : exn :=
  RuntimeError [Lit "Unsupported output image type "; Interp (VStr ext)].

Definition is_unsupported {A} (r : result A) : bool :=
  match r with
  | Raise (RuntimeError (Lit "Unsupported output image type " :: _)) => true
  | _ => false
  end.

(** A computation that does not end in the unsupported-type fault. *)
Definition quiet {A} (r : result A) : Prop := is_unsupported r = false.

(** The extensions [svgToBitmap] knows. *)
Definition supported (ext : string) : bool :=
  String.eqb (Path.lower ext) ".png"
  || String.eqb (Path.lower ext) ".jpg"
  || String.eqb (Path.lower ext) ".jpeg".

(** The state after one temporary directory was made and the effects
    [new] performed. *)
Definition after (st : state) (new : list effect) : state :=
  {| log := (log st ++ new)%list; temps := S (temps st) |}.

(** What [generateImage] may do for the output file [path] of extension
    [ext]: make and remove its temporary directory, start the renderer,
    open [path], and write to it a blob of the encoder of [ext]. *)
Definition side_effect (path ext : string) (e : effect) : bool :=
  match e with
  | MkTemp _ | RmTemp _ | Run _ => true
  | OpenFile p => String.eqb p path
  | WriteFile p (Blob type _ _) =>
      String.eqb p path && String.eqb type (encoder ext)
  | _ => false
  end.

(** The document [generate] builds once both images are there: the
    evaluation of its dictionary display, entry by entry. *)
Definition assemble (b : board) (specification : value)
    (fSource bSource : BoundingBox) : result OutputDocument :=
  name <- getitem specification (VStr "name") ;;
  description <- getitem specification (VStr "description") ;;
  components <- (c <- getitem specification (VStr "components") ;;
                 componentsDefinition c b) ;;
  groups <- (g <- Py.get specification (VStr "groups") VNone ;;
             c <- getitem specification (VStr "components") ;;
             groupStructure g c) ;;
  Ok {| doc_name := name;
        doc_description := description;
        doc_front := {| file := "front.png"; area := fSource |};
        doc_back := {| file := "back.png"; area := bSource |};
        doc_components := components;
        doc_groups := groups |}.

(** The document a run has written, if it wrote one. *)
Definition written_document (st : state) : option OutputDocument :=
  fold_left (fun acc e =>
               match e with
               | WriteFile _ (Json doc) => Some doc
               | _ => acc
               end)
            (log st) None.

(** The text that precedes the last component in [str(p / name)]. *)
Definition dir_prefix (p : Path.t) : string :=
  Path.root p ++ match Path.parts p with
                 | [] => ""
                 | _ => Path.join "/" (Path.parts p) ++ "/"
                 end.

(** A directory prefix is empty or ends with a slash. *)
Definition directory (pre : string) : Prop :=
  pre = "" \/ exists q, pre = q ++ "/".

(** [o] if there is one, [default] otherwise: what [dict.get] returns. *)
Definition or_default (o : option value) (default : value) : value :=
  match o with Some v => v | None => default end.

(** The structures validation lets through: dictionaries with string
    keys, whose dictionary values are of that kind and whose list values
    hold hashable members. *)
Definition acceptedEntries (acc : value -> bool) : dict -> bool :=
  fix all (d : dict) : bool :=
    match d with
    | [] => true
    | (k, w) :: rest =>
        is_str k
        && match w with
           | VDict _ => acc w
           | VList vs => forallb hashable vs
           | _ => true
           end
        && all rest
    end.

Fixpoint accepted (v : value) : bool :=
  match v with
  | VDict d => acceptedEntries accepted d
  | _ => false
  end.

(** The structures of the documentation: dictionaries from strings to
    [None], to lists of strings or to structures. *)
Definition documentedEntries (doc : value -> bool) : dict -> bool :=
  fix all (d : dict) : bool :=
    match d with
    | [] => true
    | (k, w) :: rest =>
        is_str k
        && match w with
           | VNone => true
           | VDict _ => doc w
           | VList vs => all_str vs
           | _ => false
           end
        && all rest
    end.

Fixpoint documented (v : value) : bool :=
  match v with
  | VDict d => documentedEntries documented d
  | _ => false
  end.

(** The faults of validating a dictionary. *)
Definition key_fault (e : exn) : Prop :=
  exists key, is_str key = false /\
              e = RuntimeError [Interp key; Lit " is not a string"].

(** The number of times the renderer was started. *)
Definition runs (l : list effect) : nat := List.length (List.filter is_Run l).

(** The effect makes or removes a temporary directory. *)
Definition is_temporary (e : effect) : bool :=
  match e with MkTemp _ | RmTemp _ => true | _ => false end.

(* ===================================================================== *)
(** ** Sample boards, documents and collaborators *)
(* ===================================================================== *)

Module Sample.

(** A square pad of side 1 mm on the front copper layer. *)
Definition square_pad (name : string) (cx cy : Z) : pad :=
  {| GetName := name;
     GetPosition := {| pt_x := cx; pt_y := cy |};
     GetBoundingBox := {| GetX := cx - 500000; GetY := cy - 500000;
                          GetWidth := 1000000; GetHeight := 1000000 |};
     CuStack := [F_Cu];
     ClearanceOutline := fun c =>
       let r := (500000 + match c with
                          | PInt n => n
                          | PFloat x => Qfloor (B64.to_Q x)
                          end)%Z in
       [ {| pt_x := cx - r; pt_y := cy - r |};
         {| pt_x := cx + r; pt_y := cy - r |};
         {| pt_x := cx + r; pt_y := cy + r |};
         {| pt_x := cx - r; pt_y := cy + r |} ] |}.

(** A header with pads 1, 2, 3, 4. *)
Definition header : footprint :=
  {| Pads := [ square_pad "1" 0 0; square_pad "2" 2540000 0;
               square_pad "3" 5080000 0; square_pad "4" 7620000 0 ] |}.

Definition a_board : board :=
  {| GetFileName := "board.kicad_pcb";
     FindModule := fun ref => if String.eqb ref "J1" then Some header else None |}.

(** The pins mapping that names pads 1 and 3. *)
Definition pins_1_3 : dict :=
  [ (VStr "1", VDict [(VStr "name", VStr "VCC"); (VStr "groups", VList [VStr "power"])]);
    (VStr "3", VDict [(VStr "name", VStr "GND")]) ].

(** The components mapping with the one component [J1], pins 1 and 3. *)
Definition components_J1 : dict :=
  [ (VStr "J1", VDict [ (VStr "description", VStr "header");
                        (VStr "pins", VDict pins_1_3) ]) ].

(** A component with no groups of its own and three grouped pins. *)
Definition pin_grouped : dict :=
  [ (VStr "U1",
     VDict [ (VStr "description", VStr "controller");
             (VStr "pins",
              VDict [ (VStr "1", VDict [(VStr "name", VStr "VCC");
                                        (VStr "groups", VList [VStr "power"])]);
                      (VStr "2", VDict [(VStr "name", VStr "PA0");
                                        (VStr "groups",
                                         VList [VStr "gpio"; VStr "adc"])]);
                      (VStr "3", VDict [(VStr "name", VStr "PA1");
                                        (VStr "groups", VList [VStr "gpio"])]) ]) ]) ].

(** A component whose own group is longer than one character. *)
Definition grouped_component : value :=
  VDict [ (VStr "U1", VDict [ (VStr "groups", VList [VStr "ab"]);
                              (VStr "pins", VDict []) ]) ].

(** A rectangle of negative width and height. *)
Definition flipped_rect : EDA_RECT :=
  {| GetX := 0; GetY := 0; GetWidth := -1; GetHeight := -1 |}.

(** A group structure in canonical form. *)
Definition canonical_groups : value :=
  VDict [ (VStr "a", VDict [(VStr "x", VDict []); (VStr "y", VDict [])]);
          (VStr "b", VDict []) ].

(** The plain decimal numerals of [float]: an optional sign, digits, and
    at most one point; the number is the binary64 nearest to the
    numeral. *)
Definition digit (c : N) : option Z :=
  if ((48 <=? c) && (c <=? 57))%N then Some (Z.of_N (c - 48)) else None.

Fixpoint decimal_from (s : Text.t) (num : Z) (den : positive)
    (fraction seen : bool) : option Q :=
  match s with
  | [] => if seen then Some (num # den) else None
  | c :: rest =>
      if (c =? 46)%N then
        if fraction then None else decimal_from rest num den true seen
      else
        match digit c with
        | Some d =>
            decimal_from rest (10 * num + d)
                         (if fraction then (10 * den)%positive else den)
                         fraction true
        | None => None
        end
  end.

Definition decimal (s : Text.t) : option B64.t :=
  match s with
  | 45%N :: rest =>
      option_map (fun q => B64.round (- q)) (decimal_from rest 0 1 false false)
  | 43%N :: rest => option_map B64.round (decimal_from rest 0 1 false false)
  | _ => option_map B64.round (decimal_from s 0 1 false false)
  end.

Definition mkdtemp (n : nat) : string := "/tmp/pinion".

(** A renderer that succeeds and declares the viewBox [0 0 10000 5000]. *)
Definition pcbdraw (command : list string) : Z * option vector_file :=
  (0%Z, Some {| rasterisable := true;
                root_viewBox := Some (Some (Text.of_string "0 0 10000 5000")) |}).

Definition no_args : pcbdrawArgs :=
  {| arg_style := None; arg_libs := None; arg_remap := None;
     arg_filter := None |}.

Definition start : state := {| log := []; temps := 0 |}.

(** The front side rendered to [out/front.bmp] and to [out/front.png]. *)
Definition bmp_run : result BoundingBox * state :=
  generateImage mkdtemp pcbdraw decimal "board.kicad_pcb"
    (Path.truediv (Path.of_string "out") "front.bmp") 300 no_args false start.

Definition png_run : result BoundingBox * state :=
  generateImage mkdtemp pcbdraw decimal "board.kicad_pcb"
    (Path.truediv (Path.of_string "out") "front.png") 300 no_args false start.

(** A renderer that exits with status 1 and leaves nothing. *)
Definition broken_pcbdraw (command : list string) : Z * option vector_file :=
  (1%Z, None).

Definition failed_run : result BoundingBox * state :=
  generateImage mkdtemp broken_pcbdraw decimal "board.kicad_pcb"
    (Path.truediv (Path.of_string "out") "front.png") 300 no_args false start.

(** The end-to-end example: a resistor [R1] with pads 1 and 2, named A
    and B by the annotation document. *)
Definition resistor_board : board :=
  {| GetFileName := "resistor.kicad_pcb";
     FindModule := fun ref =>
       if String.eqb ref "R1"
       then Some {| Pads := [square_pad "1" 0 0; square_pad "2" 2540000 0] |}
       else None |}.

Definition resistor_document : value :=
  VDict [ (VStr "name", VStr "demo");
          (VStr "description", VStr "a resistor");
          (VStr "components",
           VDict [ (VStr "R1",
                    VDict [ (VStr "description", VStr "resistor");
                            (VStr "pins",
                             VDict [ (VStr "1", VDict [(VStr "name", VStr "A")]);
                                     (VStr "2", VDict [(VStr "name", VStr "B")]) ]) ]) ]) ].

(** The same document with a groups structure that is no mapping. *)
Definition bad_groups_document : value :=
  VDict [ (VStr "name", VStr "demo");
          (VStr "description", VStr "a resistor");
          (VStr "components", VDict []);
          (VStr "groups", VInt 5) ].

Definition bad_groups_run : result unit * state :=
  generate mkdtemp pcbdraw decimal resistor_board bad_groups_document "out" 300
    no_args start.

Definition resistor_run : result unit * state :=
  generate mkdtemp pcbdraw decimal resistor_board resistor_document "out" 300
    no_args start.

(** The command of the front side for [board.kicad_pcb]. *)
Definition front_command : list string :=
  ["pcbdraw"; "--shrink"; "0"; "board.kicad_pcb"; "/tmp/pinion/img.svg"].

(** A PinSpec with every entry. *)
Definition full_pin : dict :=
  [ (VStr "name", VStr "PA0");
    (VStr "description", VStr "analog input");
    (VStr "offset", VInt 1);
    (VStr "alias", VBool true);
    (VStr "groups", VList [VStr "adc"]) ].

(** A PinSpec without a name. *)
Definition nameless_pin : dict := [ (VStr "description", VStr "unnamed") ].

(** The pins mapping [pins_1_3] with one more entry, which names no pad
    of the header and is no PinSpec. *)
Definition pins_1_3_9 : dict := (pins_1_3 ++ [ (VStr "9", VInt 0) ])%list.

(** A ComponentSpec for a reference the board does not have. *)
Definition absent_component : dict :=
  [ (VStr "description", VStr "absent"); (VStr "pins", VDict []) ].

(** A groups structure as the documentation describes them. *)
Definition documented_groups : value :=
  VDict [ (VStr "power", VNone);
          (VStr "io", VList [VStr "gpio"; VStr "adc"]);
          (VStr "bus", VDict [ (VStr "i2c", VNone); (VStr "spi", VList []) ]) ].

(** A groups structure with a number for a key. *)
Definition numbered_groups : dict := [ (VStr "power", VNone); (VInt 1, VNone) ].

(** The groups of [pin_grouped], on two components, in another order and
    with a repetition. *)
Definition regrouped : dict :=
  [ (VStr "U2",
     VDict [ (VStr "pins",
              VDict [ (VStr "7", VDict [(VStr "groups",
                                         VList [VStr "adc"; VStr "gpio"])]) ]) ]);
    (VStr "U1",
     VDict [ (VStr "groups", VList []);
             (VStr "pins",
              VDict [ (VStr "1", VDict [(VStr "groups",
                                         VList [VStr "power"; VStr "gpio"])]) ]) ]) ].

(** A component without pins. *)
Definition pinless : dict := [ (VStr "description", VStr "bare") ].

(** The vector file of [pcbdraw]. *)
Definition drawing : vector_file :=
  {| rasterisable := true;
     root_viewBox := Some (Some (Text.of_string "0 0 10000 5000")) |}.

(** A renderer whose vector file has no viewBox. *)
Definition boxless : vector_file :=
  {| rasterisable := true; root_viewBox := Some None |}.

Definition boxless_pcbdraw (command : list string) : Z * option vector_file :=
  (0%Z, Some boxless).

(** A renderer whose viewBox holds three numbers. *)
Definition short_box : vector_file :=
  {| rasterisable := true;
     root_viewBox := Some (Some (Text.of_string "0 0 10000")) |}.

Definition short_box_pcbdraw (command : list string) : Z * option vector_file :=
  (0%Z, Some short_box).

(** The resistor document without its name. *)
Definition nameless_document : value :=
  VDict [ (VStr "description", VStr "a resistor");
          (VStr "components", VDict []) ].

(** A renderer whose viewBox is [0.1 0.7 0.2 0.1]. *)
Definition inexact_drawing : vector_file :=
  {| rasterisable := true;
     root_viewBox := Some (Some (Text.of_string "0.1 0.7 0.2 0.1")) |}.

Definition inexact_pcbdraw (command : list string) : Z * option vector_file :=
  (0%Z, Some inexact_drawing).

Definition inexact_run : result BoundingBox * state :=
  generateImage mkdtemp inexact_pcbdraw decimal "board.kicad_pcb"
    (Path.truediv (Path.of_string "out") "front.png") 300 no_args false start.

Definition inexact_box : BoundingBox :=
  {| tl := (S754_finite false 4685472994722226 (-64),
            S754_finite false 8199577740763896 (-62));
     br := (S754_finite false 7028209492083340 (-63),
            S754_finite false 4685472994722226 (-61)) |}.

(** The active area of [drawing]. *)
Definition png_box : BoundingBox :=
  {| tl := (S754_zero false, S754_zero false);
     br := (B64.round 25.4, B64.round 12.7) |}.

End Sample.

(* ===================================================================== *)
(** * Properties *)
(* ===================================================================== *)

(** ** Binary64 rounding *)

Lemma nearest_even_spec (N D : Z) :
  (0 < D -> 0 <= N ->
   2 * Z.abs (B64.nearest_even N D * D - N) <= D /\
   N / D <= B64.nearest_even N D <= N / D + 1)%Z.
Proof.
  intros HD HN. unfold B64.nearest_even.
  pose proof (Z.div_mod N D ltac:(lia)) as E.
  pose proof (Z.mod_pos_bound N D HD) as B.
  destruct (Z.compare_spec (2 * (N mod D)) D) as [C | C | C];
    [destruct (Z.even (N / D)) | |]; split; nia.
Qed.

Lemma exponent_nonneg (A d : Z) : (0 <= B64.exponent A d)%Z.
Proof.
  unfold B64.exponent.
  destruct (Z.leb_spec (Z.log2 A - Z.log2 d - 52) 0); [lia |].
  destruct (A <? _)%Z; lia.
Qed.

Lemma exponent_upper (A d : Z) :
  (0 < A -> 0 < d -> A < 2 ^ 53 * d * 2 ^ B64.exponent A d)%Z.
Proof.
  intros HA Hd. unfold B64.exponent.
  destruct (Z.log2_spec A HA) as [La Ua].
  destruct (Z.log2_spec d Hd) as [Ld Ud].
  pose proof (Z.log2_nonneg A) as Na. pose proof (Z.log2_nonneg d) as Nd.
  set (la := Z.log2 A) in *. set (ld := Z.log2 d) in *.
  destruct (Z.leb_spec (la - ld - 52) 0) as [C | C].
  - rewrite Z.pow_0_r, Z.mul_1_r.
    assert (H : (2 ^ Z.succ la <= 2 ^ (53 + ld))%Z)
      by (apply Z.pow_le_mono_r; lia).
    rewrite Z.pow_add_r in H by lia. nia.
  - destruct (Z.ltb_spec A (2 ^ 52 * d * 2 ^ (la - ld - 52))) as [T | T].
    + replace (2 ^ (la - ld - 52))%Z with (2 * 2 ^ (la - ld - 52 - 1))%Z in T.
      2:{ rewrite <- Z.pow_succ_r by lia. f_equal. lia. }
      change (2 ^ 53)%Z with (2 ^ 52 * 2)%Z. lia.
    + replace (Z.succ la) with (53 + ld + (la - ld - 52))%Z in Ua by lia.
      rewrite !Z.pow_add_r in Ua by lia.
      assert (0 < 2 ^ (la - ld - 52))%Z by (apply Z.pow_pos_nonneg; lia).
      nia.
Qed.

Lemma exponent_lower (A d : Z) :
  (0 < A -> 0 < d -> 2 ^ 52 * d <= A ->
   2 ^ 52 * d * 2 ^ B64.exponent A d <= A)%Z.
Proof.
  intros HA Hd Hn. unfold B64.exponent.
  destruct (Z.log2_spec A HA) as [La Ua].
  destruct (Z.log2_spec d Hd) as [Ld Ud].
  pose proof (Z.log2_nonneg A) as Na. pose proof (Z.log2_nonneg d) as Nd.
  set (la := Z.log2 A) in *. set (ld := Z.log2 d) in *.
  destruct (Z.leb_spec (la - ld - 52) 0) as [C | C].
  - rewrite Z.pow_0_r. lia.
  - destruct (Z.ltb_spec A (2 ^ 52 * d * 2 ^ (la - ld - 52))) as [T | T];
      [| exact T].
    replace la with (52 + Z.succ ld + (la - ld - 52 - 1))%Z in La by lia.
    rewrite !Z.pow_add_r in La by lia.
    assert (0 < 2 ^ (la - ld - 52 - 1))%Z by (apply Z.pow_pos_nonneg; lia).
    nia.
Qed.

(** The rounding of a positive rational in the normal range, on
    integers: the result is finite and within half a unit in the last of
    its 53 bits. *)
Lemma round_pos_spec (s : bool) (n d : positive) :
  (2 ^ 52 * Zpos d <= Zpos n * 2 ^ 1074)%Z ->
  (Zpos n < 2 ^ 1023 * Zpos d)%Z ->
  exists m E,
    B64.round_pos s n d = S754_finite s m (E - 1074) /\
    (0 <= E)%Z /\
    (2 ^ 53 * Z.abs (Zpos m * 2 ^ E * Zpos d - Zpos n * 2 ^ 1074)
     <= Zpos n * 2 ^ 1074)%Z.
Proof.
  intros Hlo Hhi. unfold B64.round_pos.
  set (A := (Zpos n * 2 ^ 1074)%Z) in *.
  assert (HA : (0 < A)%Z) by (unfold A; lia).
  pose proof (exponent_nonneg A (Zpos d)) as HE.
  pose proof (exponent_upper A (Zpos d) HA ltac:(lia)) as HU.
  pose proof (exponent_lower A (Zpos d) HA ltac:(lia) Hlo) as HL.
  set (E := B64.exponent A (Zpos d)) in *.
  assert (HP : (0 < 2 ^ E)%Z) by (apply Z.pow_pos_nonneg; lia).
  set (P := (2 ^ E)%Z) in *.
  assert (HD : (0 < Zpos d * P)%Z) by lia.
  destruct (nearest_even_spec A (Zpos d * P) HD ltac:(lia)) as [Hn Hf].
  set (m := B64.nearest_even A (Zpos d * P)) in *.
  assert (Hq : (2 ^ 52 <= A / (Zpos d * P) < 2 ^ 53)%Z).
  { split.
    - apply Z.div_le_lower_bound; lia.
    - apply Z.div_lt_upper_bound; lia. }
  assert (HE' : (E < 2045)%Z).
  { assert (H : (2 ^ E < 2 ^ 2045)%Z);
      [| apply Z.pow_lt_mono_r_iff with (a := 2%Z); lia].
    fold P. unfold A in HL.
    assert (H : (2 ^ 52 * Zpos d * P < 2 ^ 1023 * Zpos d * 2 ^ 1074)%Z) by nia.
    assert (H' : (2 ^ 1023 * 2 ^ 1074 = 2 ^ 52 * 2 ^ 2045)%Z) by reflexivity.
    nia. }
  destruct (Z.eqb_spec m (2 ^ 53)) as [C | C].
  - change (2 ^ 52)%Z with (Zpos (2 ^ 52)).
    destruct (Z.leb_spec (E + 1) 2045); [| lia].
    exists (2 ^ 52)%positive, (E + 1)%Z. split; [reflexivity |].
    split; [lia |].
    rewrite Z.pow_add_r by lia. fold P.
    replace (Zpos (2 ^ 52) * (P * 2 ^ 1))%Z with (m * P)%Z.
    2:{ rewrite C. change (Zpos (2 ^ 52)) with (2 ^ 52)%Z.
        change (2 ^ 53)%Z with (2 ^ 52 * 2)%Z. change (2 ^ 1)%Z with 2%Z.
        ring. }
    nia.
  - destruct m as [| p | p]; try lia.
    destruct (Z.leb_spec E 2045); [| lia].
    exists p, E. split; [reflexivity |]. split; [lia |]. fold P. nia.
Qed.

Lemma pow2_shift (E : Z) :
  (0 <= E)%Z -> 2 ^ (E - 1074) == inject_Z (2 ^ E) / inject_Z (2 ^ 1074).
Proof.
  intros HE. rewrite Qpower_minus by discriminate.
  rewrite !Zpower_Qpower by lia. reflexivity.
Qed.

Lemma to_Q_scaled (s : bool) (m : positive) (E : Z) :
  (0 <= E)%Z ->
  B64.to_Q (S754_finite s m (E - 1074))
  == ((if s then -1 else 1) * (Zpos m * 2 ^ E))%Z # (2 ^ 1074).
Proof.
  intros HE. unfold B64.to_Q. rewrite pow2_shift by exact HE.
  assert (HP : (0 < 2 ^ E)%Z) by (apply Z.pow_pos_nonneg; lia).
  destruct (2 ^ E)%Z as [| P |] eqn:EP; try lia.
  change (inject_Z (2 ^ 1074)) with (inject_Z (Zpos (2 ^ 1074))).
  generalize (2 ^ 1074)%positive as K. intros K.
  unfold Qeq, Qdiv, Qmult, Qinv, inject_Z. cbn [Qnum Qden].
  destruct s; cbn [Qnum Qden]; rewrite ?Pos2Z.inj_mul; lia.
Qed.

Lemma round_pos_error (s : bool) (n d : positive) :
  1 # 2 ^ 1022 <= Zpos n # d -> Zpos n # d < inject_Z (2 ^ 1023) ->
  exists m e,
    B64.round_pos s n d = S754_finite s m e /\
    Qabs (B64.to_Q (S754_finite s m e) - ((if s then Zneg n else Zpos n) # d))
    <= (1 # 2 ^ 53) * (Zpos n # d).
Proof.
  intros Hlo Hhi.
  unfold Qle in Hlo. unfold Qlt in Hhi. cbn [Qnum Qden inject_Z] in Hlo, Hhi.
  destruct (round_pos_spec s n d) as (m & E & -> & HE & Hb).
  { change (2 ^ 1074)%Z with (2 ^ 52 * Zpos (2 ^ 1022))%Z. lia. }
  { lia. }
  exists m, (E - 1074)%Z. split; [reflexivity |].
  rewrite (to_Q_scaled s m E HE).
  assert (HP : (0 < 2 ^ E)%Z) by (apply Z.pow_pos_nonneg; lia).
  set (X := (Zpos m * 2 ^ E)%Z) in *.
  set (K := (2 ^ 1074)%positive).
  change (2 ^ 1074)%Z with (Zpos K) in Hb.
  assert (Ediff : (((if s then -1 else 1) * X)%Z # K)
                   - ((if s then Zneg n else Zpos n) # d)
                   == ((if s then -1 else 1) * (X * Zpos d - Zpos n * Zpos K))%Z
                        # (K * d)).
  { unfold Qeq, Qminus, Qplus, Qopp. cbn [Qnum Qden].
    destruct s; rewrite !Pos2Z.inj_mul; try change (Zneg n) with (- Zpos n)%Z;
      ring. }
  rewrite Ediff.
  unfold Qabs, Qle, Qmult. cbn [Qnum Qden].
  rewrite !Pos2Z.inj_mul.
  replace (Z.abs ((if s then -1 else 1) * (X * Zpos d - Zpos n * Zpos K)))
    with (Z.abs (X * Zpos d - Zpos n * Zpos K)) by (destruct s; lia).
  change (Zpos (2 ^ 53)) with (2 ^ 53)%Z.
  nia.
Qed.

(** Rounding in the normal range: the result is finite, not zero, and
    within 2^-53 of the argument, relatively. *)
Lemma round_spec (q : Q) :
  1 # 2 ^ 1022 <= Qabs q -> Qabs q < inject_Z (2 ^ 1023) ->
  exists s m e,
    B64.round q = S754_finite s m e /\
    Qabs (B64.to_Q (S754_finite s m e) - q) <= (1 # 2 ^ 53) * Qabs q.
Proof.
  destruct q as [[| n | n] d]; unfold B64.round; cbn [Qnum Qden Qabs Z.abs].
  - intros H. exfalso. unfold Qle in H. cbn in H. lia.
  - intros Hlo Hhi. exists false. apply (round_pos_error false); assumption.
  - intros Hlo Hhi. exists true. apply (round_pos_error true); assumption.
Qed.

(** On the numbers of the examples below, the operations are those of
    the Standard Library's specification of binary64 arithmetic. *)
Example B64_as_SpecFloat :
  let a := B64.round 0.1 in
  let b := B64.round 0.2 in
  let k := B64.of_Z 2540 in
  let m := B64.of_Z 1000000 in
  let tiny := S754_finite false 75000 (-1074) in
  let big := B64.round (inject_Z (71 * 10 ^ 303)) in
  B64.add a b = SFadd 53 1024 a b /\
  B64.mul (B64.add a b) k = SFmul 53 1024 (B64.add a b) k /\
  B64.div (B64.mul (B64.add a b) k) m
  = SFdiv 53 1024 (B64.mul (B64.add a b) k) m /\
  B64.mul tiny k = SFmul 53 1024 tiny k /\
  B64.div (B64.mul tiny k) m = SFdiv 53 1024 (B64.mul tiny k) m /\
  B64.mul big k = SFmul 53 1024 big k /\
  B64.div (B64.of_Z 123) m = SFdiv 53 1024 (B64.of_Z 123) m /\
  B64.div (B64.of_Z (-1)) m = SFdiv 53 1024 (B64.of_Z (-1)) m.
Proof. vm_compute. repeat split. Qed.

(** ** Unit conversion *)

Lemma round_near (q q' : Q) :
  q == q' ->
  1 # 2 ^ 1022 <= Qabs q' -> Qabs q' < inject_Z (2 ^ 1023) ->
  exists s m e,
    B64.round q = S754_finite s m e /\
    Qabs (B64.to_Q (S754_finite s m e) - q')
    <= (1 # 9007199254740992) * Qabs q'.
Proof.
  intros E Hlo Hhi.
  destruct (round_spec q) as (s & m & e & -> & H).
  - now rewrite E.
  - now rewrite E.
  - exists s, m, e. split; [reflexivity |]. rewrite <- E. exact H.
Qed.

(** A number near another, relatively, is about as large. *)
Lemma near_abs (p a : Q) :
  Qabs (p - a) <= (1 # 9007199254740992) * Qabs a ->
  (9007199254740991 # 9007199254740992) * Qabs a <= Qabs p /\
  Qabs p <= (9007199254740993 # 9007199254740992) * Qabs a.
Proof.
  intros H. apply Qabs_Qle_condition in H.
  destruct (Qlt_le_dec a 0) as [Ha | Ha];
    [rewrite (Qabs_neg a) in * by lra | rewrite (Qabs_pos a) in * by lra];
    (destruct (Qlt_le_dec p 0) as [Hp | Hp];
     [rewrite (Qabs_neg p) by lra | rewrite (Qabs_pos p) by lra]);
    lra.
Qed.

(** Two roundings, the second after a division by 1000000, stay within
    one part in a thousand million. *)
Lemma two_roundings (q p r : Q) :
  Qabs (p - q) <= (1 # 9007199254740992) * Qabs q ->
  Qabs (r - p * (1 # 1000000))
  <= (1 # 9007199254740992) * Qabs (p * (1 # 1000000)) ->
  Qabs (r - q * (1 # 1000000))
  <= (1 # 2251799813685248) * Qabs (q * (1 # 1000000)).
Proof.
  intros H1 H2.
  apply Qabs_Qle_condition in H1. apply Qabs_Qle_condition in H2.
  apply Qabs_Qle_condition.
  destruct (Qlt_le_dec q 0) as [Hq | Hq].
  - rewrite (Qabs_neg q) in * by lra.
    rewrite (Qabs_neg (q * (1 # 1000000))) by lra.
    rewrite (Qabs_neg (p * (1 # 1000000))) in H2 by lra. lra.
  - rewrite (Qabs_pos q) in * by lra.
    rewrite (Qabs_pos (q * (1 # 1000000))) by lra.
    rewrite (Qabs_pos (p * (1 # 1000000))) in H2 by lra. lra.
Qed.

Lemma of_Z_1000000 :
  B64.of_Z 1000000 = S754_finite false 8589934592000000 (-33).
Proof. reflexivity. Qed.

Lemma of_Z_2540 : B64.of_Z 2540 = S754_finite false 5585519069102080 (-41).
Proof. reflexivity. Qed.

(** The conversion of an [int] within the range. *)
Lemma of_Z_spec (n : Z) :
  n <> 0%Z -> (Z.abs n < 2 ^ 1023)%Z ->
  exists s m e,
    B64.of_Z n = S754_finite s m e /\
    Qabs (B64.to_Q (S754_finite s m e) - inject_Z n)
    <= (1 # 9007199254740992) * Qabs (inject_Z n).
Proof.
  intros Hn Hb. apply round_near; [reflexivity | |].
  - unfold Qabs, inject_Z, Qle. cbn [Qnum Qden]. lia.
  - unfold Qabs, inject_Z, Qlt. cbn [Qnum Qden]. lia.
Qed.

(** The division of a float by 1000000.0. *)
Lemma div_1000000_spec (s : bool) (m : positive) (e : Z) :
  let p := B64.to_Q (S754_finite s m e) in
  1 # 2 ^ 1000 <= Qabs p -> Qabs p <= inject_Z (2 ^ 1020) ->
  exists s' m' e',
    B64.div (S754_finite s m e) (B64.of_Z 1000000) = S754_finite s' m' e' /\
    Qabs (B64.to_Q (S754_finite s' m' e') - p * (1 # 1000000))
    <= (1 # 9007199254740992) * Qabs (p * (1 # 1000000)).
Proof.
  intros p Hlo Hhi. rewrite of_Z_1000000. cbn [B64.div]. fold p.
  assert (Em : B64.to_Q (S754_finite false 8589934592000000 (-33)) == 1000000)
    by reflexivity.
  assert (C1 : 1 # 2 ^ 1022 <= (1 # 2 ^ 1000) * (1 # 1000000))
    by (apply Qle_bool_imp_le; vm_compute; reflexivity).
  assert (C2 : inject_Z (2 ^ 1020) * (1 # 1000000) < inject_Z (2 ^ 1023))
    by (apply Qnot_le_lt; intros H; apply Qle_bool_iff in H; vm_compute in H;
        discriminate).
  apply round_near.
  - rewrite Em. field.
  - rewrite Qabs_Qmult. change (Qabs (1 # 1000000)) with (1 # 1000000).
    revert Hlo C1. generalize (Qabs p) (1 # 2 ^ 1022) (1 # 2 ^ 1000).
    intros X lo2 lo Hlo C1. lra.
  - rewrite Qabs_Qmult. change (Qabs (1 # 1000000)) with (1 # 1000000).
    revert Hhi C2. generalize (Qabs p) (inject_Z (2 ^ 1020)) (inject_Z (2 ^ 1023)).
    intros X hi hi2 Hhi C2. lra.
Qed.

(** The product of a float and the [int] 2540. *)
Lemma mul_2540_spec (s : bool) (m : positive) (e : Z) :
  let v := B64.to_Q (S754_finite s m e) in
  1 # 2 ^ 1000 <= Qabs v -> Qabs v <= inject_Z (2 ^ 1000) ->
  exists s' m' e',
    B64.mul (S754_finite s m e) (B64.of_Z 2540) = S754_finite s' m' e' /\
    Qabs (B64.to_Q (S754_finite s' m' e') - v * 2540)
    <= (1 # 9007199254740992) * Qabs (v * 2540).
Proof.
  intros v Hlo Hhi. rewrite of_Z_2540. cbn [B64.mul]. fold v.
  assert (Em : B64.to_Q (S754_finite false 5585519069102080 (-41)) == 2540)
    by reflexivity.
  assert (C1 : 1 # 2 ^ 1022 <= (1 # 2 ^ 1000) * 2540)
    by (apply Qle_bool_imp_le; vm_compute; reflexivity).
  assert (C2 : inject_Z (2 ^ 1000) * 2540 < inject_Z (2 ^ 1023))
    by (apply Qnot_le_lt; intros H; apply Qle_bool_iff in H; vm_compute in H;
        discriminate).
  apply round_near.
  - rewrite Em. reflexivity.
  - rewrite Qabs_Qmult. change (Qabs 2540) with 2540.
    revert Hlo C1. generalize (Qabs v) (1 # 2 ^ 1022) (1 # 2 ^ 1000).
    intros X lo2 lo Hlo C1. lra.
  - rewrite Qabs_Qmult. change (Qabs 2540) with 2540.
    revert Hhi C2. generalize (Qabs v) (inject_Z (2 ^ 1000)) (inject_Z (2 ^ 1023)).
    intros X hi hi2 Hhi C2. lra.
Qed.

Lemma within_zero (tolerance : Q) (s : bool) (q : Q) :
  q == 0 -> within tolerance (S754_zero s) q.
Proof.
  intros E. split; [reflexivity |]. cbn [B64.to_Q]. rewrite E.
  apply Qle_bool_imp_le. destruct tolerance as [a b].
  unfold Qle_bool, Qabs, Qminus, Qplus, Qopp, Qmult. cbn [Qnum Qden Z.abs].
  apply Z.leb_le. lia.
Qed.

(** [ki2mm] on an [int] that is not huge: the conversion raises nothing
    and the millimetres are right to 2^-51, relatively. *)
Lemma ki2mm_int_spec (n : Z) :
  (Z.abs n <= 2 ^ 1012)%Z ->
  ki2mm (PInt n) = Ok (ki2mm_int n) /\
  within (1 # 2251799813685248) (ki2mm_int n) (inject_Z n * (1 # 1000000)).
Proof.
  intros Hn. unfold ki2mm, ki2mm_int, float_of_int.
  destruct (Z.eq_dec n 0) as [-> | Hz].
  { split; [reflexivity |].
    replace (B64.div (B64.of_Z 0) (B64.of_Z 1000000)) with (S754_zero false)
      by (vm_compute; reflexivity).
    apply within_zero. reflexivity. }
  destruct (of_Z_spec n Hz) as (s & m & e & -> & H1).
  { assert ((2 ^ 1012 < 2 ^ 1023)%Z) by reflexivity. lia. }
  cbn [B64.is_finite bind]. split; [reflexivity |].
  destruct (near_abs _ _ H1) as [Hlo Hhi].
  assert (Hone : 1 <= Qabs (inject_Z n)).
  { unfold Qabs, inject_Z, Qle. cbn [Qnum Qden]. lia. }
  assert (Hbig : Qabs (inject_Z n) <= inject_Z (2 ^ 1012)).
  { unfold Qabs, inject_Z, Qle. cbn [Qnum Qden]. lia. }
  assert (C1 : 1 # 2 ^ 1000 <= 9007199254740991 # 9007199254740992)
    by (apply Qle_bool_imp_le; vm_compute; reflexivity).
  assert (C2 : (9007199254740993 # 9007199254740992) * inject_Z (2 ^ 1012)
               <= inject_Z (2 ^ 1020))
    by (apply Qle_bool_imp_le; vm_compute; reflexivity).
  destruct (div_1000000_spec s m e) as (s' & m' & e' & -> & H2).
  { revert Hlo Hone C1.
    generalize (Qabs (B64.to_Q (S754_finite s m e))) (Qabs (inject_Z n))
               (1 # 2 ^ 1000).
    intros P N lo Hlo Hone C1. lra. }
  { revert Hhi Hbig C2.
    generalize (Qabs (B64.to_Q (S754_finite s m e))) (Qabs (inject_Z n))
               (inject_Z (2 ^ 1012)) (inject_Z (2 ^ 1020)).
    intros P N hi hi2 Hhi Hbig C2. lra. }
  split; [reflexivity | exact (two_roundings _ _ _ H1 H2)].
Qed.

Lemma within_weaken (t t' : Q) (x : B64.t) (q q' : Q) :
  t <= t' -> q == q' -> within t x q -> within t' x q'.
Proof.
  intros Ht Eq [Hf Hb]. split; [exact Hf |]. rewrite <- Eq.
  apply Qle_trans with (1 := Hb).
  apply Qmult_le_compat_r; [exact Ht | apply Qabs_nonneg].
Qed.

(** A float of moderate size, multiplied by 2540 and divided by
    1000000.0: two roundings, none of them out of the normal range. *)
Lemma decimils_finite (s : bool) (m : positive) (e : Z) :
  let v := B64.to_Q (S754_finite s m e) in
  1 # 2 ^ 1000 <= Qabs v -> Qabs v <= inject_Z (2 ^ 1000) ->
  exists r,
    ki2mm (dmil2ki (PFloat (S754_finite s m e))) = Ok r /\
    within (1 # 2251799813685248) r (v * 0.00254).
Proof.
  intros v Hlo Hhi. cbn [dmil2ki times ki2mm].
  destruct (mul_2540_spec s m e Hlo Hhi) as (s1 & m1 & e1 & E1 & H1).
  rewrite E1. fold v in H1.
  destruct (near_abs _ _ H1) as [Plo Phi].
  rewrite Qabs_Qmult in Plo, Phi. change (Qabs 2540) with 2540 in Plo, Phi.
  assert (C1 : 1 # 2 ^ 1000
               <= (9007199254740991 # 9007199254740992)
                  * ((1 # 2 ^ 1000) * 2540))
    by (apply Qle_bool_imp_le; vm_compute; reflexivity).
  assert (C2 : (9007199254740993 # 9007199254740992)
               * (inject_Z (2 ^ 1000) * 2540) <= inject_Z (2 ^ 1020))
    by (apply Qle_bool_imp_le; vm_compute; reflexivity).
  destruct (div_1000000_spec s1 m1 e1) as (s2 & m2 & e2 & E2 & H2).
  { revert Plo Hlo C1.
    generalize (Qabs (B64.to_Q (S754_finite s1 m1 e1))) (Qabs v) (1 # 2 ^ 1000).
    intros P V lo Plo Hlo C1. lra. }
  { revert Phi Hhi C2.
    generalize (Qabs (B64.to_Q (S754_finite s1 m1 e1))) (Qabs v)
               (inject_Z (2 ^ 1000)) (inject_Z (2 ^ 1020)).
    intros P V hi hi2 Phi Hhi C2. lra. }
  rewrite E2. eexists. split; [reflexivity |].
  apply within_weaken
    with (t := 1 # 2251799813685248) (q := v * 2540 * (1 # 1000000));
    [apply Qle_refl | field |].
  split; [reflexivity | exact (two_roundings _ _ _ H1 H2)].
Qed.

(** The two conversions on a zero. *)
Lemma decimils_zero (s : bool) :
  ki2mm (dmil2ki (PFloat (S754_zero s))) = Ok (S754_zero s).
Proof.
  cbn [dmil2ki times ki2mm]. rewrite of_Z_2540, of_Z_1000000.
  cbn [B64.mul B64.div]. now destruct s.
Qed.

(** C7, as the code has it: on a number of moderate size, an [int] or a
    float, the two conversions in a row give a finite float that is
    0.00254 times the number to one part in a thousand million. *)
Theorem ki2mm_dmil2ki (v : num) :
  moderate v = true ->
  exists r,
    ki2mm (dmil2ki v) = Ok r /\
    within (1 # 1000000000) r (real v * 0.00254).
Proof.
  destruct v as [n | x]; cbn [moderate real].
  - intros Hn. apply Z.leb_le in Hn. cbn [dmil2ki times].
    destruct (ki2mm_int_spec (n * 2540)) as [E W].
    { assert ((2 ^ 1000 * 2540 <= 2 ^ 1012)%Z)
        by (apply Z.leb_le; vm_compute; reflexivity).
      lia. }
    exists (ki2mm_int (n * 2540)). split; [exact E |].
    apply within_weaken with (3 := W); [discriminate |].
    rewrite inject_Z_mult. field.
  - destruct x as [s | s | | s m e]; try discriminate.
    + intros _. exists (S754_zero s). split; [apply decimils_zero |].
      apply within_zero. cbn [B64.to_Q]. ring.
    + intros H. apply andb_true_iff in H. destruct H as [Hlo Hhi].
      apply Qle_bool_iff in Hlo. apply Qle_bool_iff in Hhi.
      destruct (decimils_finite s m e Hlo Hhi) as (r & E & W).
      exists r. split; [exact E |].
      apply within_weaken with (3 := W); [discriminate | reflexivity].
Qed.

(** C7, on 10000 decimils, which are 25.4 mm. *)
Lemma ki2mm_dmil2ki_sample :
  exists r,
    ki2mm (dmil2ki (PFloat (B64.of_Z 10000))) = Ok r /\
    within (1 # 1000000000) r (real (PFloat (B64.of_Z 10000)) * 0.00254).
Proof.
  apply (ki2mm_dmil2ki (PFloat (B64.of_Z 10000))). vm_compute. reflexivity.
Defined.

(** C7, the counterexamples: beyond the range the product overflows to
    an infinity; a huge [int] cannot be converted; and a subnormal
    product has too few bits left, here 190 units of 2^-1074 for the
    exact 190.5. *)
Lemma ki2mm_dmil2ki_beyond :
  ki2mm (dmil2ki (PFloat (B64.round (inject_Z (71 * 10 ^ 303)))))
  = Ok (S754_infinity false) /\
  ki2mm (dmil2ki (PInt (2 ^ 1024)))
  = Raise (OverflowError "int too large to convert to float") /\
  ki2mm (dmil2ki (PFloat (S754_finite false 75000 (-1074))))
  = Ok (S754_finite false 190 (-1074)) /\
  Qle_bool
    (Qabs (B64.to_Q (S754_finite false 190 (-1074))
           - B64.to_Q (S754_finite false 75000 (-1074)) * 0.00254))
    ((1 # 1000000000)
     * Qabs (B64.to_Q (S754_finite false 75000 (-1074)) * 0.00254))
  = false.
Proof. repeat split; vm_compute; reflexivity. Qed.

(** Millimetres and back is not the identity: 123 native units come back
    as 123.00000000000001. *)
Example mm2ki_ki2mm_inexact :
  ki2mm (PInt 123) = Ok (S754_finite false 4537899042132550 (-65)) /\
  mm2ki (PFloat (S754_finite false 4537899042132550 (-65)))
  = PFloat (S754_finite false 8655355533852673 (-46)) /\
  B64.of_Z 123 = S754_finite false 8655355533852672 (-46).
Proof. repeat split; vm_compute; reflexivity. Qed.

(** The sum of two finite floats whose exact sum is of moderate size. *)
Lemma add_spec (x w : B64.t) :
  B64.is_finite x = true -> B64.is_finite w = true ->
  1 # 2 ^ 999 <= Qabs (B64.to_Q x + B64.to_Q w) ->
  Qabs (B64.to_Q x + B64.to_Q w) <= inject_Z (2 ^ 999) ->
  exists s m e,
    B64.add x w = S754_finite s m e /\
    Qabs (B64.to_Q (S754_finite s m e) - (B64.to_Q x + B64.to_Q w))
    <= (1 # 9007199254740992) * Qabs (B64.to_Q x + B64.to_Q w).
Proof.
  intros Fx Fw Hlo Hhi.
  assert (Hnz : ~ B64.to_Q x + B64.to_Q w == 0).
  { intros E. rewrite E in Hlo. apply Qle_bool_iff in Hlo. vm_compute in Hlo.
    discriminate. }
  assert (Exact : forall q : Q,
            Qabs (q - q) <= (1 # 9007199254740992) * Qabs q).
  { intros q. setoid_replace (q - q) with 0 by ring.
    apply Qmult_le_0_compat; [discriminate | apply Qabs_nonneg]. }
  destruct x as [sx | sx | | sx mx ex], w as [sw | sw | | sw mw ew];
    try discriminate.
  - exfalso. apply Hnz. reflexivity.
  - exists sw, mw, ew. split; [reflexivity |].
    setoid_replace (B64.to_Q (S754_zero sx) + B64.to_Q (S754_finite sw mw ew))
      with (B64.to_Q (S754_finite sw mw ew))
      by (cbn [B64.to_Q]; ring).
    apply Exact.
  - exists sx, mx, ex. split; [reflexivity |].
    setoid_replace (B64.to_Q (S754_finite sx mx ex) + B64.to_Q (S754_zero sw))
      with (B64.to_Q (S754_finite sx mx ex))
      by (cbn [B64.to_Q]; ring).
    apply Exact.
  - cbn [B64.add]. apply round_near; [reflexivity | |].
    + apply Qle_trans with (2 := Hlo).
      apply Qle_bool_imp_le. vm_compute. reflexivity.
    + apply Qle_lt_trans with (1 := Hhi). reflexivity.
Qed.

(** A float near a number, then converted: three roundings in all. *)
Lemma three_roundings (q p r : Q) :
  Qabs (p - q) <= (1 # 9007199254740992) * Qabs q ->
  Qabs (r - p * 0.00254) <= (1 # 2251799813685248) * Qabs (p * 0.00254) ->
  Qabs (r - q * 0.00254) <= (1 # 1000000000) * Qabs (q * 0.00254).
Proof.
  intros H1 H2.
  apply Qabs_Qle_condition in H1. apply Qabs_Qle_condition in H2.
  apply Qabs_Qle_condition.
  destruct (Qlt_le_dec q 0) as [Hq | Hq].
  - rewrite (Qabs_neg q) in * by lra.
    rewrite (Qabs_neg (q * 0.00254)) by lra.
    rewrite (Qabs_neg (p * 0.00254)) in H2 by lra. lra.
  - rewrite (Qabs_pos q) in * by lra.
    rewrite (Qabs_pos (q * 0.00254)) by lra.
    rewrite (Qabs_pos (p * 0.00254)) in H2 by lra. lra.
Qed.

Lemma sizeable_moderate (q : Q) :
  1 # 2 ^ 999 <= Qabs q -> Qabs q <= inject_Z (2 ^ 999) ->
  1 # 2 ^ 1000 <= (9007199254740991 # 9007199254740992) * Qabs q /\
  (9007199254740993 # 9007199254740992) * Qabs q <= inject_Z (2 ^ 1000).
Proof.
  intros Hlo Hhi.
  assert (C1 : 1 # 2 ^ 1000
               <= (9007199254740991 # 9007199254740992) * (1 # 2 ^ 999))
    by (apply Qle_bool_imp_le; vm_compute; reflexivity).
  assert (C2 : (9007199254740993 # 9007199254740992) * inject_Z (2 ^ 999)
               <= inject_Z (2 ^ 1000))
    by (apply Qle_bool_imp_le; vm_compute; reflexivity).
  revert Hlo Hhi C1 C2.
  generalize (Qabs q) (1 # 2 ^ 999) (1 # 2 ^ 1000) (inject_Z (2 ^ 999))
             (inject_Z (2 ^ 1000)).
  intros. split; lra.
Qed.

(** The two conversions on a finite float of moderate size or zero. *)
Lemma decimils_float (x : B64.t) :
  B64.is_finite x = true -> sizeable (B64.to_Q x) ->
  exists r,
    ki2mm (dmil2ki (PFloat x)) = Ok r /\
    within (1 # 1000000000) r (B64.to_Q x * 0.00254).
Proof.
  intros Fx Hs. destruct x as [s | s | | s m e]; try discriminate.
  { exists (S754_zero s). split; [apply decimils_zero |].
    apply within_zero. cbn [B64.to_Q]. ring. }
  destruct Hs as [Hz | [Hlo Hhi]].
  { exfalso. unfold B64.to_Q in Hz.
    assert (Hp : 0 < 2 ^ e) by (apply Qpower_0_lt; reflexivity).
    destruct s.
    - assert (inject_Z (Zneg m) < 0) by reflexivity. nra.
    - assert (0 < inject_Z (Zpos m)) by reflexivity. nra. }
  destruct (sizeable_moderate _ Hlo Hhi) as [Mlo Mhi].
  destruct (decimils_finite s m e) as (r & E & W).
  { pose proof (Qabs_nonneg (B64.to_Q (S754_finite s m e))). lra. }
  { pose proof (Qabs_nonneg (B64.to_Q (S754_finite s m e))). lra. }
  exists r. split; [exact E |].
  apply within_weaken with (3 := W); [discriminate | reflexivity].
Qed.

(** The two conversions on a sum of finite floats. *)
Lemma decimils_sum (x w : B64.t) :
  B64.is_finite x = true -> B64.is_finite w = true ->
  sizeable (B64.to_Q x + B64.to_Q w) ->
  exists r,
    ki2mm (dmil2ki (PFloat (B64.add x w))) = Ok r /\
    within (1 # 1000000000) r ((B64.to_Q x + B64.to_Q w) * 0.00254).
Proof.
  intros Fx Fw [Hz | [Hlo Hhi]].
  - assert (Z : exists s, B64.add x w = S754_zero s).
    { destruct x as [sx | sx | | sx mx ex], w as [sw | sw | | sw mw ew];
        try discriminate.
      - eexists; reflexivity.
      - exfalso. revert Hz. cbn [B64.to_Q]. rewrite Qplus_0_l.
        assert (Hp : 0 < 2 ^ ew) by (apply Qpower_0_lt; reflexivity).
        destruct sw.
        + assert (inject_Z (Zneg mw) < 0) by reflexivity. nra.
        + assert (0 < inject_Z (Zpos mw)) by reflexivity. nra.
      - exfalso. revert Hz. cbn [B64.to_Q]. rewrite Qplus_0_r.
        assert (Hp : 0 < 2 ^ ex) by (apply Qpower_0_lt; reflexivity).
        destruct sx.
        + assert (inject_Z (Zneg mx) < 0) by reflexivity. nra.
        + assert (0 < inject_Z (Zpos mx)) by reflexivity. nra.
      - exists false. cbn [B64.add]. unfold B64.round.
        unfold Qeq in Hz. cbn [Qnum Qden] in Hz. rewrite Z.mul_1_r in Hz.
        now rewrite Hz. }
    destruct Z as [s ->]. exists (S754_zero s).
    split; [apply decimils_zero |]. apply within_zero. rewrite Hz. ring.
  - destruct (add_spec x w Fx Fw Hlo Hhi) as (s & m & e & -> & H1).
    destruct (near_abs _ _ H1) as [Plo Phi].
    destruct (sizeable_moderate _ Hlo Hhi) as [Mlo Mhi].
    destruct (decimils_finite s m e) as (r & E & [Fr W]); [lra | lra |].
    exists r. split; [exact E |]. split; [exact Fr |].
    exact (three_roundings _ _ _ H1 W).
Qed.

(** ** Geometry extraction *)

Lemma c_int_range (z : Z) : (- 2 ^ 31 <= c_int z < 2 ^ 31)%Z.
Proof.
  unfold c_int.
  pose proof (Z.mod_pos_bound (z + 2 ^ 31) (2 ^ 32) ltac:(reflexivity)) as H.
  change (2 ^ 32)%Z with 4294967296%Z in *.
  change (2 ^ 31)%Z with 2147483648%Z in *. lia.
Qed.

(** A C [int] that is in range is read as it is. *)
Lemma c_int_small (z : Z) : (- 2 ^ 31 <= z < 2 ^ 31)%Z -> c_int z = z.
Proof.
  intros H. unfold c_int.
  change (2 ^ 32)%Z with 4294967296%Z.
  change (2 ^ 31)%Z with 2147483648%Z in *.
  rewrite Z.mod_small; lia.
Qed.

(** [ki2mm] raises nothing on a C [int], nor on the sum of two. *)
Lemma ki2mm_int_ok (n : Z) :
  (Z.abs n <= 2 ^ 33)%Z -> ki2mm (PInt n) = Ok (ki2mm_int n).
Proof.
  intros H. apply ki2mm_int_spec.
  assert ((2 ^ 33 <= 2 ^ 1012)%Z) by (apply Z.leb_le; vm_compute; reflexivity).
  lia.
Qed.

(** The coordinates [padOutline] and [pinDefinition] convert. *)
Lemma ki2mm_c_int (z : Z) : ki2mm (PInt (c_int z)) = Ok (ki2mm_int (c_int z)).
Proof.
  pose proof (c_int_range z) as H. apply ki2mm_int_ok.
  change (2 ^ 31)%Z with 2147483648%Z in H.
  change (2 ^ 33)%Z with 8589934592%Z. lia.
Qed.

Lemma leb_finite (x y : B64.t) :
  B64.is_finite x = true -> B64.is_finite y = true ->
  B64.leb x y = Qle_bool (B64.to_Q x) (B64.to_Q y).
Proof. destruct x, y; try discriminate; reflexivity. Qed.

(** On C [int]s and their sums, [ki2mm] keeps the order strictly: two
    different lengths are never rounded to the same millimetres. *)
Lemma ki2mm_int_lt (a b : Z) :
  (Z.abs a <= 2 ^ 33)%Z -> (Z.abs b <= 2 ^ 33)%Z -> (a < b)%Z ->
  B64.to_Q (ki2mm_int a) < B64.to_Q (ki2mm_int b).
Proof.
  intros Ha Hb Hab.
  assert (C : (2 ^ 33 <= 2 ^ 1012)%Z) by (apply Z.leb_le; vm_compute; reflexivity).
  destruct (ki2mm_int_spec a ltac:(lia)) as [_ [_ Wa]].
  destruct (ki2mm_int_spec b ltac:(lia)) as [_ [_ Wb]].
  assert (Ba : - (8589934592) <= inject_Z a <= 8589934592).
  { change 8589934592 with (inject_Z (2 ^ 33)). rewrite <- inject_Z_opp.
    rewrite <- !Zle_Qle. lia. }
  assert (Bb : - (8589934592) <= inject_Z b <= 8589934592).
  { change 8589934592 with (inject_Z (2 ^ 33)). rewrite <- inject_Z_opp.
    rewrite <- !Zle_Qle. lia. }
  assert (Hlt : inject_Z a + 1 <= inject_Z b).
  { change 1 with (inject_Z 1). rewrite <- inject_Z_plus, <- Zle_Qle. lia. }
  revert Wa Wb Ba Bb Hlt.
  generalize (B64.to_Q (ki2mm_int a)) (B64.to_Q (ki2mm_int b))
             (inject_Z a) (inject_Z b).
  intros ka kb A B Wa Wb Ba Bb Hlt.
  apply Qabs_Qle_condition in Wa. apply Qabs_Qle_condition in Wb.
  destruct (Qlt_le_dec A 0) as [HA | HA];
    [rewrite (Qabs_neg (A * (1 # 1000000))) in Wa by lra
    | rewrite (Qabs_pos (A * (1 # 1000000))) in Wa by lra];
    (destruct (Qlt_le_dec B 0) as [HB | HB];
     [rewrite (Qabs_neg (B * (1 # 1000000))) in Wb by lra
     | rewrite (Qabs_pos (B * (1 # 1000000))) in Wb by lra]);
    lra.
Qed.

Lemma ki2mm_int_le (a b : Z) :
  (Z.abs a <= 2 ^ 33)%Z -> (Z.abs b <= 2 ^ 33)%Z ->
  B64.leb (ki2mm_int a) (ki2mm_int b) = true <-> (a <= b)%Z.
Proof.
  intros Ha Hb.
  assert (C : (2 ^ 33 <= 2 ^ 1012)%Z) by (apply Z.leb_le; vm_compute; reflexivity).
  destruct (ki2mm_int_spec a ltac:(lia)) as [_ [Fa _]].
  destruct (ki2mm_int_spec b ltac:(lia)) as [_ [Fb _]].
  rewrite (leb_finite _ _ Fa Fb), Qle_bool_iff. split.
  - intros H. destruct (Z_lt_le_dec b a) as [Hba | Hba]; [| exact Hba].
    pose proof (ki2mm_int_lt b a Hb Ha Hba). lra.
  - intros H. destruct (Z.eq_dec a b) as [-> | Hne]; [apply Qle_refl |].
    apply Qlt_le_weak, ki2mm_int_lt; lia.
Qed.

(** C3, as the code has it: the corners are [ki2mm] of the origin and of
    the origin plus the size, taken as they come; every coordinate is a
    finite float, the millimetres to 2^-51; and the corners are in order
    exactly when the width and the height are not negative. *)
Theorem serializeEdaRect_corner_order (rect : EDA_RECT) :
  let x := c_int (GetX rect) in
  let y := c_int (GetY rect) in
  let w := c_int (GetWidth rect) in
  let h := c_int (GetHeight rect) in
  let box := serializeEdaRect rect in
  (ki2mm (PInt x) = Ok (fst (tl box)) /\
   ki2mm (PInt y) = Ok (snd (tl box)) /\
   ki2mm (PInt (x + w)) = Ok (fst (br box)) /\
   ki2mm (PInt (y + h)) = Ok (snd (br box))) /\
  (within (1 # 2251799813685248) (fst (tl box)) (inject_Z x * (1 # 1000000)) /\
   within (1 # 2251799813685248) (snd (tl box)) (inject_Z y * (1 # 1000000)) /\
   within (1 # 2251799813685248) (fst (br box))
          (inject_Z (x + w) * (1 # 1000000)) /\
   within (1 # 2251799813685248) (snd (br box))
          (inject_Z (y + h) * (1 # 1000000))) /\
  (B64.leb (fst (tl box)) (fst (br box)) = true <-> (0 <= w)%Z) /\
  (B64.leb (snd (tl box)) (snd (br box)) = true <-> (0 <= h)%Z).
Proof.
  intros x y w h box. subst box. unfold serializeEdaRect.
  cbn [tl br fst snd]. fold x y w h.
  pose proof (c_int_range (GetX rect)) as Hx.
  pose proof (c_int_range (GetY rect)) as Hy.
  pose proof (c_int_range (GetWidth rect)) as Hw.
  pose proof (c_int_range (GetHeight rect)) as Hh.
  fold x in Hx. fold y in Hy. fold w in Hw. fold h in Hh.
  assert (C : (2 ^ 33 = 4 * 2 ^ 31)%Z) by reflexivity.
  assert (C' : (2 ^ 33 <= 2 ^ 1012)%Z) by (apply Z.leb_le; vm_compute; reflexivity).
  split; [| split].
  - repeat split; apply ki2mm_int_ok; lia.
  - repeat split; apply ki2mm_int_spec; lia.
  - split.
    + rewrite ki2mm_int_le by lia. lia.
    + rewrite ki2mm_int_le by lia. lia.
Qed.

(** C3, the counterexample: a rectangle of width and height -1 at the
    origin has its bottom-right corner above and left of its top-left
    one. *)
Lemma serializeEdaRect_flipped :
  B64.leb (fst (tl (serializeEdaRect Sample.flipped_rect)))
          (fst (br (serializeEdaRect Sample.flipped_rect))) = false /\
  B64.leb (snd (tl (serializeEdaRect Sample.flipped_rect)))
          (snd (br (serializeEdaRect Sample.flipped_rect))) = false.
Proof. split; vm_compute; reflexivity. Qed.

(** ** Component and pin assembly *)

Lemma member_lookup (k : value) (d : dict) :
  member k (keys d) = match lookup k d with Some _ => true | None => false end.
Proof.
  induction d as [| [k' v] d IH]; [reflexivity |].
  cbn [keys map fst member existsb lookup].
  destruct (key_eqb k' k); [reflexivity | exact IH].
Qed.

Lemma getitem_str (d : dict) (k : string) (v : value) :
  lookup (VStr k) d = Some v -> getitem (VDict d) (VStr k) = Ok v.
Proof. intros H. cbn [getitem hashable]. now rewrite H. Qed.

Lemma get_str (d : dict) (k : string) (default : value) :
  Py.get (VDict d) (VStr k) default
  = Ok (match lookup (VStr k) d with Some v => v | None => default end).
Proof. cbn [Py.get hashable]. now destruct (lookup (VStr k) d). Qed.

(** The comprehension is a map over the filtered pads. *)
Lemma pinsOfPads_map_filter (d : dict) (fp : footprint) (pads : list pad) :
  pinsOfPads (VDict d) fp pads =
  mapM (fun p => s <- getitem (VDict d) (VStr (GetName p)) ;;
                 pinDefinition s p fp)
       (named_pads d pads).
Proof.
  induction pads as [| p pads IH]; [reflexivity |].
  cbn [pinsOfPads keys_of bind]. rewrite IH.
  unfold named_pads. cbn [List.filter].
  destruct (member (VStr (GetName p)) (keys d)); [| reflexivity].
  cbn [mapM].
  destruct (getitem (VDict d) (VStr (GetName p))) as [s |]; [| reflexivity].
  cbn [bind]. destruct (pinDefinition s p fp); reflexivity.
Qed.

Lemma pinDefinition_wf (s : value) (p : pad) (fp : footprint) :
  wf_PinSpec s = true -> exists pin, pinDefinition s p fp = Ok pin.
Proof.
  destruct s as [| | | | | | d]; try discriminate.
  unfold wf_PinSpec, pinDefinition, Py.get, getitem, as_length.
  cbn [hashable bind].
  destruct (lookup (VStr "name") d) as [n |]; [| discriminate].
  destruct (lookup (VStr "offset") d) as [o |]; cbn [bind andb].
  - destruct (number o) as [q |]; [| discriminate]. intros _.
    cbn [bind].
    destruct (lookup (VStr "description") d), (lookup (VStr "alias") d),
      (lookup (VStr "groups") d); cbn [bind]; eexists; reflexivity.
  - intros _. cbn [number bind].
    destruct (lookup (VStr "description") d), (lookup (VStr "alias") d),
      (lookup (VStr "groups") d); cbn [bind]; eexists; reflexivity.
Qed.

(** The geometry of a pin is that of the pad it was built from. *)
Lemma pinDefinition_geometry (s : value) (p : pad) (fp : footprint)
    (pin : Pin) :
  pinDefinition s p fp = Ok pin ->
  pin_pos pin = (ki2mm_int (c_int (pt_x (GetPosition p))),
                 ki2mm_int (c_int (pt_y (GetPosition p)))) /\
  pin_bbox pin = serializeEdaRect (GetBoundingBox p).
Proof.
  unfold pinDefinition.
  destruct (Py.get s (VStr "offset") (VInt 0)) as [o |]; [| discriminate].
  cbn [bind]. destruct (as_length o); [| discriminate].
  cbn [bind]. destruct (getitem s (VStr "name")); [| discriminate].
  cbn [bind]. destruct (Py.get s (VStr "description") (VStr "")); [| discriminate].
  cbn [bind]. destruct (Py.get s (VStr "alias") (VBool false)); [| discriminate].
  cbn [bind]. destruct (Py.get s (VStr "groups") (VList [])); [| discriminate].
  cbn [bind]. intros [= <-]. split; reflexivity.
Qed.

(** The pins of a footprint: one for one and in order the pads the pins
    mapping names; the other pads are left out and raise nothing. *)
Lemma pinsDefinition_named_pads (d : dict) (fp : footprint) :
  (forall p s, In p (Pads fp) ->
     lookup (VStr (GetName p)) d = Some s -> wf_PinSpec s = true) ->
  exists pins,
    pinsDefinition (VDict d) (Some fp) = Ok pins /\ pins_match d fp pins.
Proof.
  unfold pinsDefinition, pins_match. rewrite pinsOfPads_map_filter.
  generalize (Pads fp) as pads.
  induction pads as [| p pads IH]; intros Hwf.
  { exists []. split; [reflexivity | constructor]. }
  destruct IH as [pins [Hpins Hall]].
  { intros q s Hq. apply Hwf. now right. }
  unfold named_pads in *. cbn [List.filter]. rewrite member_lookup.
  destruct (lookup (VStr (GetName p)) d) as [s |] eqn:Hs.
  - destruct (pinDefinition_wf s p fp) as [pin Hpin].
    { apply (Hwf p s); [now left | exact Hs]. }
    exists (pin :: pins). split.
    + cbn [mapM]. rewrite (getitem_str d (GetName p) s Hs). cbn [bind].
      rewrite Hpin. cbn [bind]. rewrite Hpins. reflexivity.
    + constructor; [exists s; split; [exact Hs | exact Hpin] | exact Hall].
  - exists pins. split; [exact Hpins | exact Hall].
Qed.

(** The loop of [componentsDefinition] appends one component per entry. *)
Lemma componentsDefinition_mapM (entries : dict) (b : board) :
  componentsDefinition (VDict entries) b = mapM (componentOf b) entries.
Proof.
  unfold componentsDefinition. cbn [items_of bind].
  enough (H : forall defs,
             foldM (fun defs entry =>
                      let '(ref, s) := entry in
                      fp <- findModule b ref ;;
                      description <- getitem s (VStr "description") ;;
                      highlight <- Py.get s (VStr "highlight") (VBool false) ;;
                      groups <- Py.get s (VStr "groups") (VList []) ;;
                      pinspec <- getitem s (VStr "pins") ;;
                      pins <- pinsDefinition pinspec fp ;;
                      Ok (defs ++ [ {| comp_ref := ref;
                                       comp_description := description;
                                       comp_highlight := highlight;
                                       comp_groups := groups;
                                       comp_pins := pins |} ])%list)
                   entries defs
             = (cs <- mapM (componentOf b) entries ;; Ok (defs ++ cs)%list)).
  { rewrite H. destruct (mapM (componentOf b) entries); reflexivity. }
  induction entries as [| [ref s] entries IH]; intros defs.
  { cbn. now rewrite app_nil_r. }
  cbn [foldM mapM]. unfold componentOf at 1. cbn [fst snd].
  destruct (findModule b ref) as [fp |]; [| reflexivity]. cbn [bind].
  destruct (getitem s (VStr "description")); [| reflexivity]. cbn [bind].
  destruct (Py.get s (VStr "highlight") (VBool false)); [| reflexivity].
  cbn [bind].
  destruct (Py.get s (VStr "groups") (VList [])); [| reflexivity]. cbn [bind].
  destruct (getitem s (VStr "pins")); [| reflexivity]. cbn [bind].
  destruct (pinsDefinition _ fp); [| reflexivity]. cbn [bind].
  rewrite IH. destruct (mapM (componentOf b) entries); cbn [bind];
    [now rewrite <- app_assoc | reflexivity].
Qed.

(** C5: every entry of the components mapping yields one component, in
    the order of the document, and the pins of that component are, one
    for one and in the order of the footprint, the pads whose name is a
    key of the entry's pins mapping; the pads it does not name are left
    out and raise nothing. *)
Theorem componentsDefinition_named_pads (b : board) (entries : dict)
  (Hwf : forallb (wf_ComponentSpec b) entries = true) :
  exists comps,
    componentsDefinition (VDict entries) b = Ok comps /\
    Forall2 (fun comp entry =>
               comp_ref comp = fst entry /\
               exists ref fp d,
                 fst entry = VStr ref /\
                 FindModule b ref = Some fp /\
                 getitem (snd entry) (VStr "pins") = Ok (VDict d) /\
                 pins_match d fp (comp_pins comp))
            comps entries.
Proof.
  rewrite componentsDefinition_mapM.
  induction entries as [| [ref s] entries IH].
  { exists []. split; [reflexivity | constructor]. }
  cbn [forallb] in Hwf. apply andb_true_iff in Hwf. destruct Hwf as [He Hwf].
  destruct (IH Hwf) as (comps & Hcomps & Hall). clear IH.
  unfold wf_ComponentSpec in He.
  destruct ref as [| | | | r | |]; try discriminate.
  destruct s as [| | | | | | c]; try discriminate.
  destruct (FindModule b r) as [fp |] eqn:Hfp; [| discriminate].
  destruct (lookup (VStr "description") c) as [description |] eqn:Hd;
    [| discriminate].
  destruct (lookup (VStr "pins") c) as [[| | | | | | d] |] eqn:Hp;
    try discriminate.
  destruct (pinsDefinition_named_pads d fp) as (pins & Hpins & Hmatch).
  { intros p ps Hin Hl. rewrite forallb_forall in He.
    specialize (He p Hin). now rewrite Hl in He. }
  assert (G : getitem (VDict c) (VStr "pins") = Ok (VDict d))
    by exact (getitem_str c "pins" _ Hp).
  eexists. split.
  - cbn [mapM]. unfold componentOf at 1.
    cbn [fst snd findModule bind]. rewrite Hfp, G, !get_str.
    rewrite (getitem_str c "description" _ Hd). cbn [bind].
    rewrite Hpins. cbn [bind]. rewrite Hcomps. reflexivity.
  - constructor; [| exact Hall]. cbn [comp_ref comp_pins fst snd].
    split; [reflexivity |]. exists r, fp, d. repeat split; assumption.
Qed.

(** C5, the example: pins 1 and 3 named, pads 1, 2, 3, 4 on the board:
    one component, two pins, pad 1 then pad 3. *)
Lemma componentsDefinition_named_pads_1_3 :
  exists comps,
    componentsDefinition (VDict Sample.components_J1) Sample.a_board = Ok comps /\
    Forall2 (fun comp entry =>
               comp_ref comp = fst entry /\
               exists ref fp d,
                 fst entry = VStr ref /\
                 FindModule Sample.a_board ref = Some fp /\
                 getitem (snd entry) (VStr "pins") = Ok (VDict d) /\
                 pins_match d fp (comp_pins comp))
            comps Sample.components_J1.
Proof.
  apply (componentsDefinition_named_pads Sample.a_board Sample.components_J1).
  reflexivity.
Defined.

(** On that example the pins mapping names two of the four pads. *)
Example named_pads_1_3 :
  named_pads Sample.pins_1_3 (Pads Sample.header)
  = [Sample.square_pad "1" 0 0; Sample.square_pad "3" 5080000 0].
Proof. reflexivity. Qed.

(** ** Group taxonomy: validation *)

Lemma key_eqb_sym (a b : value) : key_eqb a b = key_eqb b a.
Proof.
  assert (Q : forall p q, Qeq_bool p q = Qeq_bool q p).
  { intros p q. destruct (Qeq_bool p q) eqn:E, (Qeq_bool q p) eqn:F;
      try reflexivity.
    - apply Qeq_bool_iff in E. symmetry in E. apply Qeq_bool_iff in E. congruence.
    - apply Qeq_bool_iff in F. symmetry in F. apply Qeq_bool_iff in F. congruence. }
  assert (X : forall p q, B64.ext_eqb p q = B64.ext_eqb q p)
    by (intros [] []; cbn [B64.ext_eqb]; try reflexivity; apply Q).
  destruct a, b; cbn [key_eqb number]; try reflexivity; try apply X.
  apply String.eqb_sym.
Qed.

Lemma member_app (k : value) (s t : list value) :
  member k (s ++ t)%list = member k s || member k t.
Proof. unfold member. apply existsb_app. Qed.

Lemma keys_app (d e : dict) : keys (d ++ e)%list = (keys d ++ keys e)%list.
Proof. unfold keys. apply map_app. Qed.

(** Storing under a key the dictionary does not have appends the entry. *)
Lemma store_fresh (k v : value) (d : dict) :
  member k (keys d) = false -> store k v d = (d ++ [(k, v)])%list.
Proof.
  induction d as [| [k' v'] d IH]; [reflexivity |].
  cbn [keys map fst member existsb store app].
  intros H. apply orb_false_iff in H. destruct H as [E H].
  rewrite E. f_equal. apply IH. exact H.
Qed.

Lemma canonical_is_dict (v : value) :
  canonical v = true -> exists d, v = VDict d.
Proof. destruct v; try discriminate. eexists; reflexivity. Qed.

(** On canonical entries whose keys the accumulator does not have, the
    loop appends the entries as they are. *)
Lemma validateEntries_canonical (entries : dict) :
  Forall (fun kv => canonical (snd kv) = true ->
                    validateGroupStructure (snd kv) = Ok (snd kv)) entries ->
  forall newStruct,
    canonicalEntries canonical entries = true ->
    Forall (fun kv => member (fst kv) (keys newStruct) = false) entries ->
    validateEntries validateGroupStructure entries newStruct
    = Ok (VDict (newStruct ++ entries)%list).
Proof.
  induction 1 as [| [k w] rest Hw _ IH]; intros newStruct Hc Hfresh.
  { cbn. now rewrite app_nil_r. }
  cbn [canonicalEntries] in Hc.
  apply andb_true_iff in Hc. destruct Hc as [Hc Hrest].
  apply andb_true_iff in Hc. destruct Hc as [Hc Hcw].
  apply andb_true_iff in Hc. destruct Hc as [Hk Hnew].
  destruct k as [| | | | s | |]; try discriminate.
  destruct (canonical_is_dict w Hcw) as [dw ->].
  cbn [snd] in Hw. specialize (Hw Hcw).
  inversion Hfresh as [| ? ? Hk0 Hfresh']; subst. cbn [fst] in Hk0.
  cbn [validateEntries]. rewrite Hw. cbn [bind].
  rewrite (store_fresh _ _ _ Hk0).
  fold (validateEntries validateGroupStructure).
  rewrite (IH _ Hrest).
  - now rewrite <- app_assoc.
  - apply negb_true_iff in Hnew.
    clear - Hnew Hfresh'.
    induction rest as [| [k2 w2] rest IHr]; constructor.
    + inversion Hfresh'; subst. cbn [fst] in *.
      rewrite keys_app, member_app. cbn [keys map fst member existsb].
      cbn [keys map fst member existsb] in Hnew.
      apply orb_false_iff in Hnew. destruct Hnew as [E _].
      rewrite key_eqb_sym in E. rewrite E.
      rewrite orb_false_r. cbn [orb]. assumption.
    + apply IHr.
      * cbn [keys map fst member existsb] in Hnew.
        apply orb_false_iff in Hnew. apply Hnew.
      * now inversion Hfresh'.
Qed.

(** C6: validating a structure that is already canonical returns it. *)
Theorem validateGroupStructure_idempotent (struct : value) :
  canonical struct = true -> validateGroupStructure struct = Ok struct.
Proof.
  induction struct as [| | | | | | entries IH] using value_nested_ind;
    try discriminate.
  intros Hc. cbn [validateGroupStructure canonical] in *.
  rewrite (validateEntries_canonical entries); [reflexivity | | exact Hc |].
  - apply Forall_impl with (2 := IH). intros kv [_ H]. exact H.
  - apply Forall_forall. reflexivity.
Qed.

(** C6, on the canonical structure [{a: {x: {}, y: {}}, b: {}}]. *)
Lemma validateGroupStructure_idempotent_sample :
  validateGroupStructure Sample.canonical_groups = Ok Sample.canonical_groups.
Proof.
  apply (validateGroupStructure_idempotent Sample.canonical_groups).
  reflexivity.
Defined.

(** Validation yields canonical structures only when its input holds
    nothing but strings in its lists; on the example of the
    specification it gives [{a: {x: {}, y: {}}, b: {}}]. *)
Example validateGroupStructure_sample :
  validateGroupStructure
    (VDict [(VStr "a", VList [VStr "x"; VStr "y"]); (VStr "b", VNone)])
  = Ok Sample.canonical_groups.
Proof. reflexivity. Qed.

(** C2, on the code: an entry whose value is a number, a truth value or a
    string raises nothing; it is left out of the result.  Validating
    [{a: 5}] returns the empty structure. *)
Theorem validateGroupStructure_drops_scalars (key : string) :
  (forall n, validateGroupStructure (VDict [(VStr key, VInt n)]) = Ok (VDict []))
  /\ (forall b, validateGroupStructure (VDict [(VStr key, VBool b)]) = Ok (VDict []))
  /\ (forall q, validateGroupStructure (VDict [(VStr key, VFloat q)]) = Ok (VDict []))
  /\ (forall s, validateGroupStructure (VDict [(VStr key, VStr s)]) = Ok (VDict []))
  /\ validateGroupStructure (VDict [(VStr "a", VInt 5)]) = Ok (VDict []).
Proof. repeat split. Qed.

(** What validation does refuse: a structure that is no dictionary, and a
    key that is no string; the fault names the offender. *)
Theorem validateGroupStructure_faults (w : value) (rest : dict) :
  validateGroupStructure VNone
    = Raise (RuntimeError [Interp VNone; Lit " is not a dictionary"]) /\
  (forall n, validateGroupStructure (VInt n)
    = Raise (RuntimeError [Interp (VInt n); Lit " is not a dictionary"])) /\
  (forall s, validateGroupStructure (VStr s)
    = Raise (RuntimeError [Interp (VStr s); Lit " is not a dictionary"])) /\
  (forall l, validateGroupStructure (VList l)
    = Raise (RuntimeError [Interp (VList l); Lit " is not a dictionary"])) /\
  (forall n, validateGroupStructure (VDict ((VInt n, w) :: rest))
    = Raise (RuntimeError [Interp (VInt n); Lit " is not a string"])) /\
  validateGroupStructure (VDict ((VNone, w) :: rest))
    = Raise (RuntimeError [Interp VNone; Lit " is not a string"]).
Proof. repeat split. Qed.

(** The members of a list are not checked: numbers become keys, and the
    result is then refused when validated again. *)
Example validateGroupStructure_list_of_numbers :
  validateGroupStructure (VDict [(VStr "a", VList [VInt 1])])
    = Ok (VDict [(VStr "a", VDict [(VInt 1, VDict [])])]) /\
  validateGroupStructure (VDict [(VStr "a", VDict [(VInt 1, VDict [])])])
    = Raise (RuntimeError [Interp (VInt 1); Lit " is not a string"]).
Proof. split; reflexivity. Qed.

(** ** Group taxonomy: collection *)

Lemma all_str_strings (l : list value) :
  all_str l = true -> l = map VStr (strings l).
Proof.
  induction l as [| v l IH]; [reflexivity |].
  cbn [all_str forallb]. intros H. apply andb_true_iff in H. destruct H as [Hv Hl].
  destruct v; try discriminate. cbn [strings map]. f_equal. apply IH. exact Hl.
Qed.

Lemma chars_characters (s : string) : chars s = map VStr (characters s).
Proof. induction s as [| c s IH]; cbn; [reflexivity | now rewrite IH]. Qed.

Lemma member_str (x : string) (l : list string) :
  member (VStr x) (map VStr l) = existsb (fun y => String.eqb y x) l.
Proof.
  unfold member. induction l as [| y l IH]; [reflexivity |].
  cbn [map existsb key_eqb]. now rewrite IH.
Qed.

Lemma add_str (l : list string) (x : string) :
  add (map VStr l) (VStr x) = Ok (map VStr (ins l x)).
Proof.
  unfold add, ins. cbn [hashable]. rewrite member_str.
  destruct (existsb _ l); [reflexivity |]. now rewrite map_app.
Qed.

Lemma foldM_add_str (xs l : list string) :
  foldM add (map VStr xs) (map VStr l) = Ok (map VStr (fold_left ins xs l)).
Proof.
  revert l. induction xs as [| x xs IH]; intros l; [reflexivity |].
  cbn [map foldM fold_left]. rewrite add_str. cbn [bind]. apply IH.
Qed.

Lemma update1_str (l : list string) (g : string) :
  update1 (map VStr l) (VStr g) = Ok (map VStr (fold_left ins (characters g) l)).
Proof. unfold update1. cbn [iter bind]. rewrite chars_characters. apply foldM_add_str. Qed.

Lemma update1_list (l : list string) (gs : list value) :
  all_str gs = true ->
  update1 (map VStr l) (VList gs) = Ok (map VStr (fold_left ins (strings gs) l)).
Proof.
  intros H. unfold update1. cbn [iter bind].
  rewrite (all_str_strings gs H) at 1. apply foldM_add_str.
Qed.

Lemma update_strs (gs l : list string) :
  update (map VStr l) (map VStr gs)
  = Ok (map VStr (fold_left ins (flat_map characters gs) l)).
Proof.
  unfold update. revert l. induction gs as [| g gs IH]; intros l; [reflexivity |].
  cbn [map foldM flat_map]. rewrite update1_str. cbn [bind].
  rewrite IH, fold_left_app. reflexivity.
Qed.

Lemma wf_groups_get (obj : value) :
  wf_groups obj = true ->
  Py.get obj (VStr "groups") (VList []) = Ok (VList (groups_of obj))
  /\ all_str (groups_of obj) = true.
Proof.
  destruct obj as [| | | | | | d]; try discriminate.
  unfold wf_groups, groups_of. cbn [Py.get hashable].
  destruct (lookup (VStr "groups") d) as [[| | | | | gs |] |]; try discriminate.
  - intros H. split; [reflexivity | exact H].
  - intros _. split; reflexivity.
Qed.

Lemma pins_step (ps : list value) (l : list string) :
  forallb wf_groups ps = true ->
  foldM (fun groups p => g <- Py.get p (VStr "groups") (VList []) ;; update groups [g])
        ps (map VStr l)
  = Ok (map VStr (fold_left ins (flat_map (fun p => strings (groups_of p)) ps) l)).
Proof.
  revert l. induction ps as [| p ps IH]; intros l H; [reflexivity |].
  cbn [forallb] in H. apply andb_true_iff in H. destruct H as [Hp Hps].
  destruct (wf_groups_get p Hp) as [Hg Hs].
  cbn [foldM flat_map]. rewrite Hg. cbn [bind update foldM].
  rewrite (update1_list _ _ Hs). cbn [bind].
  rewrite (IH _ Hps), fold_left_app. reflexivity.
Qed.

Lemma component_step (c : value) (l : list string) :
  wf_grouped c = true ->
  (g <- Py.get c (VStr "groups") (VList []) ;;
   unpacked <- iter g ;;
   groups <- update (map VStr l) unpacked ;;
   pins <- getitem c (VStr "pins") ;;
   ps <- values_of pins ;;
   foldM (fun groups p => g <- Py.get p (VStr "groups") (VList []) ;; update groups [g])
         ps groups)
  = Ok (map VStr (fold_left ins (gathered c) l)).
Proof.
  unfold wf_grouped. intros H. apply andb_true_iff in H. destruct H as [Hg Hp].
  destruct (wf_groups_get c Hg) as [Eg Hs]. rewrite Eg. cbn [bind iter].
  rewrite (all_str_strings _ Hs) at 1. rewrite update_strs. cbn [bind].
  destruct c as [| | | | | | d]; try discriminate.
  unfold gathered, pins_of.
  destruct (lookup (VStr "pins") d) as [[| | | | | | pd] |] eqn:E; try discriminate.
  rewrite (getitem_str d "pins" _ E). cbn [bind values_of].
  rewrite (pins_step _ _ Hp), fold_left_app. reflexivity.
Qed.

Lemma components_fold (cs : list value) (l : list string) :
  forallb wf_grouped cs = true ->
  foldM (fun groups c =>
           g <- Py.get c (VStr "groups") (VList []) ;;
           unpacked <- iter g ;;
           groups <- update groups unpacked ;;
           pins <- getitem c (VStr "pins") ;;
           ps <- values_of pins ;;
           foldM (fun groups p =>
                    g <- Py.get p (VStr "groups") (VList []) ;;
                    update groups [g])
                 ps groups)
        cs (map VStr l)
  = Ok (map VStr (fold_left ins (flat_map gathered cs) l)).
Proof.
  revert l. induction cs as [| c cs IH]; intros l H; [reflexivity |].
  cbn [forallb] in H. apply andb_true_iff in H. destruct H as [Hc Hcs].
  cbn [foldM flat_map]. rewrite (component_step c l Hc). cbn [bind].
  rewrite (IH _ Hcs), fold_left_app. reflexivity.
Qed.

(** The set: no repetition, and the members are those that came in. *)
Lemma existsb_eqb_In (x : string) (l : list string) :
  existsb (fun y => String.eqb y x) l = true <-> In x l.
Proof.
  rewrite existsb_exists. split.
  - intros (y & Hy & E). apply String.eqb_eq in E. now subst.
  - intros H. exists x. split; [exact H | apply String.eqb_refl].
Qed.

Lemma ins_In (l : list string) (x k : string) :
  In k (ins l x) <-> In k l \/ k = x.
Proof.
  unfold ins. destruct (existsb _ l) eqn:E.
  - apply existsb_eqb_In in E. split; [auto | intros [H | ->]; auto].
  - rewrite in_app_iff. cbn. intuition.
Qed.

Lemma ins_NoDup (l : list string) (x : string) : NoDup l -> NoDup (ins l x).
Proof.
  intros H. unfold ins. destruct (existsb _ l) eqn:E; [exact H |].
  apply NoDup_app; [exact H | repeat constructor; easy |].
  intros y Hy [<- | []].
  apply existsb_eqb_In in Hy. congruence.
Qed.

Lemma fold_ins_In (xs l : list string) (k : string) :
  In k (fold_left ins xs l) <-> In k l \/ In k xs.
Proof.
  revert l. induction xs as [| x xs IH]; intros l; cbn [fold_left].
  - cbn. intuition.
  - rewrite IH, ins_In. cbn. intuition.
Qed.

Lemma fold_ins_NoDup (xs l : list string) :
  NoDup l -> NoDup (fold_left ins xs l).
Proof.
  revert l. induction xs as [| x xs IH]; intros l H; cbn [fold_left];
    [exact H | apply IH, ins_NoDup, H].
Qed.

(** The sort. *)
Lemma isort_strs (l : list string) : isort (map VStr l) = map VStr (sort_str l).
Proof.
  induction l as [| x l IH]; [reflexivity |].
  cbn [map isort sort_str]. rewrite IH. generalize (sort_str l) as s.
  induction s as [| y s IHs]; [reflexivity |].
  cbn [map insert_sorted insert_str Py.le].
  destruct (String.leb x y); [reflexivity | now rewrite IHs].
Qed.

Lemma all_str_map (l : list string) : all_str (map VStr l) = true.
Proof. induction l; [reflexivity | assumption]. Qed.

Lemma sort_strs (l : list string) :
  sort (map VStr l) = Ok (map VStr (sort_str l)).
Proof.
  destruct l as [| x [| y l]]; try reflexivity.
  unfold sort. cbn [map]. change (VStr x :: VStr y :: map VStr l) with (map VStr (x :: y :: l)).
  rewrite all_str_map, isort_strs. reflexivity.
Qed.

Lemma insert_str_perm (x : string) (l : list string) :
  Permutation (insert_str x l) (x :: l).
Proof.
  induction l as [| y l IH]; cbn [insert_str]; [reflexivity |].
  destruct (String.leb x y); [reflexivity |].
  rewrite IH. apply perm_swap.
Qed.

Lemma sort_str_perm (l : list string) : Permutation (sort_str l) l.
Proof.
  induction l as [| x l IH]; cbn [sort_str]; [reflexivity |].
  rewrite insert_str_perm. now constructor.
Qed.

Lemma insert_str_sorted (x : string) (l : list string) :
  Sorted ascending l -> Sorted ascending (insert_str x l).
Proof.
  induction 1 as [| y l Hs IH Hd]; cbn [insert_str]; [repeat constructor |].
  destruct (String.leb x y) eqn:E.
  - constructor; [now constructor | constructor; exact E].
  - constructor; [exact IH |].
    assert (Hyx : ascending y x).
    { destruct (String.leb_total x y) as [H | H]; [congruence | exact H]. }
    destruct l as [| z l]; cbn [insert_str]; [now constructor |].
    destruct (String.leb x z); constructor; [exact Hyx | now inversion Hd].
Qed.

Lemma sort_str_sorted (l : list string) : Sorted ascending (sort_str l).
Proof.
  induction l as [| x l IH]; cbn [sort_str]; [constructor |].
  now apply insert_str_sorted.
Qed.

(** The comprehension. *)
Lemma dict_of_keys_strs (leaf : value) (ks acc : list string) :
  NoDup (acc ++ ks) ->
  foldM (fun d k =>
           if hashable k then Ok (store k leaf d)
           else Raise (TypeError "unhashable type"))
        (map VStr ks) (map (fun k => (VStr k, leaf)) acc)
  = Ok (map (fun k => (VStr k, leaf)) (acc ++ ks)).
Proof.
  revert acc. induction ks as [| k ks IH]; intros acc H.
  { cbn. now rewrite app_nil_r. }
  cbn [map foldM hashable bind].
  rewrite store_fresh.
  - change [(VStr k, leaf)] with (map (fun k => (VStr k, leaf)) [k]).
    rewrite <- map_app. rewrite IH; rewrite <- app_assoc; [reflexivity | exact H].
  - unfold keys. rewrite map_map. cbn [fst].
    change (map (fun x => VStr x) acc) with (map VStr acc).
    rewrite member_str.
    destruct (existsb _ acc) eqn:E; [| reflexivity].
    apply existsb_eqb_In in E. apply NoDup_remove_2 in H.
    exfalso. apply H. apply in_or_app. now left.
Qed.

(** What [collectGroups] returns on a well-formed components mapping: the
    single-level taxonomy over the gathered names, sorted, each once. *)
Lemma collectGroups_gathers (entries : dict) :
  forallb wf_grouped (values entries) = true ->
  exists ks,
    collectGroups (VDict entries) = Ok (flat_taxonomy ks) /\
    NoDup ks /\
    Sorted ascending ks /\
    forall k, In k ks <-> In k (flat_map gathered (values entries)).
Proof.
  intros H. exists (sort_str (fold_left ins (flat_map gathered (values entries)) [])).
  split; [| split; [| split]].
  - unfold collectGroups. cbn [values_of bind].
    pose proof (components_fold _ [] H) as E. cbn [map] in E.
    rewrite E. cbn [bind].
    rewrite sort_strs. cbn [bind]. unfold dict_of_keys.
    rewrite (dict_of_keys_strs (VList []) _ []); [reflexivity |].
    cbn [app]. rewrite sort_str_perm. apply fold_ins_NoDup. constructor.
  - rewrite sort_str_perm. apply fold_ins_NoDup. constructor.
  - apply sort_str_sorted.
  - intros k. rewrite sort_str_perm, fold_ins_In. cbn. intuition.
Qed.

(** On components that carry no groups of their own, the taxonomy is the
    single-level mapping over the groups of the pins: each name once, in
    ascending order, with an empty list for a leaf. *)
Theorem collectGroups_pin_groups (entries : dict) :
  forallb wf_grouped (values entries) = true ->
  forallb (fun c => match groups_of c with [] => true | _ => false end)
          (values entries) = true ->
  exists ks,
    collectGroups (VDict entries) = Ok (flat_taxonomy ks) /\
    NoDup ks /\
    Sorted ascending ks /\
    forall k,
      In k ks <->
      In k (flat_map (fun c => flat_map (fun p => strings (groups_of p))
                                        (pins_of c))
                     (values entries)).
Proof.
  intros Hwf Hnone.
  destruct (collectGroups_gathers entries Hwf) as (ks & E & Hd & Hs & Hin).
  exists ks. repeat split; try assumption.
  - intros H. apply Hin in H. revert H. clear - Hnone.
    induction (values entries) as [| c cs IH]; [easy |].
    cbn [forallb] in Hnone. apply andb_true_iff in Hnone.
    destruct Hnone as [Hc Hcs]. cbn [flat_map]. rewrite !in_app_iff.
    unfold gathered at 1. destruct (groups_of c); [| discriminate].
    cbn [strings flat_map app]. intros [H | H]; [now left | right; auto].
  - intros H. apply Hin. revert H. clear - Hnone.
    induction (values entries) as [| c cs IH]; [easy |].
    cbn [forallb] in Hnone. apply andb_true_iff in Hnone.
    destruct Hnone as [Hc Hcs]. cbn [flat_map]. rewrite !in_app_iff.
    unfold gathered at 1. destruct (groups_of c); [| discriminate].
    cbn [strings flat_map app]. intros [H | H]; [now left | right; auto].
Qed.

(** On a component whose pins are in the groups power, gpio and adc. *)
Lemma collectGroups_pin_groups_sample :
  exists ks,
    collectGroups (VDict Sample.pin_grouped) = Ok (flat_taxonomy ks) /\
    NoDup ks /\
    Sorted ascending ks /\
    forall k,
      In k ks <->
      In k (flat_map (fun c => flat_map (fun p => strings (groups_of p))
                                        (pins_of c))
                     (values Sample.pin_grouped)).
Proof.
  apply (collectGroups_pin_groups Sample.pin_grouped); reflexivity.
Defined.

Example collectGroups_sample :
  collectGroups (VDict Sample.pin_grouped)
  = Ok (flat_taxonomy ["adc"; "gpio"; "power"]).
Proof. reflexivity. Qed.

(** C1, on the code: the groups of a component are passed to
    [set.update] unpacked, one argument per group name, so it is the
    characters of each name that enter the set.  A component in the one
    group [ab] yields the taxonomy [{a: [], b: []}], which has no key
    [ab]; its leaves are empty lists. *)
Theorem collectGroups_component_groups (ref g : string) :
  collectGroups
    (VDict [(VStr ref, VDict [(VStr "groups", VList [VStr g]);
                              (VStr "pins", VDict [])])])
  = (groups <- foldM add (chars g) [] ;;
     groups <- sort groups ;;
     d <- dict_of_keys (VList []) groups ;;
     Ok (VDict d))
  /\ collectGroups Sample.grouped_component
     = Ok (VDict [(VStr "a", VList []); (VStr "b", VList [])]).
Proof.
  split; [| reflexivity].
  cbn [collectGroups values_of values map snd bind foldM Py.get hashable
       lookup key_eqb String.eqb Ascii.eqb Bool.eqb iter update update1
       getitem].
  destruct (foldM add (chars g) []); reflexivity.
Qed.

(** ** Paths *)

Lemma append_assoc (a b c : string) : (a ++ b) ++ c = a ++ (b ++ c).
Proof. induction a as [| x a IH]; cbn; [reflexivity | now rewrite IH]. Qed.

Lemma append_nil_r (a : string) : a ++ "" = a.
Proof. induction a as [| x a IH]; cbn; [reflexivity | now rewrite IH]. Qed.

Lemma length_append (a b : string) :
  String.length (a ++ b) = (String.length a + String.length b)%nat.
Proof. induction a as [| x a IH]; cbn; [reflexivity | now rewrite IH]. Qed.

Lemma append_inv_head (a b c : string) : a ++ b = a ++ c -> b = c.
Proof. induction a as [| x a IH]; cbn; [easy | intros [= H]; auto]. Qed.

Lemma get_append (a b : string) (n : nat) :
  String.get (String.length a + n) (a ++ b) = String.get n b.
Proof. induction a as [| x a IH]; cbn; [reflexivity | exact IH]. Qed.

Lemma substring_append (a b : string) (n m : nat) :
  substring (String.length a + n) m (a ++ b) = substring n m b.
Proof. induction a as [| x a IH]; cbn; [reflexivity | exact IH]. Qed.

Lemma rfind_bounds (c : ascii) (s : string) :
  (-1 <= Path.rfind c s < Z.of_nat (String.length s))%Z.
Proof.
  induction s as [| a s IH]; cbn [Path.rfind String.length]; [lia |].
  destruct (0 <=? Path.rfind c s)%Z eqn:E; [lia |].
  destruct (Ascii.eqb a c); lia.
Qed.

Lemma rfind_append (c : ascii) (s t : string) :
  Path.rfind c (s ++ t) =
  if (0 <=? Path.rfind c t)%Z then (Z.of_nat (String.length s) + Path.rfind c t)%Z
  else Path.rfind c s.
Proof.
  induction s as [| a s IH]; cbn [append Path.rfind String.length].
  - destruct (0 <=? Path.rfind c t)%Z eqn:E; [lia |].
    pose proof (rfind_bounds c t). lia.
  - rewrite IH. destruct (0 <=? Path.rfind c t)%Z eqn:E.
    + destruct (0 <=? Z.of_nat (String.length s) + Path.rfind c t)%Z eqn:F; lia.
    + reflexivity.
Qed.

Lemma past_leading_dots_append (a b : string) (i n : nat) :
  Path.past_leading_dots (a ++ b) (String.length a + i) n = Path.past_leading_dots b i n.
Proof.
  revert i. induction n as [| n IH]; intros i; cbn [Path.past_leading_dots]; [reflexivity |].
  rewrite get_append, plus_n_Sm, IH. reflexivity.
Qed.


Lemma rfind_directory (pre : string) :
  directory pre -> (Path.rfind Path.slash pre + 1 = Z.of_nat (String.length pre))%Z.
Proof.
  intros [-> | [q ->]]; [reflexivity |].
  rewrite rfind_append, length_append. cbn. lia.
Qed.

Lemma splitext_in_directory (pre name : string) (k : nat) :
  directory pre ->
  Path.rfind Path.slash name = (-1)%Z ->
  Path.rfind Path.dot name = Z.of_nat k ->
  Path.past_leading_dots name 0 k = true ->
  snd (Path.splitext (pre ++ name))
  = substring k (String.length name - k) name.
Proof.
  intros Hpre Hsep Hdot Hpast. unfold Path.splitext.
  pose proof (rfind_directory pre Hpre) as Hlen.
  rewrite !rfind_append, Hsep, Hdot.
  replace (0 <=? -1)%Z with false by reflexivity.
  replace (0 <=? Z.of_nat k)%Z with true by (symmetry; apply Z.leb_le; lia).
  replace (Path.rfind Path.slash pre <? Z.of_nat (String.length pre) + Z.of_nat k)%Z
    with true by (symmetry; apply Z.ltb_lt; lia).
  replace (Z.to_nat (Path.rfind Path.slash pre + 1)) with (String.length pre + 0)%nat by lia.
  replace (Z.to_nat (Z.of_nat (String.length pre) + Z.of_nat k - (Path.rfind Path.slash pre + 1)))
    with k by lia.
  rewrite past_leading_dots_append, Hpast. cbn [snd].
  replace (Z.to_nat (Z.of_nat (String.length pre) + Z.of_nat k))
    with (String.length pre + k)%nat by lia.
  rewrite length_append, substring_append. f_equal. lia.
Qed.

Lemma join_snoc (sep : string) (l : list string) (x : string) :
  Path.join sep (l ++ [x]) =
  match l with [] => x | _ => Path.join sep l ++ sep ++ x end.
Proof.
  induction l as [| a l IH]; [reflexivity |].
  destruct l as [| b l]; [reflexivity |].
  change (Path.join sep ((a :: b :: l) ++ [x])) with (a ++ sep ++ Path.join sep ((b :: l) ++ [x])).
  rewrite IH. change (Path.join sep (a :: b :: l)) with (a ++ sep ++ Path.join sep (b :: l)).
  now rewrite !append_assoc.
Qed.

Lemma append_not_empty (a b : string) : b <> "" -> a ++ b <> "".
Proof. destruct a; cbn; [easy | discriminate]. Qed.

Lemma fspath_truediv (p : Path.t) (name : string) :
  Path.of_string name = {| Path.root := ""; Path.parts := [name] |} ->
  name <> "" ->
  Path.fspath (Path.truediv p name) = dir_prefix p ++ name.
Proof.
  intros Hname Hne. unfold Path.truediv. rewrite Hname. cbn [Path.root Path.parts String.eqb].
  unfold Path.fspath, dir_prefix. cbn [Path.root Path.parts]. rewrite join_snoc.
  assert (E : Path.root p ++ match Path.parts p with [] => name | _ :: _ => Path.join "/" (Path.parts p) ++ "/" ++ name end
            = (Path.root p ++ match Path.parts p with [] => "" | _ :: _ => Path.join "/" (Path.parts p) ++ "/" end) ++ name).
  { destruct (Path.parts p); [now rewrite append_nil_r | now rewrite !append_assoc]. }
  rewrite E.
  destruct (String.eqb_spec
              ((Path.root p ++ match Path.parts p with [] => "" | _ :: _ => Path.join "/" (Path.parts p) ++ "/" end) ++ name) "")
    as [H | _]; [| reflexivity].
  now apply append_not_empty in H.
Qed.

Lemma directory_of_string (d : string) : directory (dir_prefix (Path.of_string d)).
Proof.
  unfold dir_prefix, Path.of_string, Path.root_of. cbn [Path.root Path.parts].
  set (ps := List.filter Path.component (Path.split Path.slash d "")).
  destruct ps as [| a ps].
  - destruct (Path.leading_slashes d) as [| [| [| n]]]; cbn.
    + now left.
    + right. now exists "".
    + right. now exists "/".
    + right. now exists "".
  - right. eexists. rewrite <- append_assoc. reflexivity.
Qed.

Lemma front_png_ext (d : string) :
  snd (Path.splitext (Path.fspath (Path.truediv (Path.of_string d) "front.png"))) = ".png".
Proof.
  rewrite fspath_truediv; [| reflexivity | discriminate].
  rewrite (splitext_in_directory _ "front.png" 5);
    [reflexivity | apply directory_of_string | reflexivity ..].
Qed.

Lemma back_png_ext (d : string) :
  snd (Path.splitext (Path.fspath (Path.truediv (Path.of_string d) "back.png"))) = ".png".
Proof.
  rewrite fspath_truediv; [| reflexivity | discriminate].
  rewrite (splitext_in_directory _ "back.png" 4);
    [reflexivity | apply directory_of_string | reflexivity ..].
Qed.

(** ** Faults other than the unsupported-type one *)

(** Only [svgToBitmap] raises the unsupported-type fault: every other
    function of the generator is [quiet].  The lemmas follow the call
    graph; [quiet_step] takes a computation apart along its binds, loops
    and case distinctions. *)

Lemma quiet_Ok {A} (a : A) : quiet (Ok a).
Proof. reflexivity. Qed.

Lemma quiet_bind {A B} (m : result A) (k : A -> result B) :
  quiet m -> (forall a, quiet (k a)) -> quiet (bind m k).
Proof. destruct m as [a | e]; cbn [bind]; [auto | now intros H _]. Qed.

Lemma quiet_foldM {A S} (body : S -> A -> result S) (xs : list A) :
  (forall acc x, quiet (body acc x)) -> forall acc, quiet (foldM body xs acc).
Proof.
  intros H. induction xs as [| x xs IH]; intros acc; cbn [foldM].
  - apply quiet_Ok.
  - apply quiet_bind; [apply H | exact IH].
Qed.

Create HintDb quiet.
#[local] Hint Resolve quiet_Ok quiet_bind quiet_foldM : quiet.

Ltac quiet_step :=
  match goal with
  | |- quiet (Ok _) => reflexivity
  | |- quiet (Raise _) => reflexivity
  | |- quiet (bind _ _) => apply quiet_bind; [| intros ?]
  | |- quiet (foldM _ _ _) => apply quiet_foldM; intros ? ?
  | |- quiet (match ?x with _ => _ end) => destruct x
  | |- quiet (if ?x then _ else _) => destruct x
  | |- quiet _ => solve [auto with quiet]
  end.

Lemma quiet_getitem obj k : quiet (getitem obj k).
Proof. unfold getitem. repeat quiet_step. Qed.
Lemma quiet_get obj k d : quiet (Py.get obj k d).
Proof. unfold Py.get. repeat quiet_step. Qed.
Lemma quiet_items_of obj : quiet (items_of obj).
Proof. unfold items_of. repeat quiet_step. Qed.
Lemma quiet_values_of obj : quiet (values_of obj).
Proof. unfold values_of. repeat quiet_step. Qed.
Lemma quiet_keys_of obj : quiet (keys_of obj).
Proof. unfold keys_of. repeat quiet_step. Qed.
Lemma quiet_iter obj : quiet (iter obj).
Proof. unfold iter. repeat quiet_step. Qed.
Lemma quiet_add s v : quiet (add s v).
Proof. unfold add. repeat quiet_step. Qed.
#[local] Hint Resolve quiet_getitem quiet_get quiet_items_of quiet_values_of quiet_keys_of quiet_iter quiet_add : quiet.
Lemma quiet_update1 s it : quiet (update1 s it).
Proof. unfold update1. repeat quiet_step. Qed.
#[local] Hint Resolve quiet_update1 : quiet.
Lemma quiet_update s its : quiet (update s its).
Proof. unfold update. repeat quiet_step. Qed.
Lemma quiet_sort l : quiet (sort l).
Proof. unfold sort. repeat quiet_step. Qed.
Lemma quiet_dict_of_keys leaf ks : quiet (dict_of_keys leaf ks).
Proof. unfold dict_of_keys. repeat quiet_step. Qed.
Lemma quiet_as_length v : quiet (as_length v).
Proof. unfold as_length. repeat quiet_step. Qed.
#[local] Hint Resolve quiet_update quiet_sort quiet_dict_of_keys quiet_as_length : quiet.
Lemma quiet_pinDefinition s p fp : quiet (pinDefinition s p fp).
Proof. unfold pinDefinition. repeat quiet_step. Qed.
#[local] Hint Resolve quiet_pinDefinition : quiet.
Lemma quiet_pinsOfPads spec fp pads : quiet (pinsOfPads spec fp pads).
Proof. induction pads as [| p pads IH]; cbn [pinsOfPads]; repeat quiet_step. Qed.
#[local] Hint Resolve quiet_pinsOfPads : quiet.
Lemma quiet_pinsDefinition spec fp : quiet (pinsDefinition spec fp).
Proof. unfold pinsDefinition. repeat quiet_step. Qed.
Lemma quiet_findModule b ref : quiet (findModule b ref).
Proof. unfold findModule. repeat quiet_step. Qed.
#[local] Hint Resolve quiet_pinsDefinition quiet_findModule : quiet.
Lemma quiet_componentsDefinition spec b : quiet (componentsDefinition spec b).
Proof. unfold componentsDefinition. repeat quiet_step. Qed.
Lemma quiet_collectGroups components : quiet (collectGroups components).
Proof. unfold collectGroups. repeat quiet_step. Qed.
#[local] Hint Resolve quiet_componentsDefinition quiet_collectGroups : quiet.

Lemma quiet_validateEntries (entries : dict) :
  Forall (fun kv => quiet (validateGroupStructure (snd kv))) entries ->
  forall newStruct, quiet (validateEntries validateGroupStructure entries newStruct).
Proof.
  induction 1 as [| [k w] rest Hw _ IH]; intros newStruct; cbn [validateEntries].
  - reflexivity.
  - cbn [snd] in Hw.
    destruct k; try reflexivity.
    destruct w; try apply IH.
    + apply quiet_bind; [auto with quiet | intros ?; apply IH].
    + apply quiet_bind; [exact Hw | intros ?; apply IH].
Qed.

Lemma quiet_validateGroupStructure struct : quiet (validateGroupStructure struct).
Proof.
  induction struct as [| | | | | | entries IH] using value_nested_ind;
    try reflexivity.
  cbn [validateGroupStructure]. apply quiet_validateEntries.
  apply Forall_impl with (2 := IH). intros kv [_ H]. exact H.
Qed.
#[local] Hint Resolve quiet_validateGroupStructure : quiet.

Lemma quiet_groupStructure structure components :
  quiet (groupStructure structure components).
Proof. unfold groupStructure. destruct structure; auto with quiet. Qed.
#[local] Hint Resolve quiet_groupStructure : quiet.

Lemma quiet_assemble b specification f k : quiet (assemble b specification f k).
Proof. unfold assemble. repeat quiet_step. Qed.

(** ** Image generation *)

Ltac norm_log := cbn [log temps orb]; rewrite <- ?app_assoc; cbn [app].

Section GeneratorProperties.

Variable mkdtemp : nat -> string.
Variable pcbdraw : list string -> Z * option vector_file.
Variable float : Text.t -> option B64.t.

(** [generateImage] case by case: the renderer always runs; a bitmap is
    opened and written only on a rasterisable file and a supported
    extension; the temporary directory always goes. *)
Lemma generateImage_eq (boardfilename : string) (out : Path.t) (dpi : Q)
    (args : pcbdrawArgs) (back : bool) (st : state) :
  let d := mkdtemp (temps st) in
  let svg := Path.fspath (Path.truediv (Path.of_string d) "img.svg") in
  let cmd :=
    command boardfilename (Path.truediv (Path.of_string d) "img.svg") args back in
  let ext := snd (Path.splitext (Path.fspath out)) in
  generateImage mkdtemp pcbdraw float boardfilename out dpi args back st =
  if (fst (pcbdraw cmd) =? 0)%Z then
    match image_read svg (snd (pcbdraw cmd)) with
    | Ok image =>
        if supported ext then
          (activeArea float svg (snd (pcbdraw cmd)),
           after st [MkTemp d; Run cmd; OpenFile (Path.fspath out);
                     WriteFile (Path.fspath out) (Blob (encoder ext) image dpi);
                     RmTemp d])
        else (Raise (unsupported ext), after st [MkTemp d; Run cmd; RmTemp d])
    | Raise e => (Raise e, after st [MkTemp d; Run cmd; RmTemp d])
    end
  else (Raise (CalledProcessError (fst (pcbdraw cmd))),
        after st [MkTemp d; Run cmd; RmTemp d]).
Proof.
  intros d svg cmd ext.
  cbv beta iota zeta delta
    [generateImage TemporaryDirectory bindIO run perform svgToBitmap lift
     ret throw after supported encoder unsupported activeArea].
  cbn [log temps].
  fold d. fold cmd. fold svg. fold ext.
  destruct (pcbdraw cmd) as [code f]. cbn [fst snd].
  destruct (code =? 0)%Z; [| norm_log; reflexivity].
  destruct (image_read svg f) as [image | e]; [| norm_log; reflexivity].
  destruct (Path.lower ext =? ".png")%string.
  { norm_log.
    destruct (root_attrib_viewBox svg f) as [vb |]; cbn [bind]; norm_log;
      [| reflexivity].
    destruct (unpack_floats float 4 (Text.split vb)) as [ns |];
      cbn [bind]; norm_log; [| reflexivity].
    destruct ns as [| ? [| ? [| ? [| ? [| ? ?]]]]];
      cbn [ki2mm dmil2ki times bind]; norm_log; reflexivity. }
  cbn [orb].
  destruct ((Path.lower ext =? ".jpg") || (Path.lower ext =? ".jpeg"))%string.
  { norm_log.
    destruct (root_attrib_viewBox svg f) as [vb |]; cbn [bind]; norm_log;
      [| reflexivity].
    destruct (unpack_floats float 4 (Text.split vb)) as [ns |];
      cbn [bind]; norm_log; [| reflexivity].
    destruct ns as [| ? [| ? [| ? [| ? [| ? ?]]]]];
      cbn [ki2mm dmil2ki times bind]; norm_log; reflexivity. }
  norm_log; reflexivity.
Qed.

(** C4, as the code has it: on an extension other than .png, .jpg and
    .jpeg the renderer is started all the same and the run then aborts
    with nothing opened or written for that side; the fault is the
    unsupported-type one when the renderer exits with 0 and leaves a
    file the rasteriser can read. *)
Theorem generateImage_unsupported_extension (boardfilename : string)
    (out : Path.t) (dpi : Q) (args : pcbdrawArgs) (back : bool) (st : state)
    (Hext : supported (snd (Path.splitext (Path.fspath out))) = false) :
  let d := mkdtemp (temps st) in
  let cmd :=
    command boardfilename (Path.truediv (Path.of_string d) "img.svg") args back in
  let run := generateImage mkdtemp pcbdraw float boardfilename out dpi args back st in
  is_ok (fst run) = false /\
  snd run = after st [MkTemp d; Run cmd; RmTemp d] /\
  (forall f, pcbdraw cmd = (0%Z, Some f) -> rasterisable f = true ->
             fst run = Raise (unsupported (snd (Path.splitext (Path.fspath out))))).
Proof.
  intros d cmd run. subst run. rewrite generateImage_eq.
  fold d. fold cmd. rewrite Hext.
  destruct (pcbdraw cmd) as [code f] eqn:E. cbn [fst snd].
  destruct (code =? 0)%Z eqn:Ec.
  - destruct (image_read _ f) as [image | e] eqn:Er; cbn [fst snd is_ok].
    + repeat split.
    + repeat split. intros f' [= -> ->] Hr. cbn [image_read] in Er.
      rewrite Hr in Er. discriminate.
  - cbn [fst snd is_ok]. repeat split.
    intros f' [= -> ->]. discriminate.
Qed.

(** C8, as the code has it: when the renderer leaves a vector file whose
    viewBox is the four numbers x y w h and the bitmap is written,
    [generateImage] returns the box whose corners are [ki2mm] of
    [dmil2ki] of x, y and of the float sums x + w, y + h.  On finite
    numbers of moderate size each coordinate is 0.00254 times the exact
    number, to one part in a thousand million. *)
Theorem generateImage_active_area (boardfilename : string) (out : Path.t)
    (dpi : Q) (args : pcbdrawArgs) (back : bool) (st : state)
    (f : vector_file) (viewBox sx sy sw sh : Text.t) (x y w h : B64.t)
    (Hext : supported (snd (Path.splitext (Path.fspath out))) = true)
    (Hrun : pcbdraw (command boardfilename
                       (Path.truediv (Path.of_string (mkdtemp (temps st))) "img.svg")
                       args back) = (0%Z, Some f))
    (Hread : rasterisable f = true)
    (Hbox : root_viewBox f = Some (Some viewBox))
    (Hwords : Text.split viewBox = [sx; sy; sw; sh])
    (Hx : float sx = Some x) (Hy : float sy = Some y)
    (Hw : float sw = Some w) (Hh : float sh = Some h) :
  exists box,
    fst (generateImage mkdtemp pcbdraw float boardfilename out dpi args back st)
      = Ok box /\
    (ki2mm (dmil2ki (PFloat x)) = Ok (fst (tl box)) /\
     ki2mm (dmil2ki (PFloat y)) = Ok (snd (tl box)) /\
     ki2mm (dmil2ki (PFloat (B64.add x w))) = Ok (fst (br box)) /\
     ki2mm (dmil2ki (PFloat (B64.add y h))) = Ok (snd (br box))) /\
    (B64.is_finite x = true -> sizeable (B64.to_Q x) ->
     within (1 # 1000000000) (fst (tl box)) (B64.to_Q x * 0.00254)) /\
    (B64.is_finite y = true -> sizeable (B64.to_Q y) ->
     within (1 # 1000000000) (snd (tl box)) (B64.to_Q y * 0.00254)) /\
    (B64.is_finite x = true -> B64.is_finite w = true ->
     sizeable (B64.to_Q x + B64.to_Q w) ->
     within (1 # 1000000000) (fst (br box))
            ((B64.to_Q x + B64.to_Q w) * 0.00254)) /\
    (B64.is_finite y = true -> B64.is_finite h = true ->
     sizeable (B64.to_Q y + B64.to_Q h) ->
     within (1 # 1000000000) (snd (br box))
            ((B64.to_Q y + B64.to_Q h) * 0.00254)).
Proof.
  rewrite generateImage_eq. rewrite Hrun. cbn [fst snd image_read].
  rewrite Hread, Hext. cbn [fst].
  unfold activeArea, root_attrib_viewBox. rewrite Hbox. cbn [bind].
  rewrite Hwords. cbn [unpack_floats]. unfold to_float.
  rewrite Hx, Hy, Hw, Hh. cbn [bind ki2mm dmil2ki times].
  eexists. split; [reflexivity |]. cbn [tl br fst snd].
  split; [repeat split |].
  split; [| split; [| split]].
  - intros F S. destruct (decimils_float x F S) as (r & E & W).
    cbn [ki2mm dmil2ki times] in E. injection E as <-. exact W.
  - intros F S. destruct (decimils_float y F S) as (r & E & W).
    cbn [ki2mm dmil2ki times] in E. injection E as <-. exact W.
  - intros F F' S. destruct (decimils_sum x w F F' S) as (r & E & W).
    cbn [ki2mm dmil2ki times] in E. injection E as <-. exact W.
  - intros F F' S. destruct (decimils_sum y h F F' S) as (r & E & W).
    cbn [ki2mm dmil2ki times] in E. injection E as <-. exact W.
Qed.

(** A renderer that exits with a status other than 0 ends the side with
    that status; nothing is opened or written, and the temporary
    directory is removed. *)
Theorem generateImage_renderer_failure (boardfilename : string) (out : Path.t)
    (dpi : Q) (args : pcbdrawArgs) (back : bool) (st : state)
    (returncode : Z) (left : option vector_file) :
  let d := mkdtemp (temps st) in
  let cmd :=
    command boardfilename (Path.truediv (Path.of_string d) "img.svg") args back in
  pcbdraw cmd = (returncode, left) ->
  returncode <> 0%Z ->
  generateImage mkdtemp pcbdraw float boardfilename out dpi args back st
  = (Raise (CalledProcessError returncode),
     after st [MkTemp d; Run cmd; RmTemp d]).
Proof.
  intros d cmd Hrun Hcode. rewrite generateImage_eq. fold d. fold cmd.
  rewrite Hrun. cbn [fst snd].
  destruct (Z.eqb_spec returncode 0); [contradiction | reflexivity].
Qed.

End GeneratorProperties.

(** ** The whole run *)

Lemma forallb_none {A} (p q : A -> bool) (l : list A) :
  (forall a, p a = true -> q a = false) ->
  forallb p l = true -> existsb q l = false.
Proof.
  intros H. induction l as [| a l IH]; [reflexivity |].
  cbn [forallb existsb]. intros E. apply andb_true_iff in E.
  destruct E as [Ea El]. now rewrite (H a Ea), (IH El).
Qed.

Lemma forallb_weaken {A} (p q : A -> bool) (l : list A) :
  (forall a, p a = true -> q a = true) ->
  forallb p l = true -> forallb q l = true.
Proof.
  intros H E. apply forallb_forall. intros a Ha. apply H.
  revert a Ha. now apply forallb_forall.
Qed.

(** The effects of one side do not touch any other file. *)
Lemma side_effect_elsewhere (path ext other : string) (e : effect) :
  path <> other -> side_effect path ext e = true -> touches other e = false.
Proof.
  intros Hne. destruct e as [| | | | p | p c]; try reflexivity; cbn.
  - intros E. apply String.eqb_eq in E. subst p. now apply String.eqb_neq.
  - destruct c; [| discriminate]. intros E. apply andb_true_iff in E.
    destruct E as [E _]. apply String.eqb_eq in E. subst p.
    now apply String.eqb_neq.
Qed.

(** With a .png extension every bitmap written is a 32-bit PNG. *)
Lemma side_effect_png (path ext : string) (e : effect) :
  Path.lower ext = ".png" -> side_effect path ext e = true -> png_only e = true.
Proof.
  intros Hext. destruct e as [| | | | p | p c]; try reflexivity.
  destruct c; [| reflexivity]. cbn. unfold encoder. rewrite Hext. cbn.
  intros E. apply andb_true_iff in E. apply E.
Qed.

Lemma names_differ (p : Path.t) (a b : string) :
  Path.of_string a = {| Path.root := ""; Path.parts := [a] |} ->
  Path.of_string b = {| Path.root := ""; Path.parts := [b] |} ->
  a <> "" -> b <> "" -> a <> b ->
  Path.fspath (Path.truediv p a) <> Path.fspath (Path.truediv p b).
Proof.
  intros Ha Hb Hae Hbe Hab. rewrite !fspath_truediv by assumption.
  intros E. apply append_inv_head in E. contradiction.
Qed.

Section RunProperties.

Variable mkdtemp : nat -> string.
Variable pcbdraw : list string -> Z * option vector_file.
Variable float : Text.t -> option B64.t.

Lemma quiet_activeArea (svgfilename : string) (svgfile : option vector_file) :
  quiet (activeArea float svgfilename svgfile).
Proof.
  unfold activeArea, root_attrib_viewBox.
  destruct svgfile as [v |]; [| reflexivity].
  destruct (root_viewBox v) as [[vb |] |]; try reflexivity. cbn [bind].
  destruct (unpack_floats float 4 (Text.split vb)) as [ns | e] eqn:E.
  - cbn [bind]. destruct ns as [| ? [| ? [| ? [| ? [| ? ?]]]]]; reflexivity.
  - cbn [bind]. revert e E. generalize (Text.split vb) as tokens.
    generalize 4%nat as n.
    induction n as [| n IH]; intros [| t tokens] e; cbn [unpack_floats];
      unfold to_float; try discriminate.
    + destruct (float t); cbn [bind]; intros [= <-]; reflexivity.
    + intros [= <-]; reflexivity.
    + destruct (float t); cbn [bind]; [| intros [= <-]; reflexivity].
      destruct (unpack_floats float n tokens) eqn:En; cbn [bind];
        [discriminate |]. intros [= <-]. exact (IH tokens _ En).
Qed.

(** What one side does, whatever its outcome. *)
Lemma generateImage_effects (boardfilename : string) (out : Path.t) (dpi : Q)
    (args : pcbdrawArgs) (back : bool) (st : state) :
  let ext := snd (Path.splitext (Path.fspath out)) in
  let outcome :=
    generateImage mkdtemp pcbdraw float boardfilename out dpi args back st in
  exists new,
    snd outcome = after st new /\
    forallb (side_effect (Path.fspath out) ext) new = true /\
    (supported ext = true -> quiet (fst outcome)).
Proof.
  intros ext outcome. subst outcome. rewrite generateImage_eq. fold ext.
  set (d := mkdtemp (temps st)).
  set (cmd := command boardfilename _ args back).
  destruct (fst (pcbdraw cmd) =? 0)%Z.
  - destruct (image_read _ (snd (pcbdraw cmd))) as [image | e] eqn:Er.
    + destruct (supported ext) eqn:Es; eexists; cbn [fst snd];
        (split; [reflexivity |]); cbn [forallb side_effect andb];
        rewrite ?String.eqb_refl; cbn [andb]; (split; [reflexivity |]).
      * intros _. apply quiet_activeArea.
      * discriminate.
    + eexists. cbn [fst snd]. repeat split.
      destruct (snd (pcbdraw cmd)) as [v |]; cbn [image_read] in Er.
      * destruct (rasterisable v); [discriminate | now inversion Er].
      * now inversion Er.
  - eexists. cbn [fst snd]. repeat split.
Qed.

(** [generate] stage by stage. *)
Lemma generate_eq (b : board) (specification : value) (outputdir : string)
    (dpi : Q) (args : pcbdrawArgs) (st : state) :
  let dir := Path.of_string outputdir in
  let json := Path.fspath (Path.truediv dir "spec.json") in
  let st1 := {| log := (log st ++ [Mkdir (Path.fspath dir)])%list;
                temps := temps st |} in
  let F := generateImage mkdtemp pcbdraw float (GetFileName b)
             (Path.truediv dir "front.png") dpi args false st1 in
  let B := generateImage mkdtemp pcbdraw float (GetFileName b)
             (Path.truediv dir "back.png") dpi args true (snd F) in
  generate mkdtemp pcbdraw float b specification outputdir dpi args st =
  match fst F with
  | Raise e => (Raise e, snd F)
  | Ok fSource =>
      match fst B with
      | Raise e => (Raise e, snd B)
      | Ok bSource =>
          match assemble b specification fSource bSource with
          | Raise e => (Raise e, snd B)
          | Ok doc =>
              (Ok tt,
               {| log := (log (snd B)
                            ++ [OpenFile json; WriteFile json (Json doc)])%list;
                  temps := temps (snd B) |})
          end
      end
  end.
Proof.
  intros dir json st1 F B.
  cbv beta iota zeta delta [generate bindIO perform lift assemble].
  cbn [log temps]. fold dir. fold st1. fold F.
  destruct F as [[fSource | e] s2] eqn:EF; cbn [fst snd]; [| reflexivity].
  subst B. cbn [snd].
  destruct (generateImage mkdtemp pcbdraw float (GetFileName b)
              (Path.truediv dir "back.png") dpi args true s2)
    as [[bSource | e] s3]; cbn [fst snd]; [| reflexivity].
  destruct (getitem specification (VStr "name")) as [name |]; cbn [bind];
    [| reflexivity].
  destruct (getitem specification (VStr "description")) as [description |];
    cbn [bind]; [| reflexivity].
  destruct (c <- getitem specification (VStr "components");;
            componentsDefinition c b)
    as [components |]; cbn [bind]; [| reflexivity].
  destruct (g <- Py.get specification (VStr "groups") VNone;;
            c <- getitem specification (VStr "components");; groupStructure g c)
    as [groups |]; cbn [bind]; [| reflexivity].
  cbn [log temps]. rewrite <- app_assoc. reflexivity.
Qed.

Lemma assemble_stages (b : board) (specification : value)
    (fSource bSource : BoundingBox) (doc : OutputDocument) :
  assemble b specification fSource bSource = Ok doc ->
  exists name description components groups,
    getitem specification (VStr "name") = Ok name /\
    getitem specification (VStr "description") = Ok description /\
    (c <- getitem specification (VStr "components") ;;
     componentsDefinition c b) = Ok components /\
    (g <- Py.get specification (VStr "groups") VNone ;;
     c <- getitem specification (VStr "components") ;;
     groupStructure g c) = Ok groups /\
    doc = {| doc_name := name;
             doc_description := description;
             doc_front := {| file := "front.png"; area := fSource |};
             doc_back := {| file := "back.png"; area := bSource |};
             doc_components := components;
             doc_groups := groups |}.
Proof.
  unfold assemble.
  destruct (getitem specification (VStr "name")) as [name |]; [| discriminate].
  destruct (getitem specification (VStr "description")) as [description |];
    [| discriminate].
  cbn [bind].
  destruct (c <- getitem specification (VStr "components");;
            componentsDefinition c b) as [components |]; [| discriminate].
  cbn [bind].
  destruct (g <- Py.get specification (VStr "groups") VNone;;
            c <- getitem specification (VStr "components");; groupStructure g c)
    as [groups |]; [| discriminate].
  cbn [bind]. intros [= <-]. now exists name, description, components, groups.
Qed.

(** C9: a run that ends in a fault has neither opened nor written
    spec.json; a run that ends well has opened and written it last, after
    both images were generated and the components and the groups were
    built. *)
Theorem generate_persists_last (b : board) (specification : value)
    (outputdir : string) (dpi : Q) (args : pcbdrawArgs) (st : state) :
  let dir := Path.of_string outputdir in
  let json := Path.fspath (Path.truediv dir "spec.json") in
  let st1 := {| log := (log st ++ [Mkdir (Path.fspath dir)])%list;
                temps := temps st |} in
  let F := generateImage mkdtemp pcbdraw float (GetFileName b)
             (Path.truediv dir "front.png") dpi args false st1 in
  let B := generateImage mkdtemp pcbdraw float (GetFileName b)
             (Path.truediv dir "back.png") dpi args true (snd F) in
  let outcome :=
    generate mkdtemp pcbdraw float b specification outputdir dpi args st in
  exists new,
    log (snd outcome) = (log st ++ new)%list /\
    match fst outcome with
    | Raise _ => existsb (touches json) new = false
    | Ok _ =>
        exists earlier fSource bSource components groups doc,
          new = (earlier ++ [OpenFile json; WriteFile json (Json doc)])%list /\
          existsb (touches json) earlier = false /\
          fst F = Ok fSource /\
          fst B = Ok bSource /\
          (c <- getitem specification (VStr "components") ;;
           componentsDefinition c b) = Ok components /\
          (g <- Py.get specification (VStr "groups") VNone ;;
           c <- getitem specification (VStr "components") ;;
           groupStructure g c) = Ok groups /\
          area (doc_front doc) = fSource /\
          area (doc_back doc) = bSource /\
          doc_components doc = components /\
          doc_groups doc = groups
    end.
Proof.
  intros dir json st1 F B outcome. subst outcome. rewrite generate_eq.
  fold dir. fold json. fold st1. fold F. fold B.
  destruct (generateImage_effects (GetFileName b) (Path.truediv dir "front.png")
              dpi args false st1) as (newF & HsF & HallF & _).
  destruct (generateImage_effects (GetFileName b) (Path.truediv dir "back.png")
              dpi args true (snd F)) as (newB & HsB & HallB & _).
  fold F in HsF. fold B in HsB.
  assert (Hf : existsb (touches json) newF = false).
  { apply forallb_none with (2 := HallF). intros e.
    apply side_effect_elsewhere. subst json.
    apply names_differ; [reflexivity | reflexivity | discriminate ..]. }
  assert (Hb : existsb (touches json) newB = false).
  { apply forallb_none with (2 := HallB). intros e.
    apply side_effect_elsewhere. subst json.
    apply names_differ; [reflexivity | reflexivity | discriminate ..]. }
  assert (LF : log (snd F) = (log st ++ Mkdir (Path.fspath dir) :: newF)%list).
  { rewrite HsF. cbn [after log st1]. now rewrite <- app_assoc. }
  assert (LB : log (snd B)
               = (log st ++ Mkdir (Path.fspath dir) :: newF ++ newB)%list).
  { rewrite HsB. cbn [after log]. rewrite LF, <- app_assoc. reflexivity. }
  destruct (fst F) as [fSource | e].
  2:{ exists (Mkdir (Path.fspath dir) :: newF). cbn [fst snd].
      split; [exact LF | exact Hf]. }
  destruct (fst B) as [bSource | e].
  2:{ exists (Mkdir (Path.fspath dir) :: newF ++ newB)%list. cbn [fst snd].
      split; [exact LB |]. cbn [existsb touches]. rewrite existsb_app, Hf, Hb.
      reflexivity. }
  destruct (assemble b specification fSource bSource) as [doc | e] eqn:Ea.
  2:{ exists (Mkdir (Path.fspath dir) :: newF ++ newB)%list. cbn [fst snd].
      split; [exact LB |]. cbn [existsb touches]. rewrite existsb_app, Hf, Hb.
      reflexivity. }
  destruct (assemble_stages _ _ _ _ _ Ea)
    as (name & description & components & groups & _ & _ & Hc & Hg & ->).
  eexists. cbn [fst snd log]. split.
  { rewrite LB, <- app_assoc. reflexivity. }
  exists (Mkdir (Path.fspath dir) :: newF ++ newB)%list, fSource, bSource,
    components, groups. eexists.
  split; [reflexivity |]. split.
  { cbn [existsb touches]. rewrite existsb_app, Hf, Hb. reflexivity. }
  repeat split; assumption.
Qed.

(** C10: the two bitmaps of a run are named front.png and back.png, so
    their extension is .png wherever the output directory is: no run ends
    in the unsupported-type fault, and every bitmap a run writes is a
    32-bit PNG, never a JPEG. *)
Theorem generate_png_only (b : board) (specification : value)
    (outputdir : string) (dpi : Q) (args : pcbdrawArgs) (st : state) :
  let dir := Path.of_string outputdir in
  let outcome :=
    generate mkdtemp pcbdraw float b specification outputdir dpi args st in
  snd (Path.splitext (Path.fspath (Path.truediv dir "front.png"))) = ".png" /\
  snd (Path.splitext (Path.fspath (Path.truediv dir "back.png"))) = ".png" /\
  is_unsupported (fst outcome) = false /\
  exists new,
    log (snd outcome) = (log st ++ new)%list /\
    forallb png_only new = true.
Proof.
  intros dir outcome. subst outcome dir.
  split; [apply front_png_ext |]. split; [apply back_png_ext |].
  rewrite generate_eq.
  set (dir := Path.of_string outputdir).
  set (st1 := {| log := _; temps := temps st |}).
  set (F := generateImage mkdtemp pcbdraw float (GetFileName b)
              (Path.truediv dir "front.png") dpi args false st1).
  set (B := generateImage mkdtemp pcbdraw float (GetFileName b)
              (Path.truediv dir "back.png") dpi args true (snd F)).
  destruct (generateImage_effects (GetFileName b) (Path.truediv dir "front.png")
              dpi args false st1) as (newF & HsF & HallF & HqF).
  destruct (generateImage_effects (GetFileName b) (Path.truediv dir "back.png")
              dpi args true (snd F)) as (newB & HsB & HallB & HqB).
  fold F in HsF, HqF. fold B in HsB, HqB.
  unfold dir in HallF, HallB, HqF, HqB.
  rewrite front_png_ext in HallF, HqF. rewrite back_png_ext in HallB, HqB.
  specialize (HqF eq_refl). specialize (HqB eq_refl).
  apply (forallb_weaken _ png_only) in HallF;
    [| intros e; now apply side_effect_png].
  apply (forallb_weaken _ png_only) in HallB;
    [| intros e; now apply side_effect_png].
  assert (LF : log (snd F) = (log st ++ Mkdir (Path.fspath dir) :: newF)%list).
  { rewrite HsF. cbn [after log st1]. now rewrite <- app_assoc. }
  assert (LB : log (snd B)
               = (log st ++ Mkdir (Path.fspath dir) :: newF ++ newB)%list).
  { rewrite HsB. cbn [after log]. rewrite LF, <- app_assoc. reflexivity. }
  assert (Hall : forallb png_only (Mkdir (Path.fspath dir) :: newF ++ newB) = true).
  { cbn [forallb png_only andb]. now rewrite forallb_app, HallF, HallB. }
  destruct (fst F) as [fSource | e] eqn:EF.
  2:{ split; [exact HqF |]. exists (Mkdir (Path.fspath dir) :: newF).
      split; [exact LF | exact HallF]. }
  destruct (fst B) as [bSource | e] eqn:EB.
  2:{ split; [exact HqB |]. exists (Mkdir (Path.fspath dir) :: newF ++ newB)%list.
      split; [exact LB | exact Hall]. }
  pose proof (quiet_assemble b specification fSource bSource) as Hq.
  destruct (assemble b specification fSource bSource) as [doc | e].
  2:{ split; [exact Hq |]. exists (Mkdir (Path.fspath dir) :: newF ++ newB)%list.
      split; [exact LB | exact Hall]. }
  split; [reflexivity |].
  eexists. cbn [snd log]. split.
  { rewrite LB, <- app_assoc. reflexivity. }
  change (?x :: ?l ++ ?r)%list with ((x :: l) ++ r)%list.
  rewrite forallb_app. cbn [app]. rewrite Hall. reflexivity.
Qed.

End RunProperties.

(** ** The properties of the run on the sample collaborators *)

(** C4, on [out/front.bmp]: the renderer is started, nothing is opened or
    written, and the fault names the extension. *)
Lemma generateImage_unsupported_extension_bmp :
  is_ok (fst Sample.bmp_run) = false /\
  snd Sample.bmp_run
    = after Sample.start [MkTemp "/tmp/pinion"; Run Sample.front_command;
                          RmTemp "/tmp/pinion"] /\
  fst Sample.bmp_run = Raise (unsupported ".bmp").
Proof.
  destruct (generateImage_unsupported_extension Sample.mkdtemp Sample.pcbdraw
              Sample.decimal "board.kicad_pcb"
              (Path.truediv (Path.of_string "out") "front.bmp") 300
              Sample.no_args false Sample.start eq_refl) as (H1 & H2 & H3).
  split; [exact H1 |]. split; [exact H2 |].
  exact (H3 _ eq_refl eq_refl).
Defined.

(** C4, the counterexample: the run on [out/front.bmp] ends in the
    unsupported-type fault with the renderer already started. *)
Lemma generateImage_bmp_renderer_started :
  fst Sample.bmp_run = Raise (unsupported ".bmp") /\
  existsb is_Run (log (snd Sample.bmp_run)) = true /\
  existsb is_output (log (snd Sample.bmp_run)) = false.
Proof. repeat split. Qed.

(** [str.split] splits at a no-break space as at a space. *)
Example split_no_break_space :
  Text.split [48; 32; 48; 160; 49; 48; 48; 48; 48; 32; 53; 48; 48; 48]%N
  = [[48]; [48]; [49; 48; 48; 48; 48]; [53; 48; 48; 48]]%N.
Proof. reflexivity. Qed.

(** C8, on the viewBox [0 0 10000 5000] of the specification: the active
    area runs from (0, 0) to the floats nearest to 25.4 and 12.7. *)
Lemma generateImage_active_area_sample :
  fst Sample.png_run = Ok Sample.png_box /\
  within (1 # 1000000000) (fst (br Sample.png_box)) 25.4 /\
  within (1 # 1000000000) (snd (br Sample.png_box)) 12.7.
Proof.
  assert (S1 : sizeable (B64.to_Q (B64.of_Z 0) + B64.to_Q (B64.of_Z 10000))).
  { right. split; apply Qle_bool_imp_le; vm_compute; reflexivity. }
  assert (S2 : sizeable (B64.to_Q (B64.of_Z 0) + B64.to_Q (B64.of_Z 5000))).
  { right. split; apply Qle_bool_imp_le; vm_compute; reflexivity. }
  assert (E' : fst Sample.png_run = Ok Sample.png_box)
    by (vm_compute; reflexivity).
  split; [exact E' |].
  destruct (generateImage_active_area Sample.mkdtemp Sample.pcbdraw
              Sample.decimal "board.kicad_pcb"
              (Path.truediv (Path.of_string "out") "front.png") 300
              Sample.no_args false Sample.start Sample.drawing
              (Text.of_string "0 0 10000 5000")
              (Text.of_string "0") (Text.of_string "0")
              (Text.of_string "10000") (Text.of_string "5000")
              (B64.of_Z 0) (B64.of_Z 0) (B64.of_Z 10000) (B64.of_Z 5000)
              eq_refl eq_refl eq_refl eq_refl eq_refl
              eq_refl eq_refl eq_refl eq_refl)
    as (box & E & _ & _ & _ & T3 & T4).
  change (fst Sample.png_run = Ok box) in E. rewrite E' in E.
  injection E as <-.
  split.
  - apply within_weaken with (3 := T3 eq_refl eq_refl S1);
      [apply Qle_refl | vm_compute; reflexivity].
  - apply within_weaken with (3 := T4 eq_refl eq_refl S2);
      [apply Qle_refl | vm_compute; reflexivity].
Defined.

(** C8, the counterexample: on the viewBox [0.1 0.7 0.2 0.1] the right
    edge of the box is not the float nearest to 0.3 * 0.00254, which is
    0.000762, but the next one; nor is it the float product of the sum
    and 0.00254. *)
Lemma generateImage_active_area_inexact :
  fst (br Sample.inexact_box) = S754_finite false 7028209492083340 (-63) /\
  fst Sample.inexact_run = Ok Sample.inexact_box /\
  B64.round ((0.1 + 0.2) * 0.00254) = S754_finite false 7028209492083339 (-63) /\
  B64.mul (B64.add (B64.round 0.1) (B64.round 0.2)) (B64.round 0.00254)
  = S754_finite false 7028209492083341 (-63).
Proof. repeat split; vm_compute; reflexivity. Qed.

(** A failing renderer, on the sample board. *)
Lemma generateImage_renderer_failure_sample :
  Sample.failed_run
  = (Raise (CalledProcessError 1),
     after Sample.start [MkTemp "/tmp/pinion"; Run Sample.front_command;
                         RmTemp "/tmp/pinion"]).
Proof.
  apply (generateImage_renderer_failure Sample.mkdtemp Sample.broken_pcbdraw
           Sample.decimal "board.kicad_pcb"
           (Path.truediv (Path.of_string "out") "front.png") 300
           Sample.no_args false Sample.start 1%Z None);
    [reflexivity | discriminate].
Defined.

(** The end-to-end example of the specification: the run ends well, the
    front area runs from (0, 0) to (25.4, 12.7) millimetres and the one
    component R1 has the pins A and B, in that order. *)
Example generate_resistor :
  fst Sample.resistor_run = Ok tt /\
  exists doc,
    written_document (snd Sample.resistor_run) = Some doc /\
    area (doc_front doc) = Sample.png_box /\
    map (fun c => (comp_ref c, map pin_name (comp_pins c))) (doc_components doc)
    = [(VStr "R1", [VStr "A"; VStr "B"])] /\
    doc_groups doc = VDict [].
Proof.
  split; [vm_compute; reflexivity |]. eexists.
  split; [vm_compute; reflexivity |].
  repeat split.
Qed.

(** A run whose groups structure is refused: both bitmaps are written,
    spec.json is not. *)
Example generate_bad_groups :
  fst Sample.bad_groups_run
    = Raise (RuntimeError [Interp (VInt 5); Lit " is not a dictionary"]) /\
  existsb (touches "out/front.png") (log (snd Sample.bad_groups_run)) = true /\
  existsb (touches "out/back.png") (log (snd Sample.bad_groups_run)) = true /\
  existsb (touches "out/spec.json") (log (snd Sample.bad_groups_run)) = false /\
  written_document (snd Sample.bad_groups_run) = None.
Proof. repeat split. Qed.

(* ===================================================================== *)
(** * Further properties *)
(* ===================================================================== *)

(** ** Pins and components *)

Lemma existsb_layer (l : layer) (ls : list layer) :
  existsb (layer_eqb l) ls = true <-> In l ls.
Proof.
  rewrite existsb_exists. split.
  - intros (m & Hm & E). destruct l, m; try discriminate; try assumption.
    cbn in E. apply Nat.eqb_eq in E. now subst.
  - intros H. exists l. split; [exact H |]. destruct l; cbn; auto using Nat.eqb_refl.
Qed.

(** The pin of a usable PinSpec: its shape is the outline of the pad at
    the clearance [offset] millimetres, 0 by default; its name is the
    one given; description, alias and groups default to the empty
    string, to false and to the empty list; it is on the front or the
    back when the pad has copper there. *)
Theorem pinDefinition_fields (d : dict) (p : pad) (fp : footprint) :
  wf_PinSpec (VDict d) = true ->
  exists pin offset,
    pinDefinition (VDict d) p fp = Ok pin /\
    number (or_default (lookup (VStr "offset") d) (VInt 0)) = Some offset /\
    pin_shape pin = padOutline p (mm2ki offset) /\
    lookup (VStr "name") d = Some (pin_name pin) /\
    pin_description pin = or_default (lookup (VStr "description") d) (VStr "") /\
    pin_alias pin = or_default (lookup (VStr "alias") d) (VBool false) /\
    pin_groups pin = or_default (lookup (VStr "groups") d) (VList []) /\
    (pin_front pin = true <-> In F_Cu (CuStack p)) /\
    (pin_back pin = true <-> In B_Cu (CuStack p)).
Proof.
  unfold wf_PinSpec. intros H. apply andb_true_iff in H. destruct H as [Hn Ho].
  destruct (lookup (VStr "name") d) as [n |] eqn:En; [| discriminate].
  assert (Hq : exists q, number (or_default (lookup (VStr "offset") d) (VInt 0)) = Some q).
  { destruct (lookup (VStr "offset") d) as [o |]; cbn [or_default].
    - destruct (number o) as [q |]; [now exists q | discriminate].
    - now eexists. }
  destruct Hq as [q Hq].
  unfold pinDefinition. rewrite !get_str, (getitem_str d "name" n En).
  cbn [bind]. unfold as_length. fold (or_default (lookup (VStr "offset") d) (VInt 0)).
  rewrite Hq. cbn [bind].
  eexists. exists q. split; [reflexivity |]. cbn.
  repeat split; try reflexivity; try apply existsb_layer.
Qed.

(** A PinSpec without a name is refused: with a usable offset the fault
    is the [KeyError] of the name. *)
Theorem pinDefinition_missing_name (d : dict) (p : pad) (fp : footprint) :
  lookup (VStr "name") d = None ->
  is_ok (pinDefinition (VDict d) p fp) = false /\
  (forall q, number (or_default (lookup (VStr "offset") d) (VInt 0)) = Some q ->
             pinDefinition (VDict d) p fp = Raise (KeyError (VStr "name"))).
Proof.
  intros Hn. unfold pinDefinition. rewrite !get_str. cbn [bind]. unfold as_length.
  fold (or_default (lookup (VStr "offset") d) (VInt 0)).
  cbn [getitem hashable]. rewrite Hn.
  destruct (number (or_default (lookup (VStr "offset") d) (VInt 0))); cbn [bind is_ok].
  - split; [reflexivity | intros; reflexivity].
  - split; [reflexivity | discriminate].
Qed.

(** The pins depend on the entries of the pins mapping under the names
    of the pads only: an entry that names no pad of the footprint is
    never looked at, and raises nothing. *)
Theorem pinsDefinition_named_entries_only (d d' : dict) (fp : footprint) :
  (forall p, In p (Pads fp) ->
     lookup (VStr (GetName p)) d = lookup (VStr (GetName p)) d') ->
  pinsDefinition (VDict d) (Some fp) = pinsDefinition (VDict d') (Some fp).
Proof.
  unfold pinsDefinition. generalize (Pads fp) as pads.
  induction pads as [| p pads IH]; intros H; [reflexivity |].
  cbn [pinsOfPads keys_of bind]. rewrite !member_lookup.
  rewrite IH by (intros q Hq; apply H; now right).
  cbn [getitem hashable]. rewrite (H p (or_introl eq_refl)). reflexivity.
Qed.

Lemma lookup_app_unknown (k k' : string) (v : value) (d : dict) :
  k <> k' -> lookup (VStr k') (d ++ [(VStr k, v)])%list = lookup (VStr k') d.
Proof.
  intros Hne. induction d as [| [k0 v0] d IH]; cbn [app lookup].
  - cbn [key_eqb]. apply String.eqb_neq in Hne. now rewrite Hne.
  - destruct (key_eqb k0 (VStr k')); [reflexivity | exact IH].
Qed.

Lemma mapM_app {A B} (f : A -> result B) (xs ys : list A) :
  mapM f (xs ++ ys)%list
  = (a <- mapM f xs ;; b <- mapM f ys ;; Ok (a ++ b)%list).
Proof.
  induction xs as [| x xs IH]; cbn [app mapM bind].
  - destruct (mapM f ys); reflexivity.
  - destruct (f x); cbn [bind]; [| reflexivity]. rewrite IH.
    destruct (mapM f xs); cbn [bind]; [| reflexivity].
    destruct (mapM f ys); reflexivity.
Qed.

Lemma componentOf_wf (b : board) (entry : value * value) :
  wf_ComponentSpec b entry = true -> exists comp, componentOf b entry = Ok comp.
Proof.
  destruct entry as [ref s]. unfold wf_ComponentSpec.
  destruct ref as [| | | | r | |]; try discriminate.
  destruct s as [| | | | | | c]; try discriminate.
  destruct (FindModule b r) as [fp |] eqn:Hfp; [| discriminate].
  destruct (lookup (VStr "description") c) as [description |] eqn:Hd;
    [| discriminate].
  destruct (lookup (VStr "pins") c) as [[| | | | | | d] |] eqn:Hp;
    try discriminate.
  intros He.
  destruct (pinsDefinition_named_pads d fp) as (pins & Hpins & _).
  { intros p ps Hin Hl. rewrite forallb_forall in He.
    specialize (He p Hin). now rewrite Hl in He. }
  unfold componentOf. cbn [fst snd findModule bind]. rewrite Hfp.
  rewrite (getitem_str c "description" _ Hd), (getitem_str c "pins" _ Hp).
  rewrite !get_str. cbn [bind]. rewrite Hpins. cbn [bind]. eexists. reflexivity.
Qed.

Lemma mapM_wf (b : board) (entries : dict) :
  forallb (wf_ComponentSpec b) entries = true ->
  exists comps, mapM (componentOf b) entries = Ok comps.
Proof.
  induction entries as [| e entries IH]; [now exists [] |].
  cbn [forallb]. intros H. apply andb_true_iff in H. destruct H as [He Hes].
  destruct (componentOf_wf b e He) as [c Hc]. destruct (IH Hes) as [cs Hcs].
  exists (c :: cs). cbn [mapM]. now rewrite Hc, Hcs.
Qed.

(** A reference that names no footprint of the board ends the assembly
    in the [AttributeError] of [None.Pads()], whatever came before it and
    whatever its pins mapping holds. *)
Theorem componentsDefinition_missing_component (b : board)
    (before after_ : dict) (ref : string) (c : dict)
    (description pins : value) :
  forallb (wf_ComponentSpec b) before = true ->
  FindModule b ref = None ->
  lookup (VStr "description") c = Some description ->
  lookup (VStr "pins") c = Some pins ->
  componentsDefinition
    (VDict (before ++ (VStr ref, VDict c) :: after_)%list) b
  = Raise (AttributeError "NoneType has no attribute Pads").
Proof.
  intros Hb Hf Hd Hp. rewrite componentsDefinition_mapM, mapM_app.
  destruct (mapM_wf b before Hb) as [comps ->]. cbn [bind mapM].
  unfold componentOf at 1. cbn [fst snd findModule bind]. rewrite Hf.
  rewrite (getitem_str c "description" _ Hd), (getitem_str c "pins" _ Hp).
  rewrite !get_str. reflexivity.
Qed.

(** ** Validation and collection of groups *)

Lemma dict_of_keys_ok (leaf : value) (ks : list value) :
  is_ok (dict_of_keys leaf ks) = forallb hashable ks.
Proof.
  unfold dict_of_keys. generalize (@nil (value * value)) as d.
  induction ks as [| k ks IH]; intros d; [reflexivity |].
  cbn [foldM forallb]. destruct (hashable k); cbn [bind andb]; [apply IH | reflexivity].
Qed.

Lemma validateEntries_ok (entries : dict) :
  Forall (fun kv => is_ok (validateGroupStructure (snd kv)) = accepted (snd kv))
         entries ->
  forall newStruct,
    is_ok (validateEntries validateGroupStructure entries newStruct)
    = acceptedEntries accepted entries.
Proof.
  induction 1 as [| [k w] rest Hw _ IH]; intros newStruct; [reflexivity |].
  cbn [validateEntries acceptedEntries]. cbn [snd] in Hw.
  destruct k; try reflexivity. cbn [is_str andb].
  destruct w; cbn [bind]; try apply IH.
  - pose proof (dict_of_keys_ok (VDict []) elems) as E.
    destruct (dict_of_keys (VDict []) elems); cbn [bind is_ok] in *;
      rewrite <- E; [apply IH | reflexivity].
  - rewrite <- Hw.
    destruct (validateGroupStructure (VDict items)); cbn [bind is_ok];
      [apply IH | reflexivity].
Qed.

(** Validation succeeds exactly on the accepted structures: a value that
    is neither [None], a dictionary nor a list never makes it fail. *)
Theorem validateGroupStructure_accepts (struct : value) :
  is_ok (validateGroupStructure struct) = accepted struct.
Proof.
  induction struct as [| | | | | | entries IH] using value_nested_ind;
    try reflexivity.
  cbn [validateGroupStructure accepted]. apply validateEntries_ok.
  apply Forall_impl with (2 := IH). intros kv [_ H]. exact H.
Qed.

Lemma dict_of_keys_fault (leaf : value) (ks : list value) (e : exn) :
  dict_of_keys leaf ks = Raise e -> e = TypeError "unhashable type".
Proof.
  unfold dict_of_keys. generalize (@nil (value * value)) as d.
  induction ks as [| k ks IH]; intros d; [discriminate |].
  cbn [foldM]. destruct (hashable k); cbn [bind]; [apply IH | now intros [= <-]].
Qed.

Lemma validateEntries_fault (entries : dict) :
  Forall (fun kv => forall d e, snd kv = VDict d ->
            validateGroupStructure (snd kv) = Raise e ->
            key_fault e \/ e = TypeError "unhashable type") entries ->
  forall newStruct e,
    validateEntries validateGroupStructure entries newStruct = Raise e ->
    key_fault e \/ e = TypeError "unhashable type".
Proof.
  induction 1 as [| [k w] rest Hw _ IH]; intros newStruct e; [discriminate |].
  cbn [validateEntries]. cbn [snd] in Hw.
  destruct k;
    try (intros [= <-]; left; eexists; split; [| reflexivity]; reflexivity).
  destruct w; cbn [bind]; try apply IH.
  - destruct (dict_of_keys (VDict []) elems) eqn:E; cbn [bind]; [apply IH |].
    intros [= <-]. right. exact (dict_of_keys_fault _ _ _ E).
  - destruct (validateGroupStructure (VDict items)) eqn:E; cbn [bind];
      [apply IH |]. intros [= <-]. exact (Hw items _ eq_refl eq_refl).
Qed.

(** A dictionary is refused for a key that is no string, at any depth,
    or for a list member that cannot be a key, and for nothing else: the
    not-a-dictionary fault is for the structure as a whole only. *)
Theorem validateGroupStructure_fault_kinds (entries : dict) (e : exn) :
  validateGroupStructure (VDict entries) = Raise e ->
  key_fault e \/ e = TypeError "unhashable type".
Proof.
  enough (H : forall v d e, v = VDict d -> validateGroupStructure v = Raise e ->
                            key_fault e \/ e = TypeError "unhashable type")
    by (apply (H _ entries); reflexivity).
  clear. intros v.
  induction v as [| | | | | | items IH] using value_nested_ind;
    try discriminate.
  intros d e _. cbn [validateGroupStructure]. apply validateEntries_fault.
  apply Forall_impl with (2 := IH). intros kv [_ H]. exact H.
Qed.

Lemma keys_store (k v : value) (d : dict) :
  keys (store k v d)
  = if member k (keys d) then keys d else (keys d ++ [k])%list.
Proof.
  induction d as [| [k0 v0] d IH]; [reflexivity |].
  cbn [store keys map fst member existsb].
  destruct (key_eqb k0 k) eqn:E; cbn [orb map fst]; [reflexivity |].
  fold (keys (store k v d)). rewrite IH. fold (keys d). unfold member.
  destruct (existsb _ (keys d)); reflexivity.
Qed.

(** Storing a canonical structure under a string keeps a dictionary
    canonical. *)
Lemma store_canonical (k : string) (v : value) (d : dict) :
  canonical v = true ->
  canonicalEntries canonical d = true ->
  canonicalEntries canonical (store (VStr k) v d) = true.
Proof.
  intros Hv. induction d as [| [k0 v0] d IH]; cbn [store canonicalEntries].
  { intros _. cbn. now rewrite Hv. }
  intros H. apply andb_true_iff in H. destruct H as [H Hd].
  apply andb_true_iff in H. destruct H as [H Hv0].
  apply andb_true_iff in H. destruct H as [Hk0 Hnew].
  destruct (key_eqb k0 (VStr k)) eqn:E; cbn [canonicalEntries].
  - now rewrite Hk0, Hnew, Hv, Hd.
  - rewrite Hk0, Hv0, (IH Hd), keys_store. cbn [andb].
    apply negb_true_iff in Hnew.
    destruct (member (VStr k) (keys d)); [now rewrite Hnew |].
    rewrite member_app, Hnew. cbn [member existsb orb].
    now rewrite key_eqb_sym, E.
Qed.

Lemma dict_of_keys_canonical (vs : list value) :
  all_str vs = true ->
  exists d, dict_of_keys (VDict []) vs = Ok d /\
            canonicalEntries canonical d = true.
Proof.
  unfold dict_of_keys.
  enough (H : forall acc, canonicalEntries canonical acc = true ->
                all_str vs = true ->
                exists d,
                  foldM (fun d k => if hashable k then Ok (store k (VDict []) d)
                                    else Raise (TypeError "unhashable type"))
                        vs acc = Ok d /\
                  canonicalEntries canonical d = true)
    by (apply H; reflexivity).
  induction vs as [| v vs IH]; intros acc Hacc Hs.
  { now exists acc. }
  cbn [all_str forallb] in Hs. apply andb_true_iff in Hs. destruct Hs as [Hv Hs].
  destruct v; try discriminate. cbn [foldM hashable bind].
  apply IH; [| exact Hs]. now apply store_canonical.
Qed.

Lemma validateEntries_documented (entries : dict) :
  Forall (fun kv => documented (snd kv) = true ->
            exists out, validateGroupStructure (snd kv) = Ok out /\
                        canonical out = true) entries ->
  forall newStruct,
    documentedEntries documented entries = true ->
    canonicalEntries canonical newStruct = true ->
    exists out,
      validateEntries validateGroupStructure entries newStruct = Ok (VDict out) /\
      canonicalEntries canonical out = true.
Proof.
  induction 1 as [| [k w] rest Hw _ IH]; intros newStruct Hd Hacc.
  { now exists newStruct. }
  cbn [documentedEntries] in Hd.
  apply andb_true_iff in Hd. destruct Hd as [Hd Hrest].
  apply andb_true_iff in Hd. destruct Hd as [Hk Hv].
  destruct k as [| | | | k | |]; try discriminate.
  cbn [validateEntries]. cbn [snd] in Hw.
  destruct w; try discriminate.
  - apply IH; [exact Hrest | now apply store_canonical].
  - destruct (dict_of_keys_canonical elems Hv) as (d & -> & Hc). cbn [bind].
    apply IH; [exact Hrest | now apply store_canonical].
  - destruct (Hw Hv) as (out & -> & Hc). cbn [bind].
    apply IH; [exact Hrest | now apply store_canonical].
Qed.

(** On a structure as documented, with [None], lists of strings and
    nested structures for values, validation succeeds and its result is
    canonical. *)
Theorem validateGroupStructure_canonical_output (struct : value) :
  documented struct = true ->
  exists out, validateGroupStructure struct = Ok out /\ canonical out = true.
Proof.
  induction struct as [| | | | | | entries IH] using value_nested_ind;
    try discriminate.
  intros Hd. cbn [validateGroupStructure documented] in *.
  destruct (validateEntries_documented entries) with (newStruct := @nil (value * value))
    as (out & E & Hc); [| exact Hd | reflexivity |].
  - apply Forall_impl with (2 := IH). intros kv [_ H]. exact H.
  - exists (VDict out). split; [exact E | exact Hc].
Qed.

(** The taxonomy that [collectGroups] returns is itself accepted as a
    groups structure: validating it keeps its keys and their order and
    turns its empty lists into empty dictionaries. *)
Theorem validateGroupStructure_flat_taxonomy (ks : list string) :
  NoDup ks ->
  validateGroupStructure (flat_taxonomy ks)
  = Ok (VDict (map (fun k => (VStr k, VDict [])) ks)).
Proof.
  unfold flat_taxonomy. cbn [validateGroupStructure].
  enough (H : forall acc, NoDup (acc ++ ks) ->
            validateEntries validateGroupStructure
              (map (fun k => (VStr k, VList [])) ks)
              (map (fun k => (VStr k, VDict [])) acc)
            = Ok (VDict (map (fun k => (VStr k, VDict [])) (acc ++ ks))))
    by (intros Hn; apply (H []); exact Hn).
  induction ks as [| k ks IH]; intros acc Hn.
  { cbn. now rewrite app_nil_r. }
  cbn [map validateEntries dict_of_keys foldM bind].
  rewrite store_fresh.
  - change [(VStr k, VDict [])] with (map (fun k => (VStr k, VDict [])) [k]).
    rewrite <- map_app. rewrite IH; rewrite <- app_assoc; [reflexivity | exact Hn].
  - unfold keys. rewrite map_map. cbn [fst].
    change (map (fun x => VStr x) acc) with (map VStr acc).
    rewrite member_str.
    destruct (existsb _ acc) eqn:E; [| reflexivity].
    apply existsb_eqb_In in E. apply NoDup_remove_2 in Hn.
    exfalso. apply Hn. apply in_or_app. now left.
Qed.

(** ** The order of names *)

Lemma ascii_compare_refl (a : ascii) : Ascii.compare a a = Eq.
Proof. unfold Ascii.compare. apply N.compare_refl. Qed.

Lemma ascii_compare_trans (c : comparison) (a b d : ascii) :
  Ascii.compare a b = c -> Ascii.compare b d = c -> Ascii.compare a d = c.
Proof.
  unfold Ascii.compare. destruct c; intros H1 H2.
  - apply N.compare_eq_iff in H1. apply N.compare_eq_iff in H2.
    apply N.compare_eq_iff. congruence.
  - apply N.compare_lt_iff in H1. apply N.compare_lt_iff in H2.
    apply N.compare_lt_iff. exact (N.lt_trans _ _ _ H1 H2).
  - apply N.compare_gt_iff in H1. apply N.compare_gt_iff in H2.
    apply N.compare_gt_iff. exact (N.lt_trans _ _ _ H2 H1).
Qed.

Lemma string_compare_lt_trans (s t u : string) :
  String.compare s t <> Gt -> String.compare t u <> Gt ->
  String.compare s u <> Gt.
Proof.
  revert t u. induction s as [| a s IH]; intros [| b t] [| c u];
    cbn [String.compare]; try congruence.
  destruct (Ascii.compare a b) eqn:Eab; try congruence;
    destruct (Ascii.compare b c) eqn:Ebc; try congruence.
  - rewrite (ascii_compare_trans Eq a b c Eab Ebc). apply IH.
  - apply Ascii.compare_eq_iff in Eab. subst b. rewrite Ebc. congruence.
  - apply Ascii.compare_eq_iff in Ebc. subst c. rewrite Eab. congruence.
  - rewrite (ascii_compare_trans Lt a b c Eab Ebc). congruence.
Qed.

Lemma ascending_trans (a b c : string) :
  ascending a b -> ascending b c -> ascending a c.
Proof.
  unfold ascending, String.leb. intros H1 H2.
  pose proof (string_compare_lt_trans a b c) as T.
  destruct (String.compare a b); try discriminate;
    destruct (String.compare b c); try discriminate;
    destruct (String.compare a c); try reflexivity;
    exfalso; apply T; congruence.
Qed.

Lemma ascending_antisym (a b : string) :
  ascending a b -> ascending b a -> a = b.
Proof. apply String.leb_antisym. Qed.

(** A list of names in ascending order without repetition is determined
    by its members. *)
Lemma sorted_unique (l l' : list string) :
  Sorted ascending l -> Sorted ascending l' -> NoDup l -> NoDup l' ->
  (forall k, In k l <-> In k l') -> l = l'.
Proof.
  intros Hs Hs'.
  apply Sorted_StronglySorted in Hs; [| exact ascending_trans].
  apply Sorted_StronglySorted in Hs'; [| exact ascending_trans].
  revert l' Hs'. induction Hs as [| a l Hl IH Ha]; intros l' Hs' Hn Hn' Hin.
  { destruct l' as [| b l']; [reflexivity |].
    exfalso. apply (Hin b). now left. }
  destruct Hs' as [| b l' Hl' Hb].
  { exfalso. apply (Hin a). now left. }
  rewrite Forall_forall in Ha, Hb.
  assert (E : a = b).
  { destruct (proj1 (Hin a) (or_introl eq_refl)) as [E | Hal']; [now symmetry |].
    destruct (proj2 (Hin b) (or_introl eq_refl)) as [E | Hbl]; [exact E |].
    apply ascending_antisym; [now apply Ha | now apply Hb]. }
  subst b. f_equal. inversion Hn; inversion Hn'; subst.
  apply IH; try assumption.
  intros k. split; intros Hk.
  - destruct (proj1 (Hin k) (or_intror Hk)) as [<- | H]; [contradiction | exact H].
  - destruct (proj2 (Hin k) (or_intror Hk)) as [<- | H]; [contradiction | exact H].
Qed.

(** The taxonomy depends on the set of the names gathered only: neither
    on the order of the components and of their pins, nor on how often a
    name occurs. *)
Theorem collectGroups_set_of_names (entries entries' : dict) :
  forallb wf_grouped (values entries) = true ->
  forallb wf_grouped (values entries') = true ->
  (forall k, In k (flat_map gathered (values entries)) <->
             In k (flat_map gathered (values entries'))) ->
  collectGroups (VDict entries) = collectGroups (VDict entries').
Proof.
  intros Hw Hw' Hin.
  destruct (collectGroups_gathers entries Hw) as (ks & -> & Hn & Hs & Hk).
  destruct (collectGroups_gathers entries' Hw') as (ks' & -> & Hn' & Hs' & Hk').
  f_equal. f_equal. apply sorted_unique; try assumption.
  intros k. rewrite Hk, Hk'. apply Hin.
Qed.

Lemma foldM_app {A S} (body : S -> A -> result S) (xs ys : list A) (acc : S) :
  foldM body (xs ++ ys)%list acc = (s <- foldM body xs acc ;; foldM body ys s).
Proof.
  revert acc. induction xs as [| x xs IH]; intros acc; cbn [app foldM];
    [reflexivity |].
  destruct (body acc x); cbn [bind]; [apply IH | reflexivity].
Qed.

(** A component without a [pins] entry ends the collection in a
    [KeyError], whatever the components around it. *)
Theorem collectGroups_missing_pins (before after_ : dict) (ref : value)
    (c : dict) :
  forallb wf_grouped (values before) = true ->
  wf_groups (VDict c) = true ->
  lookup (VStr "pins") c = None ->
  collectGroups (VDict (before ++ (ref, VDict c) :: after_)%list)
  = Raise (KeyError (VStr "pins")).
Proof.
  intros Hb Hg Hp. unfold collectGroups. cbn [values_of bind].
  unfold values. rewrite map_app. cbn [map snd]. fold (values before).
  rewrite foldM_app.
  pose proof (components_fold (values before) [] Hb) as E. cbn [map] in E.
  rewrite E. cbn [bind foldM].
  destruct (wf_groups_get (VDict c) Hg) as [Eg Hs]. rewrite Eg. cbn [bind iter].
  rewrite (all_str_strings _ Hs) at 1. rewrite update_strs. cbn [bind].
  cbn [getitem hashable]. rewrite Hp. reflexivity.
Qed.

(** ** Image generation and the run *)

Lemma runs_app (l l' : list effect) : runs (l ++ l') = (runs l + runs l')%nat.
Proof. unfold runs. now rewrite filter_app, length_app. Qed.

Lemma runs_side (d : string) (m l : list effect) :
  runs (MkTemp d :: m ++ RmTemp d :: l) = (runs m + runs l)%nat.
Proof.
  change (MkTemp d :: m ++ RmTemp d :: l)%list
    with ([MkTemp d] ++ m ++ [RmTemp d] ++ l)%list.
  rewrite !runs_app. reflexivity.
Qed.

Lemma written_document_last (l : list effect) (path : string)
    (doc : OutputDocument) (n : nat) :
  written_document {| log := (l ++ [WriteFile path (Json doc)])%list; temps := n |}
  = Some doc.
Proof. unfold written_document. cbn [log]. now rewrite fold_left_app. Qed.

Section ImageProperties.

Variable mkdtemp : nat -> string.
Variable pcbdraw : list string -> Z * option vector_file.
Variable float : Text.t -> option B64.t.

(** One side in the log and in the count of temporary directories. *)
Lemma generateImage_bracket (boardfilename : string)
    (out : Path.t) (dpi : Q) (args : pcbdrawArgs) (back : bool) (st : state) :
  let d := mkdtemp (temps st) in
  let outcome :=
    generateImage mkdtemp pcbdraw float boardfilename out dpi args back st in
  exists between,
    log (snd outcome) = (log st ++ MkTemp d :: between ++ [RmTemp d])%list /\
    existsb is_temporary between = false /\
    runs between = 1%nat /\
    temps (snd outcome) = S (temps st).
Proof.
  intros d outcome. subst outcome. rewrite generateImage_eq. fold d.
  set (cmd := command boardfilename _ args back).
  destruct (fst (pcbdraw cmd) =? 0)%Z.
  - destruct (image_read _ (snd (pcbdraw cmd))).
    + destruct (supported _).
      * exists [Run cmd; OpenFile (Path.fspath out);
                WriteFile (Path.fspath out)
                  (Blob (encoder (snd (Path.splitext (Path.fspath out)))) a dpi)].
        repeat split.
      * exists [Run cmd]. repeat split.
    + exists [Run cmd]. repeat split.
  - exists [Run cmd]. repeat split.
Qed.

(** On every path through [generateImage] the temporary directory is
    made first and removed last, one directory is used, nothing is
    written to the log before it is made or after it is removed, and the
    renderer is started exactly once. *)
Theorem generateImage_temporary_directory (boardfilename : string)
    (out : Path.t) (dpi : Q) (args : pcbdrawArgs) (back : bool) (st : state) :
  let d := mkdtemp (temps st) in
  let outcome :=
    generateImage mkdtemp pcbdraw float boardfilename out dpi args back st in
  exists between,
    log (snd outcome) = (log st ++ MkTemp d :: between ++ [RmTemp d])%list /\
    existsb is_temporary between = false /\
    runs between = 1%nat /\
    temps (snd outcome) = S (temps st).
Proof. apply generateImage_bracket. Qed.

(** With a supported extension, a renderer that exits with 0 and a file
    the rasteriser reads, the bitmap is opened and written, encoded as
    png32 for .png and as jpeg otherwise, whatever becomes of the
    viewBox afterwards. *)
Theorem generateImage_writes_bitmap (boardfilename : string) (out : Path.t)
    (dpi : Q) (args : pcbdrawArgs) (back : bool) (st : state)
    (f : vector_file) :
  let d := mkdtemp (temps st) in
  let svg := Path.truediv (Path.of_string d) "img.svg" in
  let cmd := command boardfilename svg args back in
  let ext := snd (Path.splitext (Path.fspath out)) in
  supported ext = true ->
  pcbdraw cmd = (0%Z, Some f) ->
  rasterisable f = true ->
  generateImage mkdtemp pcbdraw float boardfilename out dpi args back st
  = (activeArea float (Path.fspath svg) (Some f),
     after st [MkTemp d; Run cmd; OpenFile (Path.fspath out);
               WriteFile (Path.fspath out)
                 (Blob (if String.eqb (Path.lower ext) ".png"
                        then "png32" else "jpeg") f dpi);
               RmTemp d]).
Proof.
  intros d svg cmd ext Hext Hrun Hread. rewrite generateImage_eq.
  fold d. fold svg. fold cmd. fold ext.
  rewrite Hrun. cbn [fst snd image_read Z.eqb]. rewrite Hread, Hext.
  reflexivity.
Qed.

(** A vector file without a viewBox ends the side in a [KeyError] after
    the bitmap was written. *)
Theorem generateImage_missing_viewBox (boardfilename : string) (out : Path.t)
    (dpi : Q) (args : pcbdrawArgs) (back : bool) (st : state)
    (f : vector_file) :
  let d := mkdtemp (temps st) in
  let cmd :=
    command boardfilename (Path.truediv (Path.of_string d) "img.svg") args back in
  let outcome :=
    generateImage mkdtemp pcbdraw float boardfilename out dpi args back st in
  supported (snd (Path.splitext (Path.fspath out))) = true ->
  pcbdraw cmd = (0%Z, Some f) ->
  rasterisable f = true ->
  root_viewBox f = Some None ->
  fst outcome = Raise (KeyError (VStr "viewBox")) /\
  existsb (touches (Path.fspath out)) (log (snd outcome)) = true.
Proof.
  intros d cmd outcome Hext Hrun Hread Hbox. subst outcome.
  rewrite generateImage_eq. fold d. fold cmd.
  rewrite Hrun. cbn [fst snd image_read Z.eqb]. rewrite Hread, Hext.
  cbn [fst snd after log]. split.
  - unfold activeArea, root_attrib_viewBox. now rewrite Hbox.
  - rewrite existsb_app. cbn [existsb touches].
    rewrite String.eqb_refl, !orb_true_r. reflexivity.
Qed.

Lemma unpack_floats_length (n : nat) (tokens : list Text.t)
    (vs : list B64.t) :
  unpack_floats float n tokens = Ok vs ->
  List.length tokens = n /\ List.length vs = n.
Proof.
  revert tokens vs. induction n as [| n IH]; intros [| t tokens] vs;
    cbn [unpack_floats]; try discriminate.
  - intros [= <-]. split; reflexivity.
  - destruct (to_float float t); discriminate.
  - destruct (to_float float t); cbn [bind]; [| discriminate].
    destruct (unpack_floats float n tokens) as [ws |] eqn:E; cbn [bind];
      [| discriminate].
    intros [= <-]. destruct (IH _ _ E) as [H1 H2]. cbn [List.length].
    split; congruence.
Qed.

Lemma unpack_floats_fault (n : nat) (tokens : list Text.t) (e : exn) :
  unpack_floats float n tokens = Raise e -> exists what, e = ValueError what.
Proof.
  revert tokens. induction n as [| n IH]; intros [| t tokens];
    cbn [unpack_floats]; unfold to_float; try discriminate.
  - destruct (float t); cbn [bind]; intros [= <-]; eexists; reflexivity.
  - intros [= <-]. eexists; reflexivity.
  - destruct (float t); cbn [bind]; [| intros [= <-]; eexists; reflexivity].
    destruct (unpack_floats float n tokens) eqn:E; cbn [bind]; [discriminate |].
    intros [= <-]. exact (IH _ E).
Qed.

(** A viewBox that does not hold exactly four tokens, or holds one that
    is no number, ends the side in a [ValueError]. *)
Theorem generateImage_malformed_viewBox (boardfilename : string) (out : Path.t)
    (dpi : Q) (args : pcbdrawArgs) (back : bool) (st : state)
    (f : vector_file) (viewBox : Text.t) :
  let d := mkdtemp (temps st) in
  let cmd :=
    command boardfilename (Path.truediv (Path.of_string d) "img.svg") args back in
  supported (snd (Path.splitext (Path.fspath out))) = true ->
  pcbdraw cmd = (0%Z, Some f) ->
  rasterisable f = true ->
  root_viewBox f = Some (Some viewBox) ->
  List.length (Text.split viewBox) <> 4%nat
  \/ existsb (fun t => match float t with Some _ => false | None => true end)
             (firstn 4 (Text.split viewBox)) = true ->
  exists what,
    fst (generateImage mkdtemp pcbdraw float boardfilename out dpi args back st)
    = Raise (ValueError what).
Proof.
  intros d cmd Hext Hrun Hread Hbox Hbad.
  rewrite generateImage_eq. fold d. fold cmd.
  rewrite Hrun. cbn [fst snd image_read Z.eqb]. rewrite Hread, Hext.
  cbn [fst]. unfold activeArea, root_attrib_viewBox. rewrite Hbox. cbn [bind].
  destruct (unpack_floats float 4 (Text.split viewBox)) as [vs | e] eqn:E.
  - exfalso. destruct (unpack_floats_length _ _ _ E) as [Hl _].
    destruct Hbad as [Hbad | Hbad]; [contradiction |].
    destruct (Text.split viewBox) as [| a [| b [| c [| x [| ? ?]]]]];
      try discriminate.
    cbn [unpack_floats firstn existsb] in *. unfold to_float in E.
    destruct (float a), (float b), (float c), (float x); try discriminate.
  - destruct (unpack_floats_fault _ _ _ E) as [what ->]. now exists what.
Qed.

(** The active area, when there is one, is made of the four numbers of
    the viewBox. *)
Lemma activeArea_inv (svgfilename : string) (f : option vector_file)
    (box : BoundingBox) :
  activeArea float svgfilename f = Ok box ->
  exists viewBox x y w h,
    root_attrib_viewBox svgfilename f = Ok viewBox /\
    unpack_floats float 4 (Text.split viewBox) = Ok [x; y; w; h] /\
    ki2mm (dmil2ki (PFloat x)) = Ok (fst (tl box)) /\
    ki2mm (dmil2ki (PFloat y)) = Ok (snd (tl box)) /\
    ki2mm (dmil2ki (PFloat (B64.add x w))) = Ok (fst (br box)) /\
    ki2mm (dmil2ki (PFloat (B64.add y h))) = Ok (snd (br box)).
Proof.
  unfold activeArea.
  destruct (root_attrib_viewBox svgfilename f) as [vb |]; [| discriminate].
  cbn [bind].
  destruct (unpack_floats float 4 (Text.split vb)) as [ns |] eqn:E;
    [| discriminate].
  cbn [bind]. destruct ns as [| x [| y [| w [| h [| ? ?]]]]]; try discriminate.
  cbn [ki2mm dmil2ki times bind].
  intros [= <-]. exists vb, x, y, w, h. cbn [tl br fst snd].
  repeat split. exact E.
Qed.

End ImageProperties.

Section OutcomeProperties.

Variable mkdtemp : nat -> string.
Variable pcbdraw : list string -> Z * option vector_file.
Variable float : Text.t -> option B64.t.

(** The effects of a side that returned a box. *)
Lemma generateImage_ok_log (boardfilename : string) (out : Path.t)
    (dpi : Q) (args : pcbdrawArgs) (back : bool) (st : state)
    (box : BoundingBox) :
  let d := mkdtemp (temps st) in
  let cmd :=
    command boardfilename (Path.truediv (Path.of_string d) "img.svg") args back in
  let ext := snd (Path.splitext (Path.fspath out)) in
  let outcome :=
    generateImage mkdtemp pcbdraw float boardfilename out dpi args back st in
  fst outcome = Ok box ->
  exists f,
    snd outcome
    = after st [MkTemp d; Run cmd; OpenFile (Path.fspath out);
                WriteFile (Path.fspath out) (Blob (encoder ext) f dpi);
                RmTemp d].
Proof.
  intros d cmd ext outcome. subst outcome. rewrite generateImage_eq.
  fold d. fold cmd. fold ext.
  destruct (pcbdraw cmd) as [code f]. cbn [fst snd].
  destruct (code =? 0)%Z; [| discriminate].
  destruct f as [f |]; cbn [image_read]; [| discriminate].
  destruct (rasterisable f); [| discriminate].
  destruct (supported ext); [| discriminate].
  cbn [fst snd]. intros _. now exists f.
Qed.

(** [generateImage] returns a box only when the renderer exited with 0
    and left a readable file, the extension is supported and the bitmap
    was written; the viewBox then held four numbers, and the corners of
    the box are [ki2mm] of [dmil2ki] of the first two and of their sums
    with the last two. *)
Theorem generateImage_returns_only_if (boardfilename : string) (out : Path.t)
    (dpi : Q) (args : pcbdrawArgs) (back : bool) (st : state)
    (box : BoundingBox) :
  let d := mkdtemp (temps st) in
  let cmd :=
    command boardfilename (Path.truediv (Path.of_string d) "img.svg") args back in
  let ext := snd (Path.splitext (Path.fspath out)) in
  let outcome :=
    generateImage mkdtemp pcbdraw float boardfilename out dpi args back st in
  fst outcome = Ok box ->
  exists f viewBox x y w h,
    pcbdraw cmd = (0%Z, Some f) /\ rasterisable f = true /\
    supported ext = true /\
    root_viewBox f = Some (Some viewBox) /\
    unpack_floats float 4 (Text.split viewBox) = Ok [x; y; w; h] /\
    snd outcome
      = after st [MkTemp d; Run cmd; OpenFile (Path.fspath out);
                  WriteFile (Path.fspath out) (Blob (encoder ext) f dpi);
                  RmTemp d] /\
    ki2mm (dmil2ki (PFloat x)) = Ok (fst (tl box)) /\
    ki2mm (dmil2ki (PFloat y)) = Ok (snd (tl box)) /\
    ki2mm (dmil2ki (PFloat (B64.add x w))) = Ok (fst (br box)) /\
    ki2mm (dmil2ki (PFloat (B64.add y h))) = Ok (snd (br box)).
Proof.
  intros d cmd ext outcome. subst outcome. rewrite generateImage_eq.
  fold d. fold cmd. fold ext.
  destruct (pcbdraw cmd) as [code f] eqn:Hrun. cbn [fst snd].
  destruct (Z.eqb_spec code 0) as [-> |]; [| discriminate].
  destruct f as [f |]; cbn [image_read]; [| discriminate].
  destruct (rasterisable f) eqn:Hread; [| discriminate].
  destruct (supported ext) eqn:Hext; [| discriminate].
  cbn [fst snd]. intros Ha.
  destruct (activeArea_inv float _ _ _ Ha)
    as (vb & x & y & w & h & Hv & Hu & H1 & H2 & H3 & H4).
  unfold root_attrib_viewBox in Hv.
  destruct (root_viewBox f) as [[vb' |] |] eqn:Hbox; try discriminate.
  injection Hv as ->.
  exists f, vb, x, y, w, h. repeat split; assumption.
Qed.

Section OneRun.

Variable b : board.
Variable specification : value.
Variable outputdir : string.
Variable dpi : Q.
Variable args : pcbdrawArgs.
Variable st : state.

Let dir := Path.of_string outputdir.
Let json := Path.fspath (Path.truediv dir "spec.json").
Let st1 := {| log := (log st ++ [Mkdir (Path.fspath dir)])%list;
              temps := temps st |}.
Let F := generateImage mkdtemp pcbdraw float (GetFileName b)
           (Path.truediv dir "front.png") dpi args false st1.
Let B := generateImage mkdtemp pcbdraw float (GetFileName b)
           (Path.truediv dir "back.png") dpi args true (snd F).
Let outcome :=
  generate mkdtemp pcbdraw float b specification outputdir dpi args st.

(** A run whose two sides and whose assembly succeed ends well, and the
    document it has written is the assembled one. *)
Theorem generate_writes_document (fSource bSource : BoundingBox)
    (doc : OutputDocument) :
  fst F = Ok fSource -> fst B = Ok bSource ->
  assemble b specification fSource bSource = Ok doc ->
  fst outcome = Ok tt /\ written_document (snd outcome) = Some doc.
Proof.
  intros HF HB Ha. unfold outcome. rewrite generate_eq.
  fold dir. fold json. fold st1. fold F. fold B.
  rewrite HF, HB, Ha. cbn [fst snd]. split; [reflexivity |].
  change [OpenFile json; WriteFile json (Json doc)]
    with ([OpenFile json] ++ [WriteFile json (Json doc)])%list.
  rewrite app_assoc. apply written_document_last.
Qed.

(** The first thing a run does is to make the output directory.  The
    renderer is started once when the front side fails, as the back side
    is then not rendered, and twice otherwise; each start has its own
    temporary directory. *)
Theorem generate_renderer_runs :
  exists new,
    log (snd outcome) = (log st ++ Mkdir (Path.fspath dir) :: new)%list /\
    runs new = (if is_ok (fst F) then 2 else 1)%nat /\
    temps (snd outcome) = (temps st + runs new)%nat.
Proof.
  unfold outcome. rewrite generate_eq.
  fold dir. fold json. fold st1. fold F. fold B.
  destruct (generateImage_bracket mkdtemp pcbdraw float
              (GetFileName b) (Path.truediv dir "front.png") dpi args false st1)
    as (mF & LF & _ & RF & TF).
  destruct (generateImage_bracket mkdtemp pcbdraw float
              (GetFileName b) (Path.truediv dir "back.png") dpi args true (snd F))
    as (mB & LB & _ & RB & TB).
  fold F in LF, TF. fold B in LB, TB. cbn [log temps st1] in LF, TF.
  set (dF := mkdtemp (temps st)) in *. set (dB := mkdtemp (temps (snd F))) in *.
  assert (LF' : log (snd F)
                = (log st ++ Mkdir (Path.fspath dir)
                     :: MkTemp dF :: mF ++ [RmTemp dF])%list).
  { rewrite LF, <- app_assoc. reflexivity. }
  assert (LB' : log (snd B)
                = (log st ++ Mkdir (Path.fspath dir)
                     :: MkTemp dF :: mF ++ RmTemp dF
                     :: MkTemp dB :: mB ++ [RmTemp dB])%list).
  { rewrite LB, LF', <- app_assoc. cbn [app]. rewrite <- app_assoc. reflexivity. }
  assert (T : temps (snd B) = (temps st + 2)%nat) by (rewrite TB, TF; lia).
  destruct (fst F) as [fSource | e]; cbn [is_ok].
  2:{ exists (MkTemp dF :: mF ++ [RmTemp dF])%list. cbn [fst snd].
      split; [exact LF' |]. rewrite runs_side, RF, TF.
      split; [reflexivity | cbn; lia]. }
  destruct (fst B) as [bSource | e].
  2:{ exists (MkTemp dF :: mF ++ RmTemp dF :: MkTemp dB :: mB ++ [RmTemp dB])%list.
      cbn [fst snd]. split; [exact LB' |]. rewrite !runs_side, RF, RB.
      split; [reflexivity | exact T]. }
  destruct (assemble b specification fSource bSource) as [doc | e].
  2:{ exists (MkTemp dF :: mF ++ RmTemp dF :: MkTemp dB :: mB ++ [RmTemp dB])%list.
      cbn [fst snd]. split; [exact LB' |]. rewrite !runs_side, RF, RB.
      split; [reflexivity | exact T]. }
  exists (MkTemp dF :: mF ++ RmTemp dF :: MkTemp dB :: mB
            ++ RmTemp dB :: [OpenFile json; WriteFile json (Json doc)])%list.
  cbn [fst snd log temps]. split.
  { rewrite LB', <- app_assoc. cbn [app]. rewrite <- app_assoc. cbn [app].
    rewrite <- app_assoc. reflexivity. }
  rewrite !runs_side, RF, RB. split; [reflexivity | exact T].
Qed.

(** A fault of the assembly, such as a document without a name, comes
    after both bitmaps were written: they stay, and spec.json is not
    written. *)
Theorem generate_assembly_fault (fSource bSource : BoundingBox) (e : exn) :
  fst F = Ok fSource -> fst B = Ok bSource ->
  assemble b specification fSource bSource = Raise e ->
  fst outcome = Raise e /\
  existsb (touches (Path.fspath (Path.truediv dir "front.png")))
          (log (snd outcome)) = true /\
  existsb (touches (Path.fspath (Path.truediv dir "back.png")))
          (log (snd outcome)) = true /\
  written_document (snd outcome) = written_document st.
Proof.
  intros HF HB Ha. unfold outcome. rewrite generate_eq.
  fold dir. fold json. fold st1. fold F. fold B.
  rewrite HF, HB, Ha. cbn [fst snd].
  destruct (generateImage_ok_log (GetFileName b)
              (Path.truediv dir "front.png") dpi args false st1 fSource HF)
    as (f1 & SF).
  destruct (generateImage_ok_log (GetFileName b)
              (Path.truediv dir "back.png") dpi args true (snd F) bSource HB)
    as (f2 & SB).
  fold F in SF. fold B in SB. rewrite SB. cbn [after log]. rewrite SF.
  cbn [after log st1]. split; [reflexivity |].
  repeat split.
  - rewrite !existsb_app. cbn [existsb touches].
    rewrite String.eqb_refl, ?orb_true_r. reflexivity.
  - rewrite !existsb_app. cbn [existsb touches].
    rewrite String.eqb_refl, ?orb_true_r. reflexivity.
  - unfold written_document, st1, after. cbn [log].
    rewrite !fold_left_app. reflexivity.
Qed.

End OneRun.

End OutcomeProperties.

(** ** The extension of a path *)

Lemma substring_all (s : string) : substring 0 (String.length s) s = s.
Proof. induction s as [| a s IH]; cbn; [reflexivity | now rewrite IH]. Qed.

Lemma substring_head (a b : string) :
  substring 0 (String.length a) (a ++ b) = a.
Proof.
  induction a as [| x a IH]; cbn [String.length append substring].
  - now destruct b.
  - now rewrite IH.
Qed.

Lemma substring_tail (a b : string) :
  substring (String.length a) (String.length (a ++ b) - String.length a) (a ++ b)
  = b.
Proof.
  induction a as [| x a IH]; cbn [String.length append substring Nat.sub].
  - rewrite Nat.sub_0_r. apply substring_all.
  - exact IH.
Qed.

(** Where [rfind] finds the character, the string splits there, and the
    character does not occur after it. *)
Lemma rfind_split (c : ascii) (s : string) (k : nat) :
  Path.rfind c s = Z.of_nat k ->
  exists pre post,
    s = pre ++ String c post /\ String.length pre = k /\
    Path.rfind c post = (-1)%Z.
Proof.
  revert k. induction s as [| a s IH]; intros k; cbn [Path.rfind]; [lia |].
  pose proof (rfind_bounds c s) as Hb.
  destruct (0 <=? Path.rfind c s)%Z eqn:E.
  - intros H. apply Z.leb_le in E.
    destruct (IH (Z.to_nat (Path.rfind c s))) as (pre & post & -> & Hl & Hp);
      [lia |].
    exists (String a pre), post. cbn [append String.length].
    split; [reflexivity |]. split; [lia | exact Hp].
  - apply Z.leb_gt in E.
    destruct (Ascii.eqb_spec a c) as [-> |]; [| lia].
    intros H. exists "", s. cbn [append String.length].
    split; [reflexivity |]. split; lia.
Qed.

(** [os.path.splitext] splits its argument in two: nothing is lost, and
    the extension is empty or is the last dot of the last component with
    what follows it, in which there is neither a dot nor a slash. *)
Lemma splitext_parts (p : string) :
  fst (Path.splitext p) ++ snd (Path.splitext p) = p /\
  (snd (Path.splitext p) = ""
   \/ exists rest,
        snd (Path.splitext p) = String "." rest /\
        Path.rfind Path.dot rest = (-1)%Z /\
        Path.rfind Path.slash rest = (-1)%Z).
Proof.
  unfold Path.splitext.
  pose proof (rfind_bounds Path.slash p) as Hs.
  pose proof (rfind_bounds Path.dot p) as Hd.
  destruct (Path.rfind Path.slash p <? Path.rfind Path.dot p)%Z eqn:E;
    [| cbn [fst snd]; split; [apply append_nil_r | now left]].
  destruct (Path.past_leading_dots p _ _);
    [| cbn [fst snd]; split; [apply append_nil_r | now left]].
  apply Z.ltb_lt in E.
  destruct (rfind_split Path.dot p (Z.to_nat (Path.rfind Path.dot p)))
    as (pre & post & Hp & Hl & Hpost); [lia |].
  cbn [fst snd]. rewrite <- Hl. clear Hl. subst p.
  rewrite substring_head, substring_tail. split; [reflexivity |].
  right. exists post. split; [reflexivity |]. split; [exact Hpost |].
  assert (Hdot : Path.rfind Path.dot (pre ++ String Path.dot post)
                 = Z.of_nat (String.length pre)).
  { rewrite rfind_append. cbn [Path.rfind]. rewrite Hpost, Ascii.eqb_refl.
    cbn. lia. }
  rewrite Hdot in E. rewrite rfind_append in E. cbn [Path.rfind] in E.
  pose proof (rfind_bounds Path.slash post) as Hsp.
  destruct (0 <=? Path.rfind Path.slash post)%Z eqn:F.
  - exfalso. apply Z.leb_le in F.
    replace (0 <=? Path.rfind Path.slash post + 1)%Z with true in E
      by (symmetry; apply Z.leb_le; lia).
    lia.
  - apply Z.leb_gt in F. lia.
Qed.

(** ** The conversion to a bitmap *)

(** [svgToBitmap] does all or nothing.  It returns only when the vector
    file was read and the extension is supported, and then has opened
    the output file and written one blob to it, of the encoder of the
    extension; in every other case it raises and has touched nothing. *)
Theorem svgToBitmap_all_or_nothing (infilename : string)
    (infile : option vector_file) (out : Path.t) (dpi : Q) (st : state) :
  let ext := snd (Path.splitext (Path.fspath out)) in
  let outcome := svgToBitmap infilename infile out dpi st in
  (exists image,
      infile = Some image /\ rasterisable image = true /\
      supported ext = true /\
      fst outcome = Ok tt /\
      snd outcome
      = {| log := (log st ++ [OpenFile (Path.fspath out);
                              WriteFile (Path.fspath out)
                                        (Blob (encoder ext) image dpi)])%list;
           temps := temps st |})
  \/ (is_ok (fst outcome) = false /\ snd outcome = st).
Proof.
  intros ext outcome. subst outcome.
  unfold svgToBitmap, bindIO, lift, ret, throw, perform, supported, encoder.
  fold ext.
  destruct infile as [image |]; cbn [image_read]; [| right; split; reflexivity].
  destruct (rasterisable image) eqn:Hread; [| right; split; reflexivity].
  destruct (String.eqb (Path.lower ext) ".png") eqn:Epng; cbn [orb log temps].
  { left. exists image. rewrite <- app_assoc. repeat split; assumption. }
  destruct (String.eqb (Path.lower ext) ".jpg" || String.eqb (Path.lower ext) ".jpeg")
    eqn:Ejpg; cbn [log temps].
  { left. exists image. rewrite <- app_assoc. repeat split; assumption. }
  right. split; reflexivity.
Qed.

(** The fault [svgToBitmap] raises on an output file it has no encoder
    for names the extension of the file: the file name ends in it, and it
    is empty or is a dot followed by characters among which there is
    neither a dot nor a slash. *)
Theorem svgToBitmap_fault_names_extension (infilename : string)
    (infile : option vector_file) (out : Path.t) (dpi : Q) (st : state)
    (message : list fragment) :
  fst (svgToBitmap infilename infile out dpi st) = Raise (RuntimeError message) ->
  exists stem ext,
    message = [Lit "Unsupported output image type "; Interp (VStr ext)] /\
    Path.fspath out = stem ++ ext /\
    supported ext = false /\
    (ext = ""
     \/ exists rest, ext = String "." rest /\
                     Path.rfind Path.dot rest = (-1)%Z /\
                     Path.rfind Path.slash rest = (-1)%Z).
Proof.
  destruct (splitext_parts (Path.fspath out)) as [Hparts Hext].
  unfold svgToBitmap, bindIO, lift, ret, throw, perform, supported.
  set (ext := snd (Path.splitext (Path.fspath out))) in *.
  destruct infile as [image |]; cbn [image_read]; [| discriminate].
  destruct (rasterisable image); [| discriminate].
  destruct (String.eqb (Path.lower ext) ".png") eqn:Epng; [discriminate |].
  destruct (String.eqb (Path.lower ext) ".jpg" || String.eqb (Path.lower ext) ".jpeg")
    eqn:Ejpg; [discriminate |].
  cbn [fst]. intros [= <-].
  exists (fst (Path.splitext (Path.fspath out))), ext.
  split; [reflexivity |]. split; [now symmetry |]. split; [| exact Hext].
  rewrite Epng. exact Ejpg.
Qed.

(* ===================================================================== *)
(** ** The further properties on the sample board *)
(* ===================================================================== *)

(** The pin of a PinSpec with every entry, on the first pad of the
    header. *)
Lemma pinDefinition_fields_full_pin :
  exists pin offset,
    pinDefinition (VDict Sample.full_pin) (Sample.square_pad "1" 0 0)
                  Sample.header = Ok pin /\
    number (or_default (lookup (VStr "offset") Sample.full_pin) (VInt 0))
    = Some offset /\
    pin_shape pin = padOutline (Sample.square_pad "1" 0 0) (mm2ki offset) /\
    lookup (VStr "name") Sample.full_pin = Some (pin_name pin) /\
    pin_description pin
    = or_default (lookup (VStr "description") Sample.full_pin) (VStr "") /\
    pin_alias pin
    = or_default (lookup (VStr "alias") Sample.full_pin) (VBool false) /\
    pin_groups pin
    = or_default (lookup (VStr "groups") Sample.full_pin) (VList []) /\
    (pin_front pin = true <-> In F_Cu (CuStack (Sample.square_pad "1" 0 0))) /\
    (pin_back pin = true <-> In B_Cu (CuStack (Sample.square_pad "1" 0 0))).
Proof.
  apply (pinDefinition_fields Sample.full_pin (Sample.square_pad "1" 0 0)
           Sample.header).
  reflexivity.
Defined.

(** A PinSpec that has a description only. *)
Lemma pinDefinition_missing_name_sample :
  is_ok (pinDefinition (VDict Sample.nameless_pin) (Sample.square_pad "1" 0 0)
                       Sample.header) = false /\
  (forall q,
      number (or_default (lookup (VStr "offset") Sample.nameless_pin) (VInt 0))
      = Some q ->
      pinDefinition (VDict Sample.nameless_pin) (Sample.square_pad "1" 0 0)
                    Sample.header
      = Raise (KeyError (VStr "name"))).
Proof.
  apply (pinDefinition_missing_name Sample.nameless_pin
           (Sample.square_pad "1" 0 0) Sample.header).
  reflexivity.
Defined.

(** An entry under 9, which is no pad of the header, changes nothing. *)
Lemma pinsDefinition_named_entries_only_sample :
  pinsDefinition (VDict Sample.pins_1_3) (Some Sample.header)
  = pinsDefinition (VDict Sample.pins_1_3_9) (Some Sample.header).
Proof.
  apply (pinsDefinition_named_entries_only Sample.pins_1_3 Sample.pins_1_3_9
           Sample.header).
  intros p Hp. cbn in Hp.
  destruct Hp as [<- | [<- | [<- | [<- | []]]]]; reflexivity.
Defined.

(** The reference U9 after the component J1, on the board that has J1
    only. *)
Lemma componentsDefinition_missing_component_U9 :
  componentsDefinition
    (VDict (Sample.components_J1
              ++ (VStr "U9", VDict Sample.absent_component) :: [])%list)
    Sample.a_board
  = Raise (AttributeError "NoneType has no attribute Pads").
Proof.
  apply (componentsDefinition_missing_component Sample.a_board
           Sample.components_J1 [] "U9" Sample.absent_component
           (VStr "absent") (VDict []));
    reflexivity.
Defined.

(** A number for a key. *)
Lemma validateGroupStructure_fault_kinds_number :
  key_fault (RuntimeError [Interp (VInt 1); Lit " is not a string"])
  \/ RuntimeError [Interp (VInt 1); Lit " is not a string"]
     = TypeError "unhashable type".
Proof.
  apply (validateGroupStructure_fault_kinds Sample.numbered_groups).
  reflexivity.
Defined.

(** The three kinds of values of the documentation, nested. *)
Lemma validateGroupStructure_canonical_output_sample :
  exists out,
    validateGroupStructure Sample.documented_groups = Ok out /\
    canonical out = true.
Proof.
  apply (validateGroupStructure_canonical_output Sample.documented_groups).
  reflexivity.
Defined.

(** The taxonomy of three groups. *)
Lemma validateGroupStructure_flat_taxonomy_sample :
  validateGroupStructure (flat_taxonomy ["adc"; "gpio"; "power"])
  = Ok (VDict [ (VStr "adc", VDict []); (VStr "gpio", VDict []);
                (VStr "power", VDict []) ]).
Proof.
  apply (validateGroupStructure_flat_taxonomy ["adc"; "gpio"; "power"]).
  repeat constructor; cbn; intuition discriminate.
Defined.

(** The same three groups on one component and on two. *)
Lemma collectGroups_set_of_names_sample :
  collectGroups (VDict Sample.pin_grouped)
  = collectGroups (VDict Sample.regrouped).
Proof.
  apply (collectGroups_set_of_names Sample.pin_grouped Sample.regrouped);
    [reflexivity | reflexivity |].
  intros k. cbn. intuition.
Defined.

(** A component without pins after the grouped one. *)
Lemma collectGroups_missing_pins_sample :
  collectGroups
    (VDict (Sample.pin_grouped ++ (VStr "U2", VDict Sample.pinless) :: [])%list)
  = Raise (KeyError (VStr "pins")).
Proof.
  apply (collectGroups_missing_pins Sample.pin_grouped [] (VStr "U2")
           Sample.pinless);
    reflexivity.
Defined.

(** The front side of the sample board, written as a PNG. *)
Lemma generateImage_writes_bitmap_sample :
  Sample.png_run
  = (activeArea Sample.decimal "/tmp/pinion/img.svg" (Some Sample.drawing),
     after Sample.start
       [MkTemp "/tmp/pinion"; Run Sample.front_command;
        OpenFile "out/front.png";
        WriteFile "out/front.png" (Blob "png32" Sample.drawing 300);
        RmTemp "/tmp/pinion"]).
Proof.
  apply (generateImage_writes_bitmap Sample.mkdtemp Sample.pcbdraw
           Sample.decimal "board.kicad_pcb"
           (Path.truediv (Path.of_string "out") "front.png") 300
           Sample.no_args false Sample.start Sample.drawing);
    reflexivity.
Defined.

(** A vector file without a viewBox. *)
Lemma generateImage_missing_viewBox_sample :
  let outcome :=
    generateImage Sample.mkdtemp Sample.boxless_pcbdraw Sample.decimal
      "board.kicad_pcb" (Path.truediv (Path.of_string "out") "front.png") 300
      Sample.no_args false Sample.start in
  fst outcome = Raise (KeyError (VStr "viewBox")) /\
  existsb (touches "out/front.png") (log (snd outcome)) = true.
Proof.
  apply (generateImage_missing_viewBox Sample.mkdtemp Sample.boxless_pcbdraw
           Sample.decimal "board.kicad_pcb"
           (Path.truediv (Path.of_string "out") "front.png") 300
           Sample.no_args false Sample.start Sample.boxless);
    reflexivity.
Defined.

(** A viewBox of three numbers. *)
Lemma generateImage_malformed_viewBox_sample :
  exists what,
    fst (generateImage Sample.mkdtemp Sample.short_box_pcbdraw Sample.decimal
           "board.kicad_pcb" (Path.truediv (Path.of_string "out") "front.png")
           300 Sample.no_args false Sample.start)
    = Raise (ValueError what).
Proof.
  apply (generateImage_malformed_viewBox Sample.mkdtemp
           Sample.short_box_pcbdraw Sample.decimal "board.kicad_pcb"
           (Path.truediv (Path.of_string "out") "front.png") 300
           Sample.no_args false Sample.start Sample.short_box
           (Text.of_string "0 0 10000"));
    [reflexivity | reflexivity | reflexivity | reflexivity |].
  left. vm_compute. discriminate.
Defined.

(** The front side of the sample board returned a box. *)
Lemma generateImage_returns_only_if_sample :
  exists f viewBox x y w h,
    Sample.pcbdraw Sample.front_command = (0%Z, Some f) /\
    rasterisable f = true /\
    supported ".png" = true /\
    root_viewBox f = Some (Some viewBox) /\
    unpack_floats Sample.decimal 4 (Text.split viewBox) = Ok [x; y; w; h] /\
    snd Sample.png_run
    = after Sample.start
        [MkTemp "/tmp/pinion"; Run Sample.front_command;
         OpenFile "out/front.png";
         WriteFile "out/front.png" (Blob (encoder ".png") f 300);
         RmTemp "/tmp/pinion"] /\
    ki2mm (dmil2ki (PFloat x)) = Ok (fst (tl Sample.png_box)) /\
    ki2mm (dmil2ki (PFloat y)) = Ok (snd (tl Sample.png_box)) /\
    ki2mm (dmil2ki (PFloat (B64.add x w))) = Ok (fst (br Sample.png_box)) /\
    ki2mm (dmil2ki (PFloat (B64.add y h))) = Ok (snd (br Sample.png_box)).
Proof.
  apply (generateImage_returns_only_if Sample.mkdtemp Sample.pcbdraw
           Sample.decimal "board.kicad_pcb"
           (Path.truediv (Path.of_string "out") "front.png") 300
           Sample.no_args false Sample.start Sample.png_box).
  vm_compute. reflexivity.
Defined.

(** The run on the resistor board ends well and has written a
    document. *)
Lemma generate_writes_document_resistor :
  fst Sample.resistor_run = Ok tt /\
  exists doc,
    assemble Sample.resistor_board Sample.resistor_document
             Sample.png_box Sample.png_box = Ok doc /\
    written_document (snd Sample.resistor_run) = Some doc.
Proof.
  destruct (assemble Sample.resistor_board Sample.resistor_document
                     Sample.png_box Sample.png_box) as [doc | e] eqn:E;
    [| discriminate E].
  destruct (generate_writes_document Sample.mkdtemp Sample.pcbdraw
              Sample.decimal Sample.resistor_board Sample.resistor_document
              "out" 300 Sample.no_args Sample.start
              Sample.png_box Sample.png_box doc)
    as [H1 H2]; [vm_compute; reflexivity | vm_compute; reflexivity | exact E |].
  split; [exact H1 |]. exists doc. split; [reflexivity | exact H2].
Defined.

(** A document without a name: both bitmaps are there, spec.json is
    not. *)
Lemma generate_assembly_fault_nameless :
  let outcome :=
    generate Sample.mkdtemp Sample.pcbdraw Sample.decimal Sample.resistor_board
             Sample.nameless_document "out" 300 Sample.no_args Sample.start in
  fst outcome = Raise (KeyError (VStr "name")) /\
  existsb (touches "out/front.png") (log (snd outcome)) = true /\
  existsb (touches "out/back.png") (log (snd outcome)) = true /\
  written_document (snd outcome) = written_document Sample.start.
Proof.
  apply (generate_assembly_fault Sample.mkdtemp Sample.pcbdraw Sample.decimal
           Sample.resistor_board Sample.nameless_document "out" 300
           Sample.no_args Sample.start Sample.png_box Sample.png_box
           (KeyError (VStr "name")));
    vm_compute; reflexivity.
Defined.

(** A bitmap asked for as [out/front.bmp]. *)
Lemma svgToBitmap_fault_names_extension_bmp :
  exists stem ext,
    [Lit "Unsupported output image type "; Interp (VStr ".bmp")]
    = [Lit "Unsupported output image type "; Interp (VStr ext)] /\
    "out/front.bmp" = stem ++ ext /\
    supported ext = false /\
    (ext = ""
     \/ exists rest, ext = String "." rest /\
                     Path.rfind Path.dot rest = (-1)%Z /\
                     Path.rfind Path.slash rest = (-1)%Z).
Proof.
  apply (svgToBitmap_fault_names_extension "/tmp/pinion/img.svg"
           (Some Sample.drawing)
           (Path.truediv (Path.of_string "out") "front.bmp") 300 Sample.start).
  reflexivity.
Defined.
